(** * MANUS task engine: the source's task handlers, tool catalogue and
      tool implementations, and the engine components of the specification

    The development has these parts.

    - [TasksPage]: the task list handlers of the React task page
      (handleTaskUpdate, handleTaskProgress, cancelTask, retryTask).
    - [Schema]: the [tasks] and [tools] tables and the seeded tool
      catalogue of the SQL scripts.
    - [Tools]: the Python [execute] functions stored in the [tools] table.
    - [Engine]: the plan compiler and the scheduler, which the repository's
      sources only describe.
    - [SocketContext], [TaskViews]: the socket context and the rest of the
      task page (filterTasks, formatDuration, the detail dialog).
    - [AuthService], [AuthContext]: the authentication service and the
      provider that uses it.
    - [Policies]: the row-level security policies of the schema. *)

From Stdlib Require Import Ascii String ZArith QArith Qround Qcanon Lia.
From stdpp Require Import gmap strings pretty list fin_maps relations.

Local Open Scope string_scope.
Local Open Scope Z_scope.
Local Set Warnings "-register-all".
Local Set Warnings "-abstract-large-number".

(** ** JavaScript values held in the task page's state *)

Module JS.

(** Numbers of the task objects are the integers of the mock data and of
    the progress events; objects are maps from property names. *)
Inductive jsval : Type :=
  | JUndefined
  | JNull
  | JBool (b : bool)
  | JNum (n : Z)
  | JStr (s : string)
  | JArr (xs : list jsval)
  | JObj (o : gmap string jsval).

Abbreviation jsobj := (gmap string jsval).

(** [o.k]: a missing property reads as [undefined]. *)
Definition get (o : jsobj) (k : string) : jsval :=
  default JUndefined (o !! k).

(** [{...a, ...b}]: the properties of [b] win. *)
Definition spread (a b : jsobj) : jsobj := b ∪ a.

(** [a === b] on the primitive values that serve as task ids.  Arrays and
    objects are compared by reference in JavaScript; two separately built
    ones are never identical, which is what the model returns for them. *)
Definition strict_eq (a b : jsval) : bool :=
  match a, b with
  | JUndefined, JUndefined => true
  | JNull, JNull => true
  | JBool x, JBool y => bool_decide (x = y)
  | JNum x, JNum y => bool_decide (x = y)
  | JStr x, JStr y => bool_decide (x = y)
  | _, _ => false
  end.

End JS.

(** ** The task page: state updaters passed to [setTasks] *)

Module TasksPage.
Import JS.

(** Payload of a [task_updated] socket event: [taskData.task] is the task
    object sent by the server. *)
Record task_updated := { task : jsobj }.

(** Payload of a [task_progress] socket event. *)
Record task_progress :=
  { task_id : jsval; progress : jsval; current_step : jsval }.

(** [prev.map(task => task.id === taskData.task.id
                      ? { ...task, ...taskData.task } : task)] *)
Definition handleTaskUpdate (taskData : task_updated) (prev : list jsobj)
  : list jsobj :=
  map (λ t, if strict_eq (get t "id") (get (task taskData) "id")
            then spread t (task taskData) else t) prev.

(** [prev.map(task => task.id === progressData.task_id
      ? { ...task, progress: progressData.progress,
          current_step: progressData.current_step } : task)] *)
Definition handleTaskProgress (progressData : task_progress)
  (prev : list jsobj) : list jsobj :=
  map (λ t, if strict_eq (get t "id") (task_id progressData)
            then <["current_step" := current_step progressData]>
                   (<["progress" := progress progressData]> t)
            else t) prev.

(** [cancelTask]: [confirmed] is the answer of [window.confirm]; when it is
    declined no update is made. *)
Definition cancelTask (confirmed : bool) (taskId : jsval)
  (prev : list jsobj) : list jsobj :=
  if confirmed then
    map (λ t, if strict_eq (get t "id") taskId
              then <["status" := JStr "cancelled"]> t else t) prev
  else prev.

(** [retryTask]: [{ ...task, status: 'pending', progress: 0,
    error_message: null }] for the task with the given id. *)
Definition retryTask (taskId : jsval) (prev : list jsobj) : list jsobj :=
  map (λ t, if strict_eq (get t "id") taskId
            then <["error_message" := JNull]>
                   (<["progress" := JNum 0]>
                      (<["status" := JStr "pending"]> t))
            else t) prev.

(** Readers used to state properties of a task object. *)
Definition status_of (o : jsobj) : jsval := get o "status".

Definition steps_of (t : jsobj) : list jsobj :=
  match get t "steps" with
  | JArr xs => omap (λ v, match v with JObj o => Some o | _ => None end) xs
  | _ => []
  end.

(** The terminal step statuses of the specification. *)
Definition terminal_status (v : jsval) : bool :=
  match v with
  | JStr s => bool_decide (s ∈ ["completed"; "failed"; "skipped"; "cancelled"])
  | _ => false
  end.

Definition mk_step (id : Z) (name status : string) (duration : jsval) : jsobj :=
  list_to_map [("id", JNum id); ("name", JStr name);
               ("status", JStr status); ("duration", duration)].

(** Two tasks of [mockTasks]; the date fields, which are computed from
    [Date.now()], are left out. *)
Definition mockTask2 : jsobj :=
  list_to_map
    [("id", JStr "2"); ("title", JStr "Desarrollo de API REST");
     ("description",
      JStr "Crear una API REST para gestión de usuarios con autenticación JWT.");
     ("status", JStr "running"); ("agent_id", JStr "3");
     ("agent_name", JStr "Programador"); ("conversation_id", JStr "2");
     ("progress", JNum 65);
     ("current_step", JStr "Implementando endpoints de autenticación");
     ("steps", JArr (JObj <$>
                [mk_step 1 "Configurar proyecto" "completed" (JNum 180);
                 mk_step 2 "Diseñar modelos" "completed" (JNum 240);
                 mk_step 3 "Implementar autenticación" "running" JNull;
                 mk_step 4 "Crear endpoints CRUD" "pending" JNull;
                 mk_step 5 "Documentar API" "pending" JNull;
                 mk_step 6 "Testing" "pending" JNull]));
     ("tools_used",
      JArr [JStr "flask"; JStr "sqlalchemy"; JStr "jwt"; JStr "pytest"]);
     ("files_generated",
      JArr [JStr "app.py"; JStr "models.py"; JStr "auth.py"])].

Definition mockTask3 : jsobj :=
  list_to_map
    [("id", JStr "3"); ("title", JStr "Optimización de consultas SQL");
     ("description",
      JStr "Revisar y optimizar las consultas SQL más lentas de la base de datos.");
     ("status", JStr "failed"); ("agent_id", JStr "2");
     ("agent_name", JStr "Analista de Datos"); ("conversation_id", JStr "3");
     ("progress", JNum 30);
     ("error_message",
      JStr "Error de conexión a la base de datos. Credenciales inválidas.");
     ("steps", JArr (JObj <$>
                [mk_step 1 "Conectar a BD" "failed" (JNum 10);
                 mk_step 2 "Analizar consultas" "pending" JNull;
                 mk_step 3 "Optimizar índices" "pending" JNull]));
     ("tools_used", JArr [JStr "postgresql"; JStr "explain"]);
     ("files_generated", JArr [])].

(** The specification's reading of [cancel_task]: the task becomes
    cancelled and so does each of its steps that was not terminal. *)
Definition cancel_task_spec (taskId : jsval) (before after : list jsobj)
  : Prop :=
  ∀ (i : nat) (t : jsobj),
    before !! i = Some t → strict_eq (get t "id") taskId = true →
    ∃ t', after !! i = Some t' ∧ status_of t' = JStr "cancelled" ∧
      ∀ (j : nat) (s : jsobj),
        steps_of t !! j = Some s → terminal_status (status_of s) = false →
        ∃ s', steps_of t' !! j = Some s' ∧ status_of s' = JStr "cancelled".

Definition failed_or_skipped (v : jsval) : bool :=
  match v with
  | JStr s => bool_decide (s ∈ ["failed"; "skipped"])
  | _ => false
  end.

(** The specification's reading of [retry_task] on a failed task: the
    failed and skipped steps become ready with their error cleared, the
    other steps stay as they are. *)
Definition retry_task_spec (taskId : jsval) (before after : list jsobj)
  : Prop :=
  ∀ (i : nat) (t : jsobj),
    before !! i = Some t → strict_eq (get t "id") taskId = true →
    status_of t = JStr "failed" →
    ∃ t', after !! i = Some t' ∧
      ∀ (j : nat) (s : jsobj), steps_of t !! j = Some s →
        ∃ s', steps_of t' !! j = Some s' ∧
          if failed_or_skipped (status_of s)
          then status_of s' = JStr "ready" ∧ get s' "error" = JUndefined
          else s' = s.

(** The specification's reading of a task's progress after a committed
    step transition: it is completed_steps / total_steps * 100, written
    here without the division, and it lies between 0 and 100. *)
Definition steps_completed (t : jsobj) : Z :=
  Z.of_nat (length (filter (λ s, strict_eq (status_of s) (JStr "completed")
                                  = true) (steps_of t))).

Definition steps_total (t : jsobj) : Z := Z.of_nat (length (steps_of t)).

Definition progress_spec (t : jsobj) : Prop :=
  ∃ p : Z, get t "progress" = JNum p
           ∧ p * steps_total t = steps_completed t * 100
           ∧ 0 ≤ p ≤ 100.

(** That reading for the task of a progress event, in the list that the
    handler leaves. *)
Definition progress_event_spec (taskId : jsval) (after : list jsobj) : Prop :=
  ∀ (i : nat) (t' : jsobj),
    after !! i = Some t' → strict_eq (get t' "id") taskId = true →
    progress_spec t'.

End TasksPage.


(** ** The database schema and its seed data *)

Module Schema.

(** [security_level VARCHAR(20) CHECK (security_level IN
    ('safe', 'moderate', 'dangerous'))] *)
Inductive security_level := safe | moderate | dangerous.

#[global] Instance security_level_eq_dec : EqDecision security_level.
Proof. solve_decision. Defined.

(** The columns of a [tools] row that the engine reads. *)
Record tool_row := {
  name : string;
  category : string;
  level : security_level;
  requires_confirmation : bool;
}.

(** The rows inserted into [tools] by the seed script, in its order. *)
Definition seeded_tools : list tool_row :=
  [ {| name := "shell_exec"; category := "system";
       level := moderate; requires_confirmation := true |};
    {| name := "file_read"; category := "file";
       level := safe; requires_confirmation := false |};
    {| name := "file_write"; category := "file";
       level := safe; requires_confirmation := false |};
    {| name := "file_list"; category := "file";
       level := safe; requires_confirmation := false |};
    {| name := "web_search"; category := "web";
       level := safe; requires_confirmation := false |};
    {| name := "browser_navigate"; category := "web";
       level := safe; requires_confirmation := false |};
    {| name := "text_analyze"; category := "analysis";
       level := safe; requires_confirmation := false |};
    {| name := "json_parse"; category := "utility";
       level := safe; requires_confirmation := false |} ].

(** [describe(tool_name)]: the row with that name ([name] is UNIQUE). *)
Definition describe (tool_name : string) : option tool_row :=
  snd <$> list_find (λ r, name r = tool_name) seeded_tools.

(** [('enable_tool_confirmation', 'false', ...)] of [system_config]. *)
Definition enable_tool_confirmation : bool := false.

(** The checked columns of a [tasks] row.  [status] and [priority] have a
    default and may, like [progress_percentage], hold NULL: none of the
    three is declared NOT NULL. *)
Record task_row := {
  title : string;
  status : option string;
  priority : option Z;
  progress_percentage : option Z;
  error_message : option string;
}.

(** A CHECK constraint is satisfied when its expression is true or NULL. *)
Definition check {A} (p : A → bool) (v : option A) : bool :=
  match v with Some x => p x | None => true end.

Definition tasks_check (r : task_row) : bool :=
  check (λ s, bool_decide
           (s ∈ ["pending"; "running"; "completed"; "failed"; "cancelled"]))
        (status r)
  && check (λ p, (1 <=? p) && (p <=? 5)) (priority r)
  && check (λ p, (0 <=? p) && (p <=? 100)) (progress_percentage r).

(** [INSERT INTO tasks (title) VALUES (...)]: the column defaults. *)
Definition default_task (t : string) : task_row :=
  {| title := t; status := Some "pending"; priority := Some 1;
     progress_percentage := Some 0; error_message := None |}.

(** Statements on the [tasks] table: an INSERT of a row and an UPDATE of
    the row at a position.  A statement whose new row violates a CHECK
    fails and leaves the table as it was. *)
Inductive statement :=
  | Insert (r : task_row)
  | Update (i : nat) (f : task_row → task_row).

Definition exec (s : statement) (table : list task_row) : list task_row :=
  match s with
  | Insert r => if tasks_check r then table ++ [r] else table
  | Update i f =>
      match table !! i with
      | Some r => if tasks_check (f r) then <[i := f r]> table else table
      | None => table
      end
  end.

Definition exec_all (ss : list statement) (table : list task_row)
  : list task_row :=
  foldl (λ tbl s, exec s tbl) table ss.

End Schema.

(** ** Python values, exceptions and string operations used by the tools *)

Module Py.

(** Values exchanged with the tools.  A float is carried as a rational:
    no property below depends on its rounding. *)
Inductive pyval : Type :=
  | PNone
  | PBool (b : bool)
  | PInt (n : Z)
  | PFloat (q : Q)
  | PStr (s : string)
  | PList (xs : list pyval)
  | PDict (d : gmap string pyval).

Abbreviation pydict := (gmap string pyval).

(** Exceptions, all of them subclasses of [Exception]; the class decides
    which [except] clause takes them, [exn_str] is [str(e)]. *)
Inductive exn_class :=
  | KeyError
  | TimeoutExpired
  | JSONDecodeError
  | OtherException (cls : string).

#[export] Instance exn_class_eq_dec : EqDecision exn_class.
Proof. solve_decision. Defined.

Record exn := { exn_cls : exn_class; exn_str : string }.

(** The result of running Python code: a value or a raised exception. *)
Inductive outcome (A : Type) :=
  | Ret (a : A)
  | Raise (e : exn).
Arguments Ret {A} a.
Arguments Raise {A} e.

Definition bind {A B} (m : outcome A) (k : A → outcome B) : outcome B :=
  match m with
  | Ret a => k a
  | Raise e => Raise e
  end.

#[export] Instance outcome_bind : MBind outcome := λ A B k m, bind m k.
#[export] Instance outcome_ret : MRet outcome := λ A a, Ret a.

(** Truth value of a value in a condition. *)
Definition truthy (v : pyval) : bool :=
  match v with
  | PNone => false
  | PBool b => b
  | PInt n => negb (n =? 0)
  | PFloat q => negb (Qeq_bool q 0)
  | PStr s => negb (bool_decide (s = EmptyString))
  | PList xs => negb (bool_decide (length xs = 0%nat))
  | PDict d => negb (bool_decide (size d = 0%nat))
  end.

(** [params[k]]: raises [KeyError] when the key is missing; [str(e)] of a
    [KeyError] is the quoted key. *)
Definition getitem (d : pydict) (k : string) : outcome pyval :=
  match d !! k with
  | Some v => Ret v
  | None => Raise {| exn_cls := KeyError; exn_str := "'" ++ k ++ "'" |}
  end.

(** [params.get(k, dflt)] *)
Definition get_default (d : pydict) (k : string) (dflt : pyval) : pyval :=
  default dflt (d !! k).

(** [type(v).__name__] *)
Definition type_name (v : pyval) : string :=
  match v with
  | PNone => "NoneType"
  | PBool _ => "bool"
  | PInt _ => "int"
  | PFloat _ => "float"
  | PStr _ => "str"
  | PList _ => "list"
  | PDict _ => "dict"
  end.

(** Characters are the code points below 256. *)
Definition code (c : ascii) : N := N_of_ascii c.

(** [str.isspace] on one character, as used by [str.strip()]. *)
Definition is_space (c : ascii) : bool :=
  let n := code c in
  ((9 <=? n) && (n <=? 13) || (28 <=? n) && (n <=? 32)
   || (n =? 133) || (n =? 160))%N.

(** Line boundaries of [str.splitlines()] other than the pair CR LF. *)
Definition is_linebreak (c : ascii) : bool :=
  let n := code c in
  ((10 <=? n) && (n <=? 13) || (28 <=? n) && (n <=? 30) || (n =? 133))%N.

Fixpoint lstrip (s : list ascii) : list ascii :=
  match s with
  | c :: s' => if is_space c then lstrip s' else s
  | [] => []
  end.

Definition strip (s : list ascii) : list ascii :=
  reverse (lstrip (reverse (lstrip s))).

(** [splitlines_go cur s]: [cur] is the current line, reversed. *)
Fixpoint splitlines_go (cur : list ascii) (s : list ascii)
  : list (list ascii) :=
  match s with
  | [] => match cur with [] => [] | _ => [reverse cur] end
  | c :: s' =>
      if is_linebreak c then
        match s' with
        | c' :: s'' =>
            if ((code c =? 13) && (code c' =? 10))%N
            then reverse cur :: splitlines_go [] s''
            else reverse cur :: splitlines_go [] s'
        | [] => [reverse cur]
        end
      else splitlines_go (c :: cur) s'
  end.

Definition splitlines (s : list ascii) : list (list ascii) :=
  splitlines_go [] s.

(** [s.split("  ")]: cut at each pair of spaces, left to right. *)
Fixpoint split2_go (cur : list ascii) (s : list ascii)
  : list (list ascii) :=
  match s with
  | [] => [reverse cur]
  | c :: s' =>
      match s' with
      | c' :: s'' =>
          if ((code c =? 32) && (code c' =? 32))%N
          then reverse cur :: split2_go [] s''
          else split2_go (c :: cur) s'
      | [] => [reverse (c :: cur)]
      end
  end.

Definition split_double_space (s : list ascii) : list (list ascii) :=
  split2_go [] s.

(** [sep.join(parts)] *)
Fixpoint join (sep : list ascii) (parts : list (list ascii)) : list ascii :=
  match parts with
  | [] => []
  | [p] => p
  | p :: ps => p ++ sep ++ join sep ps
  end.

(** [s[:n]] on a string and on a list. *)
Definition str_take (n : nat) (s : string) : string :=
  string_of_list_ascii (take n (list_ascii_of_string s)).

End Py.

(** ** The tools of the catalogue: their [execute] functions *)

Module Tools.
Import Py.

Definition ls := list_ascii_of_string.
Definition sl := string_of_list_ascii.

(** [subprocess.CompletedProcess] with captured text output. *)
Record completed_process := {
  stdout : string;
  stderr : string;
  returncode : Z;
}.

(** [requests.Response] *)
Record response := {
  status_code : Z;
  content : string;
}.

(** What the tools read of a parsed page.  [soup_title]: no [title] tag,
    or its [.string], which may be [None].  [soup_text] is [get_text()]
    after the [script] and [style] tags were removed.  [soup_anchors b]
    lists, for each [a] tag with an [href], its stripped text and the
    [href]; [b] tells whether [script] and [style] were removed before. *)
Record soup := {
  soup_title : option (option string);
  soup_text : string;
  soup_anchors : bool → list (string * string);
}.

(** [os.stat_result] *)
Record stat_result := {
  st_size : Z;
  st_mtime : Q;
}.

(** The operating system, the network and the library calls the tools
    make; a call that may fail either returns or raises.
    [makedirs_dirname p] is [os.makedirs(os.path.dirname(p), exist_ok=True)],
    [write_file p append encoding content] opens [p] and writes,
    [encoded_length content encoding] is [len(content.encode(encoding))],
    [read_lines p encoding] gives the lines of the opened file,
    [findall_words s] is [re.findall(r"\b\w+\b", s)] and
    [most_common words n] is [Counter(words).most_common(n)]. *)
Record world := {
  subprocess_run : pyval → pyval → pyval → outcome completed_process;
  path_exists : pyval → outcome bool;
  read_lines : pyval → pyval → outcome (list string);
  getsize : pyval → outcome Z;
  makedirs_dirname : pyval → outcome ();
  write_file : pyval → bool → pyval → pyval → outcome ();
  encoded_length : pyval → pyval → outcome Z;
  walk : pyval → outcome (list (string * list string));
  listdir : pyval → outcome (list string);
  path_join : pyval → string → outcome string;
  os_stat : string → outcome stat_result;
  isfile : string → bool;
  isdir : string → bool;
  quote : pyval → outcome string;
  requests_get : pyval → outcome response;
  raise_for_status : response → outcome ();
  response_json : response → outcome pyval;
  BeautifulSoup : string → outcome soup;
  urljoin : pyval → string → outcome string;
  json_loads : pyval → outcome pyval;
  json_dumps : pyval → outcome string;
  str_lower : string → string;
  findall_words : string → list string;
  most_common : list string → nat → list (string * Z);
  format : pyval → string;
}.

(** [str(v)] in an f-string; compound values go through [format]. *)
Definition py_str (w : world) (v : pyval) : string :=
  match v with
  | PNone => "None"
  | PBool true => "True"
  | PBool false => "False"
  | PInt n => pretty n
  | PStr s => s
  | _ => format w v
  end.

Definition error_of (cls msg : string) : exn :=
  {| exn_cls := OtherException cls; exn_str := msg |}.

(** [{"success": False, "error": msg}] *)
Definition failure (msg : string) : pydict :=
  <["error" := PStr msg]> {["success" := PBool false]}.

(** [try: body  except Exception as e: return failure(str(e))] *)
Definition try_except (body : outcome pydict) : outcome pydict :=
  match body with
  | Ret r => Ret r
  | Raise e => Ret (failure (exn_str e))
  end.

(** *** shell_exec *)

Definition shell_exec (w : world) (params : pydict) : outcome pydict :=
  command ← getitem params "command";
  let working_dir := get_default params "working_dir" (PStr "/tmp") in
  let timeout := get_default params "timeout" (PInt 30) in
  match subprocess_run w command working_dir timeout with
  | Ret result =>
      Ret (<["return_code" := PInt (returncode result)]>
             (<["stderr" := PStr (stderr result)]>
                (<["stdout" := PStr (stdout result)]>
                   {["success" := PBool true]})))
  | Raise e =>
      match exn_cls e with
      | TimeoutExpired =>
          Ret (failure ("Command timed out after " ++ py_str w timeout
                        ++ " seconds"))
      | _ => Ret (failure (exn_str e))
      end
  end.

(** *** json_parse *)

Definition json_parse_body (w : world) (json_string pretty_print : pyval)
  : outcome pydict :=
  parsed_data ← json_loads w json_string;
  let result : pydict :=
    <["data" := parsed_data]>
      (<["valid_json" := PBool true]> {["success" := PBool true]}) in
  result ← (if truthy pretty_print
            then formatted ← json_dumps w parsed_data;
                 Ret (<["formatted" := PStr formatted]> result)
            else Ret result);
  Ret (match parsed_data with
       | PDict d =>
           <["key_count" := PInt (Z.of_nat (size d))]>
             (<["keys" := PList (PStr <$> (map_to_list d).*1)]>
                (<["type" := PStr "object"]> result))
       | PList xs =>
           <["length" := PInt (Z.of_nat (length xs))]>
             (<["type" := PStr "array"]> result)
       | _ => <["type" := PStr (type_name parsed_data)]> result
       end).

Definition json_parse (w : world) (params : pydict) : outcome pydict :=
  json_string ← getitem params "json_string";
  let pretty_print := get_default params "pretty_print" (PBool true) in
  match json_parse_body w json_string pretty_print with
  | Ret r => Ret r
  | Raise e =>
      match exn_cls e with
      | JSONDecodeError =>
          Ret (<["error" := PStr ("JSON parsing error: " ++ exn_str e)]>
                 (<["valid_json" := PBool false]>
                    {["success" := PBool false]}))
      | _ => Ret (failure (exn_str e))
      end
  end.

(** *** browser_navigate *)

(** The text clean-up: strip each line, cut it at double spaces, strip
    the pieces, drop the empty ones and join the rest with one space. *)
Definition clean_text (text : string) : string :=
  let lines := strip <$> splitlines (ls text) in
  let chunks := lines ≫= λ line, strip <$> split_double_space line in
  sl (join (ls " ") (filter (λ chunk, chunk ≠ []) chunks)).

(** The cuts [text[:5000]] and [links[:50]]. *)
Definition text_limit : nat := 5000.
Definition links_limit : nat := 50.

Definition link_dict (w : world) (url : pyval) (a : string * string)
  : outcome pyval :=
  absolute_url ← urljoin w url a.2;
  Ret (PDict (<["url" := PStr absolute_url]> {["text" := PStr a.1]})).

Definition browser_navigate_body (w : world)
  (url extract_text extract_links : pyval) : outcome pydict :=
  resp ← requests_get w url;
  _ ← raise_for_status w resp;
  page ← BeautifulSoup w (content resp);
  let result : pydict :=
    <["status_code" := PInt (status_code resp)]>
      (<["title" := match soup_title page with
                    | Some (Some s) => PStr s
                    | Some None => PNone
                    | None => PStr EmptyString
                    end]>
         (<["url" := url]> {["success" := PBool true]})) in
  let result :=
    if truthy extract_text
    then <["text" := PStr (str_take text_limit (clean_text (soup_text page)))]>
           result
    else result in
  if truthy extract_links
  then links ← mapM (link_dict w url)
                 (soup_anchors page (truthy extract_text));
       Ret (<["links" := PList (take links_limit links)]> result)
  else Ret result.

Definition browser_navigate (w : world) (params : pydict) : outcome pydict :=
  url ← getitem params "url";
  let extract_text := get_default params "extract_text" (PBool true) in
  let extract_links := get_default params "extract_links" (PBool false) in
  try_except (browser_navigate_body w url extract_text extract_links).

(** *** file_read *)

(** The lines kept by
    [for i, line in enumerate(f): if i >= max_lines: break]
    for a [max_lines] that is true in a condition. *)
Definition head_lines (max_lines : pyval) (lines : list string)
  : outcome (list string) :=
  match max_lines with
  | PInt n => Ret (take (Z.to_nat n) lines)
  | PBool b => Ret (take (if b then 1 else 0)%nat lines)
  | PFloat q => Ret (take (Z.to_nat (Qceiling q)) lines)
  | _ =>
      match lines with
      | [] => Ret []
      | _ => Raise (error_of "TypeError"
                      "'>=' not supported between instances")
      end
  end.

Definition concat_str (parts : list string) : string :=
  foldr String.append EmptyString parts.

Definition file_read_body (w : world) (file_path encoding max_lines : pyval)
  : outcome pydict :=
  found ← path_exists w file_path;
  if negb found
  then Ret (failure ("File not found: " +:+ py_str w file_path))
  else
    lines ← read_lines w file_path encoding;
    kept ← (if truthy max_lines then head_lines max_lines lines
            else Ret lines);
    let content := concat_str kept in
    file_size ← getsize w file_path;
    Ret (<["file_size" := PInt file_size]>
           (<["content" := PStr content]> {["success" := PBool true]})).

Definition file_read (w : world) (params : pydict) : outcome pydict :=
  file_path ← getitem params "path";
  let encoding := get_default params "encoding" (PStr "utf-8") in
  let max_lines := get_default params "max_lines" PNone in
  try_except (file_read_body w file_path encoding max_lines).

(** *** file_write *)

Definition file_write_body (w : world)
  (file_path content encoding append : pyval) : outcome pydict :=
  _ ← makedirs_dirname w file_path;
  _ ← write_file w file_path (truthy append) encoding content;
  bytes_written ← encoded_length w content encoding;
  Ret (<["file_path" := file_path]>
         (<["bytes_written" := PInt bytes_written]>
            {["success" := PBool true]})).

Definition file_write (w : world) (params : pydict) : outcome pydict :=
  file_path ← getitem params "path";
  content ← getitem params "content";
  let encoding := get_default params "encoding" (PStr "utf-8") in
  let append := get_default params "append" (PBool false) in
  try_except (file_write_body w file_path content encoding append).

(** *** file_list *)

Definition starts_with_dot (s : string) : bool :=
  match s with
  | String c _ => bool_decide (c = "."%char)
  | EmptyString => false
  end.

Definition file_entry (name path : string) (size : Z) (is_directory : bool)
  (modified : Q) : pyval :=
  PDict (<["modified" := PFloat modified]>
           (<["is_directory" := PBool is_directory]>
              (<["size" := PInt size]>
                 (<["path" := PStr path]> {["name" := PStr name]})))).

(** One file met by [os.walk]. *)
Definition walked_file (w : world) (root filename : string)
  : outcome pyval :=
  full_path ← path_join w (PStr root) filename;
  st ← os_stat w full_path;
  Ret (file_entry filename full_path (st_size st) false (st_mtime st)).

(** One item of [os.listdir]. *)
Definition listed_item (w : world) (dir_path : pyval) (item : string)
  : outcome pyval :=
  full_path ← path_join w dir_path item;
  st ← os_stat w full_path;
  Ret (file_entry item full_path
         (if isfile w full_path then st_size st else 0)
         (isdir w full_path) (st_mtime st)).

Definition visible (show_hidden : pyval) (names : list string)
  : list string :=
  filter (λ n, ¬ (truthy show_hidden = false ∧ starts_with_dot n = true))
         names.

Definition file_list_body (w : world)
  (dir_path recursive show_hidden : pyval) : outcome pydict :=
  found ← path_exists w dir_path;
  if negb found
  then Ret (failure ("Directory not found: " +:+ py_str w dir_path))
  else
    files ← (if truthy recursive
             then dirs ← walk w dir_path;
                  per_dir ← mapM (λ d : string * list string,
                                    mapM (walked_file w d.1)
                                         (visible show_hidden d.2)) dirs;
                  Ret (concat per_dir)
             else items ← listdir w dir_path;
                  mapM (listed_item w dir_path) (visible show_hidden items));
    Ret (<["total_count" := PInt (Z.of_nat (length files))]>
           (<["files" := PList files]> {["success" := PBool true]})).

Definition file_list (w : world) (params : pydict) : outcome pydict :=
  dir_path ← getitem params "path";
  let recursive := get_default params "recursive" (PBool false) in
  let show_hidden := get_default params "show_hidden" (PBool false) in
  try_except (file_list_body w dir_path recursive show_hidden).

(** *** web_search *)

(** [v.get(k, dflt)] on a value that should be a dict. *)
Definition dict_get (v : pyval) (k : string) (dflt : pyval)
  : outcome pyval :=
  match v with
  | PDict d => Ret (default dflt (d !! k))
  | _ => Raise (error_of "AttributeError"
                  ("object has no attribute 'get'"))
  end.

(** [xs[:n]] on a list of values. *)
Definition slice_to (xs : list pyval) (n : pyval) : outcome (list pyval) :=
  let upto (k : Z) :=
    if 0 <=? k then take (Z.to_nat k) xs
    else take (length xs - Z.to_nat (- k)) xs in
  match n with
  | PNone => Ret xs
  | PInt k => Ret (upto k)
  | PBool b => Ret (upto (if b then 1 else 0))
  | _ => Raise (error_of "TypeError"
                  "slice indices must be integers or None")
  end.

(** The items of [v[:n]] that a [for] loop visits. *)
Definition sliced_items (v n : pyval) : outcome (list pyval) :=
  match v with
  | PList xs => slice_to xs n
  | PStr s => slice_to ((λ c, PStr (String c EmptyString)) <$> ls s) n
  | _ => Raise (error_of "TypeError" "object is not subscriptable")
  end.

(** The part of [s] before the first occurrence of [sep], or [None]. *)
Fixpoint before_first (sep s : list ascii) : option (list ascii) :=
  if bool_decide (sep `prefix_of` s) then Some []
  else match s with
       | [] => None
       | c :: s' => (c ::.) <$> before_first sep s'
       end.

(** [t.split(" - ")[0] if " - " in t else t] *)
Definition title_of (t : pyval) : outcome pyval :=
  match t with
  | PStr s => Ret (PStr (from_option sl s (before_first (ls " - ") (ls s))))
  | PList xs =>
      if existsb (λ x, match x with
                       | PStr e => bool_decide (e = " - ")
                       | _ => false
                       end) xs
      then Raise (error_of "AttributeError"
                    "'list' object has no attribute 'split'")
      else Ret t
  | PDict d =>
      if bool_decide (is_Some (d !! " - "))
      then Raise (error_of "AttributeError"
                    "'dict' object has no attribute 'split'")
      else Ret t
  | _ => Raise (error_of "TypeError" "argument is not iterable")
  end.

(** The result entry of one related topic, when it is a dict with a
    [Text] key. *)
Definition related_entry (item : pyval) : outcome (list pyval) :=
  match item with
  | PDict d =>
      match d !! "Text" with
      | Some t =>
          title ← title_of t;
          Ret [PDict (<["type" := PStr "related"]>
                        (<["snippet" := t]>
                           (<["url" := default (PStr EmptyString) (d !! "FirstURL")]>
                              {["title" := title]})))]
      | None => Ret []
      end
  | _ => Ret []
  end.

Definition web_search_body (w : world) (query max_results : pyval)
  : outcome pydict :=
  q ← quote w query;
  let url := "https://api.duckduckgo.com/?q=" +:+ q
             +:+ "&format=json&no_html=1&skip_disambig=1" in
  resp ← requests_get w (PStr url);
  _ ← raise_for_status w resp;
  data ← response_json w resp;
  abstract ← dict_get data "Abstract" PNone;
  first ← (if truthy abstract
           then title ← dict_get data "AbstractText" (PStr EmptyString);
                u ← dict_get data "AbstractURL" (PStr EmptyString);
                snippet ← dict_get data "Abstract" (PStr EmptyString);
                Ret [PDict (<["type" := PStr "abstract"]>
                              (<["snippet" := snippet]>
                                 (<["url" := u]> {["title" := title]})))]
           else Ret []);
  topics ← dict_get data "RelatedTopics" (PList []);
  items ← sliced_items topics max_results;
  related ← mapM related_entry items;
  let results := (first ++ concat related)%list in
  shown ← slice_to results max_results;
  Ret (<["total_results" := PInt (Z.of_nat (length results))]>
         (<["query" := query]>
            (<["results" := PList shown]> {["success" := PBool true]}))).

Definition web_search (w : world) (params : pydict) : outcome pydict :=
  query ← getitem params "query";
  let max_results := get_default params "max_results" (PInt 10) in
  let region := get_default params "region" (PStr "es-es") in
  try_except (web_search_body w query max_results).

(** *** text_analyze *)

Definition chr (n : N) : string := String (ascii_of_N n) EmptyString.

Definition positive_words : list string :=
  [ "bueno"; "excelente"; "genial"; ("fant" +:+ chr 225 +:+ "stico"); ("incre"
    +:+ chr 237 +:+ "ble"); "perfecto"; "maravilloso" ].

Definition negative_words : list string :=
  [ "malo"; "terrible"; "horrible"; ("p" +:+ chr 233 +:+ "simo"); "awful";
    "disgusting" ].

Definition spanish_words : list string :=
  [ "el"; "la"; "de"; "que"; "y"; "en"; "un"; "es"; "se"; "no"; "te"; "lo";
    "le"; "da"; "su"; "por"; "son"; "con"; "para"; "al"; "una"; "del"; "todo";
    ("est" +:+ chr 225); "muy"; "fue"; "han"; "era"; "sobre"; "ser"; "tiene";
    "pero"; "ya"; "las"; (chr 233 +:+ "l"); "hasta"; "puede"; "va"; "mi";
    "porque"; ("qu" +:+ chr 233); ("s" +:+ chr 243 +:+ "lo"); "sin"; "vez";
    "tanto"; "donde"; "mucho"; "hay"; ("tambi" +:+ chr 233 +:+ "n"); "fue";
    "tiempo"; "cada"; "uno"; "hace"; ("m" +:+ chr 225 +:+ "s"); "como";
    "ahora"; "entre"; "cuando"; "quiere"; "desde"; ("aqu" +:+ chr 237); "nos";
    "durante"; "todos"; "uno"; "les"; "ni"; "contra"; "otros"; "ese"; "eso";
    "ante"; "ellos"; "e"; "esto"; ("m" +:+ chr 237); "antes"; "algunos"; ("qu"
    +:+ chr 233); "unos"; "yo"; "otro"; "otras"; "otra"; (chr 233 +:+ "l");
    "tanto"; "esa"; "estos"; "mucho"; "quienes"; "nada"; "muchos"; "cual";
    "poco"; "ella"; "estar"; "estas"; "algunas"; "algo"; "nosotros"; "mi";
    "mis"; ("t" +:+ chr 250); "te"; "ti"; "tu"; "tus"; "ellas"; "nosotras";
    "vosotros"; "vosotras"; "os"; ("m" +:+ chr 237 +:+ "o"); ("m" +:+ chr 237
    +:+ "a"); ("m" +:+ chr 237 +:+ "os"); ("m" +:+ chr 237 +:+ "as"); "tuyo";
    "tuya"; "tuyos"; "tuyas"; "suyo"; "suya"; "suyos"; "suyas"; "nuestro";
    "nuestra"; "nuestros"; "nuestras"; "vuestro"; "vuestra"; "vuestros";
    "vuestras"; "esos"; "esas" ].

Definition english_words : list string :=
  [ "the"; "be"; "to"; "of"; "and"; "a"; "in"; "that"; "have"; "i"; "it";
    "for"; "not"; "on"; "with"; "he"; "as"; "you"; "do"; "at"; "this"; "but";
    "his"; "by"; "from"; "they"; "she"; "or"; "an"; "will"; "my"; "one";
    "all"; "would"; "there"; "their"; "what"; "so"; "up"; "out"; "if";
    "about"; "who"; "get"; "which"; "go"; "me"; "when"; "make"; "can"; "like";
    "time"; "no"; "just"; "him"; "know"; "take"; "people"; "into"; "year";
    "your"; "good"; "some"; "could"; "them"; "see"; "other"; "than"; "then";
    "now"; "look"; "only"; "come"; "its"; "over"; "think"; "also"; "back";
    "after"; "use"; "two"; "how"; "our"; "work"; "first"; "well"; "way";
    "even"; "new"; "want"; "because"; "any"; "these"; "give"; "day"; "most";
    "us" ].

(** [len(v)] *)
Definition py_len (v : pyval) : outcome Z :=
  match v with
  | PStr s => Ret (Z.of_nat (String.length s))
  | PList xs => Ret (Z.of_nat (length xs))
  | PDict d => Ret (Z.of_nat (size d))
  | _ => Raise (error_of "TypeError" "object has no len()")
  end.

(** [split_at p cur s]: the pieces of [s] between the characters that
    satisfy [p]; [cur] is the current piece, reversed. *)
Fixpoint split_at (p : ascii → bool) (cur s : list ascii)
  : list (list ascii) :=
  match s with
  | [] => [reverse cur]
  | c :: s' =>
      if p c then reverse cur :: split_at p [] s'
      else split_at p (c :: cur) s'
  end.

(** [s.split()]: the maximal runs of characters that are not spaces. *)
Definition split_ws (s : string) : list string :=
  sl <$> filter (λ piece, piece ≠ []) (split_at is_space [] (ls s)).

(** The receiver of [text.split()]: only a [str] has the method. *)
Definition as_str (v : pyval) : outcome string :=
  match v with
  | PStr s => Ret s
  | _ => Raise (error_of "AttributeError"
                  "object has no attribute 'split'")
  end.

Definition is_sentence_end (c : ascii) : bool :=
  bool_decide (c ∈ ["."%char; "!"%char; "?"%char]).

(** [[s.strip() for s in re.split(r"[.!?]+", text) if s.strip()]] *)
Definition sentences_of (text : string) : list string :=
  sl <$> filter (λ piece, piece ≠ [])
           (strip <$> split_at is_sentence_end [] (ls text)).

(** [needle in haystack] on strings. *)
Definition contains (haystack needle : string) : bool :=
  bool_decide (is_Some (before_first (ls needle) (ls haystack))).

Definition count_if {A} (p : A → bool) (xs : list A) : Z :=
  Z.of_nat (length (filter (λ x, p x = true) xs)).

Definition compare_counts (a b : Z) (more_a more_b same : string) : string :=
  if b <? a then more_a else if a <? b then more_b else same.

Definition is_str (v : pyval) (s : string) : bool :=
  match v with
  | PStr x => bool_decide (x = s)
  | _ => false
  end.

(** The [(word, count)] pairs of [most_common] are carried as two-element
    lists. *)
Definition text_analyze_body (w : world) (text analysis_type : pyval)
  : outcome pydict :=
  text_length ← py_len text;
  t ← as_str text;
  let result : pydict :=
    <["word_count" := PInt (Z.of_nat (length (split_ws t)))]>
      (<["text_length" := PInt text_length]>
         (<["analysis_type" := analysis_type]>
            {["success" := PBool true]})) in
  if is_str analysis_type "summary" then
    let sentences := sentences_of t in
    let total := Z.of_nat (length (sentences ≫= split_ws)) in
    Ret (<["first_sentences" := PList (PStr <$> take 3 sentences)]>
           (<["avg_sentence_length" :=
                match sentences with
                | [] => PInt 0
                | _ => PFloat (total # Pos.of_nat (length sentences))
                end]>
              (<["sentence_count" :=
                   PInt (Z.of_nat (length sentences))]> result)))
  else if is_str analysis_type "keywords" then
    let words := filter (λ x, (3 < String.length x)%nat)
                   (findall_words w (str_lower w t)) in
    Ret (<["top_keywords" :=
             PList ((λ p : string * Z, PList [PStr p.1; PInt p.2])
                      <$> most_common w words 10)]> result)
  else if is_str analysis_type "sentiment" then
    let text_lower := str_lower w t in
    let positive_count := count_if (contains text_lower) positive_words in
    let negative_count := count_if (contains text_lower) negative_words in
    Ret (<["negative_indicators" := PInt negative_count]>
           (<["positive_indicators" := PInt positive_count]>
              (<["sentiment" :=
                   PStr (compare_counts positive_count negative_count
                           "positive" "negative" "neutral")]> result)))
  else if is_str analysis_type "language" then
    let words := findall_words w (str_lower w t) in
    let spanish_count :=
      count_if (λ x, bool_decide (x ∈ spanish_words)) words in
    let english_count :=
      count_if (λ x, bool_decide (x ∈ english_words)) words in
    Ret (<["english_indicators" := PInt english_count]>
           (<["spanish_indicators" := PInt spanish_count]>
              (<["detected_language" :=
                   PStr (compare_counts spanish_count english_count
                           "spanish" "english" "unknown")]> result)))
  else Ret result.

Definition text_analyze (w : world) (params : pydict) : outcome pydict :=
  text ← getitem params "text";
  let analysis_type := get_default params "analysis_type" (PStr "summary") in
  try_except (text_analyze_body w text analysis_type).

(** *** The catalogue *)

(** The [implementation_code] of each seeded tool. *)
Definition execute (tool_name : string)
  : option (world → pydict → outcome pydict) :=
  if bool_decide (tool_name = "shell_exec") then Some shell_exec
  else if bool_decide (tool_name = "file_read") then Some file_read
  else if bool_decide (tool_name = "file_write") then Some file_write
  else if bool_decide (tool_name = "file_list") then Some file_list
  else if bool_decide (tool_name = "web_search") then Some web_search
  else if bool_decide (tool_name = "browser_navigate")
       then Some browser_navigate
  else if bool_decide (tool_name = "text_analyze") then Some text_analyze
  else if bool_decide (tool_name = "json_parse") then Some json_parse
  else None.

(** The [required] list of each tool's [function_schema]. *)
Definition required (tool_name : string) : list string :=
  if bool_decide (tool_name = "shell_exec") then ["command"]
  else if bool_decide (tool_name = "file_read") then ["path"]
  else if bool_decide (tool_name = "file_write") then ["path"; "content"]
  else if bool_decide (tool_name = "file_list") then ["path"]
  else if bool_decide (tool_name = "web_search") then ["query"]
  else if bool_decide (tool_name = "browser_navigate") then ["url"]
  else if bool_decide (tool_name = "text_analyze") then ["text"]
  else if bool_decide (tool_name = "json_parse") then ["json_string"]
  else [].

(** *** Properties of a result and sample worlds *)

(** A result carries a boolean [success], and an [error] string when
    [success] is false. *)
Definition well_formed_result (r : pydict) : Prop :=
  ∃ b : bool, r !! "success" = Some (PBool b) ∧
    if b then True else ∃ msg, r !! "error" = Some (PStr msg).

(** The bounds on what [browser_navigate] extracts. *)
Definition text_within (n : nat) (r : pydict) : Prop :=
  match r !! "text" with
  | Some (PStr text) => (String.length text ≤ n)%nat
  | Some _ => False
  | None => True
  end.

Definition links_within (n : nat) (r : pydict) : Prop :=
  match r !! "links" with
  | Some (PList links) => (length links ≤ n)%nat
  | Some _ => False
  | None => True
  end.

(** A world in which a command behaves as [run] says and every page is
    [page]; all other calls succeed with empty answers. *)
Definition sample_world
  (run : pyval → pyval → pyval → outcome completed_process) (page : soup)
  : world :=
  {| subprocess_run := run;
     path_exists := λ _, Ret true;
     read_lines := λ _ _, Ret [];
     getsize := λ _, Ret 0;
     makedirs_dirname := λ _, Ret ();
     write_file := λ _ _ _ _, Ret ();
     encoded_length := λ _ _, Ret 0;
     walk := λ _, Ret [];
     listdir := λ _, Ret [];
     path_join := λ _ item, Ret item;
     os_stat := λ _, Ret {| st_size := 0; st_mtime := 0%Q |};
     isfile := λ _, true;
     isdir := λ _, false;
     quote := λ _, Ret EmptyString;
     requests_get := λ _, Ret {| status_code := 200; content := EmptyString |};
     raise_for_status := λ _, Ret ();
     response_json := λ _, Ret (PDict ∅);
     BeautifulSoup := λ _, Ret page;
     urljoin := λ _ href, Ret href;
     json_loads := λ _, Raise {| exn_cls := JSONDecodeError;
                                 exn_str := "Expecting value" |};
     json_dumps := λ _, Ret EmptyString;
     str_lower := λ s, s;
     findall_words := λ _, [];
     most_common := λ _ _, [];
     format := λ _, EmptyString |}.

(** A command that never finishes in time, and one that prints a line. *)
Definition run_times_out (_ _ _ : pyval) : outcome completed_process :=
  Raise {| exn_cls := TimeoutExpired; exn_str := "timed out" |}.

Definition run_prints (_ _ _ : pyval) : outcome completed_process :=
  Ret {| stdout := "hello"; stderr := EmptyString; returncode := 0 |}.

Definition repeat_str (n : nat) (s : string) : string :=
  concat_str (replicate n s).

(** A page of 6000 words and 60 links. *)
Definition big_page : soup :=
  {| soup_title := Some (Some "big");
     soup_text := repeat_str 6000 "a ";
     soup_anchors := λ _, replicate 60 ("link", "/x") |}.

End Tools.

(** ** The engine: plan compiler, scheduler and state tracker

    The repository's sources hold the schema, the tool catalogue and the
    task page, but not the engine that compiles and runs a plan.  This
    module follows the specification of that engine. *)

Module Engine.
Local Open Scope list_scope.

Inductive step_status :=
  | pending | ready | running | completed | failed | skipped | cancelled.

Inductive task_status :=
  | task_pending | task_running | task_completed | task_failed
  | task_cancelled.

#[export] Instance step_status_eq_dec : EqDecision step_status.
Proof. solve_decision. Defined.

#[export] Instance task_status_eq_dec : EqDecision task_status.
Proof. solve_decision. Defined.

(** A submitted step: [dependency_refs] are positions in the plan. *)
Record step_descriptor := {
  tool_name : string;
  input_parameters : Py.pydict;
  dependency_refs : list nat;
}.

(** A step of a task.  Its id is its position in the task's steps. *)
Record Step := {
  tool : string;
  parameters : Py.pydict;
  dependency_ids : list nat;
  status : step_status;
  retry_count : nat;
  error : option string;
}.

(** *** Plan compiler *)

(** Modelled from the spec: the plan compiler's acyclicity check, which
    is not among the sources.  Kahn's algorithm: every step starts with
    its number of dependencies as in-degree; the steps of in-degree zero
    are queued; a step taken from the queue is visited and each
    dependency edge that leaves it lowers the in-degree of the step at
    its other end, which is queued when it reaches zero. *)
Record kahn_state := {
  indeg : list nat;
  queue : list nat;
  visited : list nat;
}.

(** One edge into [v] is removed. *)
Definition relax (v : nat) (st : list nat * list nat) : list nat * list nat :=
  match st.1 !! v with
  | Some (S k) =>
      (<[v := k]> st.1, if decide (k = 0%nat) then st.2 ++ [v] else st.2)
  | _ => st
  end.

(** The edges from [u] into the steps [ds], which sit at positions [v],
    [v + 1], ... of the plan, are removed. *)
Fixpoint release (u : nat) (v : nat) (ds : list step_descriptor)
  (st : list nat * list nat) : list nat * list nat :=
  match ds with
  | [] => st
  | d :: ds' =>
      release u (S v) ds'
        (foldl (λ st dep, if decide (dep = u) then relax v st else st)
               st (dependency_refs d))
  end.

(** The positions, counted from [v], that hold in-degree zero. *)
Fixpoint zeros (v : nat) (degrees : list nat) : list nat :=
  match degrees with
  | [] => []
  | 0%nat :: ds => v :: zeros (S v) ds
  | _ :: ds => zeros (S v) ds
  end.

Definition kahn_init (plan : list step_descriptor) : kahn_state :=
  let degrees := (λ d, length (dependency_refs d)) <$> plan in
  {| indeg := degrees; queue := zeros 0 degrees; visited := [] |}.

(** The head of the queue is visited; [None] when the queue is empty. *)
Definition kahn_step (plan : list step_descriptor) (st : kahn_state)
  : option kahn_state :=
  match queue st with
  | [] => None
  | u :: rest =>
      let st' := release u 0 plan (indeg st, rest) in
      Some {| indeg := st'.1; queue := st'.2; visited := visited st ++ [u] |}
  end.

Fixpoint kahn_loop (fuel : nat) (plan : list step_descriptor)
  (st : kahn_state) : kahn_state :=
  match fuel with
  | O => st
  | S fuel' =>
      match kahn_step plan st with
      | Some st' => kahn_loop fuel' plan st'
      | None => st
      end
  end.

(** The steps in the order Kahn's algorithm visits them.  Each round
    visits one step, so as many rounds as there are steps exhaust the
    queue. *)
Definition kahn (plan : list step_descriptor) : list nat :=
  visited (kahn_loop (length plan) plan (kahn_init plan)).

(** A step left unvisited signals a cycle. *)
Definition is_dag (plan : list step_descriptor) : bool :=
  bool_decide (length (kahn plan) = length plan).

Inductive plan_error := PlanInvalidError | UnknownToolError.

(** Modelled from the spec: the plan compiler, which is not among the
    sources.  It validates that the dependency relation is a DAG and that
    every tool is in the registry, and gives each step the status [ready]
    (no dependencies) or [pending].  The specification names the two
    validations without ordering them; the structural one runs first. *)
Definition compile (plan : list step_descriptor)
  : plan_error + list Step :=
  if negb (is_dag plan) then inl PlanInvalidError
  else if bool_decide
            (Forall (λ d, is_Some (Schema.describe (tool_name d))) plan)
  then inr ((λ d, {| tool := tool_name d;
                     parameters := input_parameters d;
                     dependency_ids := dependency_refs d;
                     status := match dependency_refs d with
                               | [] => ready
                               | _ => pending
                               end;
                     retry_count := 0;
                     error := None |}) <$> plan)
  else inl UnknownToolError.

(** [v] depends on [d]: [d] is among the dependency refs of step [v]. *)
Definition depends_on (plan : list step_descriptor) (v d : nat) : Prop :=
  ∃ desc, plan !! v = Some desc ∧ d ∈ dependency_refs desc.

(** The dependency relation contains a cycle. *)
Definition has_cycle (plan : list step_descriptor) : Prop :=
  ∃ v, tc (depends_on plan) v v.

(** *** Tasks and the store *)

Record Task := {
  title : string;
  priority : Z;
  task_state : task_status;
  progress_percent : Q;
  error_message : option string;
  steps : list Step;
  approvals : gset nat;
}.

Definition is_active (s : step_status) : bool :=
  bool_decide (s ∈ [pending; ready; running]).

Definition completed_steps (steps : list Step) : nat :=
  length (filter (λ s, status s = completed) steps).

Definition total_steps (steps : list Step) : nat := length steps.

(** [progress_percent = completed_steps / total_steps * 100] *)
Definition progress_of (steps : list Step) : Q :=
  (inject_Z (Z.of_nat (completed_steps steps))
   / inject_Z (Z.of_nat (total_steps steps)) * 100)%Q.

(** The task status as a function of the step statuses; [cancelled] is
    kept once the task was explicitly cancelled.  A task is terminal when
    no step is pending, ready or running: failed if some step failed,
    else completed. *)
Definition status_of_steps (old : task_status) (steps : list Step)
  : task_status :=
  if decide (old = task_cancelled) then task_cancelled
  else if bool_decide (Exists (λ s, is_active (status s) = true) steps)
  then if bool_decide (Forall (λ s, status s ∈ [pending; ready]) steps)
       then task_pending else task_running
  else if bool_decide (Exists (λ s, status s = failed) steps)
  then task_failed
  else task_completed.

(** Modelled from the spec: the state tracker's commit, which is not
    among the sources.  After a step transition it stores the steps and
    recomputes the progress and the task status; the first fatal error
    stays the task's error message. *)
Definition commit (t : Task) (steps' : list Step) : Task :=
  {| title := title t;
     priority := priority t;
     task_state := status_of_steps (task_state t) steps';
     progress_percent := progress_of steps';
     error_message :=
       match error_message t with
       | Some e => Some e
       | None => list_find (λ s, status s = failed) steps'
                 ≫= λ p, error p.2
       end;
     steps := steps';
     approvals := approvals t |}.

Definition new_task (title : string) (priority : Z) (steps : list Step)
  : Task :=
  commit {| title := title; priority := priority;
            task_state := task_pending; progress_percent := 0;
            error_message := None; steps := []; approvals := ∅ |}
         steps.

Inductive submit_result := TaskAccepted | Rejected (e : plan_error).

(** [submit(task_id, title, priority, steps)]: on a validation error the
    store is returned as it was. *)
Definition submit (store : gmap nat Task) (task_id : nat) (title : string)
  (priority : Z) (plan : list step_descriptor)
  : submit_result * gmap nat Task :=
  match compile plan with
  | inr steps => (TaskAccepted, <[task_id := new_task title priority steps]> store)
  | inl e => (Rejected e, store)
  end.

(** *** Scheduler *)

Definition set_status (st : step_status) (s : Step) : Step :=
  {| tool := tool s; parameters := parameters s;
     dependency_ids := dependency_ids s; status := st;
     retry_count := retry_count s; error := error s |}.

Definition set_error (e : option string) (s : Step) : Step :=
  {| tool := tool s; parameters := parameters s;
     dependency_ids := dependency_ids s; status := status s;
     retry_count := retry_count s; error := e |}.

Definition bump_retry (s : Step) : Step :=
  {| tool := tool s; parameters := parameters s;
     dependency_ids := dependency_ids s; status := status s;
     retry_count := S (retry_count s); error := error s |}.

Definition has_status (steps : list Step) (st : step_status) (id : nat)
  : Prop :=
  ∃ s, steps !! id = Some s ∧ status s = st.

#[export] Instance has_status_dec steps st id : Decision (has_status steps st id).
Proof.
  unfold has_status. destruct (steps !! id) as [s |] eqn:Hs.
  - destruct (decide (status s = st)) as [He | Hne].
    + left. by exists s.
    + right. intros (s' & [= <-] & He). done.
  - right. intros (s' & [=] & _).
Defined.

(** Every id in [dependency_ids] has status [completed]. *)
Definition deps_completed (steps : list Step) (s : Step) : Prop :=
  Forall (has_status steps completed) (dependency_ids s).

(** The confirmation gate applies to a tool whose security level is
    dangerous or that requires confirmation. *)
Definition gated (tool_name : string) : bool :=
  match Schema.describe tool_name with
  | Some row => bool_decide (Schema.level row = Schema.dangerous)
                || Schema.requires_confirmation row
  | None => false
  end.

(** A pending or ready step is skipped when one of its dependencies is
    failed or skipped. *)
Definition skip_pass (steps : list Step) : list Step :=
  (λ s, if bool_decide (status s ∈ [pending; ready])
           && bool_decide
                (Exists (λ d, has_status steps failed d
                              ∨ has_status steps skipped d)
                        (dependency_ids s))
        then set_status skipped s else s) <$> steps.

(** The cascade: every step that depends, directly or not, on a failed
    step is skipped. *)
Definition cascade (steps : list Step) : list Step :=
  Nat.iter (length steps) skip_pass steps.

Inductive event :=
  | Dispatch (id : nat)
  | Succeed (id : nat)
  | FailTransient (id : nat) (err : string)
  | FailPermanent (id : nat) (err : string)
  | CancelTask
  | ApproveStep (id : nat)
  | RetryTask.

Section Scheduler.

(** The tool's configured number of retries. *)
Variable max_retries : string → nat.

(** A ready step may be dispatched when its dependencies are completed,
    the task is neither cancelled nor failed, and, for a gated tool, the
    approval of the step is recorded. *)
Definition may_dispatch (t : Task) (id : nat) (s : Step) : Prop :=
  (status s ∈ [pending; ready])
  ∧ deps_completed (steps t) s
  ∧ (task_state t ∉ [task_cancelled; task_failed])
  ∧ (gated (tool s) = true → id ∈ approvals t).

(** Modelled from the spec: the scheduler's transitions, which are not
    among the sources.  [Dispatch] is the transition to [running] of a
    step for which a governor token was acquired; [Succeed] and the two
    failures are the executor's completion events; [CancelTask],
    [ApproveStep] and [RetryTask] are the control surface.  As the task
    page's [retryTask] does, a retry also clears the task's error
    message.  An event that is not enabled leaves the task as it is. *)
Definition apply_event (ev : event) (t : Task) : Task :=
  match ev with
  | Dispatch id =>
      match steps t !! id with
      | Some s =>
          if decide (may_dispatch t id s)
          then commit t (<[id := set_status running s]> (steps t))
          else t
      | None => t
      end
  | Succeed id =>
      match steps t !! id with
      | Some s =>
          if decide (status s = running)
          then commit t (<[id := set_status completed s]> (steps t))
          else t
      | None => t
      end
  | FailTransient id err =>
      match steps t !! id with
      | Some s =>
          if decide (status s = running) then
            if decide (retry_count s < max_retries (tool s))%nat
            then commit t (<[id := set_status ready (bump_retry s)]> (steps t))
            else commit t (cascade (<[id := set_status failed
                                              (set_error (Some err) s)]>
                                      (steps t)))
          else t
      | None => t
      end
  | FailPermanent id err =>
      match steps t !! id with
      | Some s =>
          if decide (status s = running)
          then commit t (cascade (<[id := set_status failed
                                            (set_error (Some err) s)]>
                                    (steps t)))
          else t
      | None => t
      end
  | CancelTask =>
      if decide (task_state t ∈ [task_pending; task_running]) then
        let t' := {| title := title t; priority := priority t;
                     task_state := task_cancelled;
                     progress_percent := progress_percent t;
                     error_message := error_message t;
                     steps := steps t; approvals := approvals t |} in
        commit t' ((λ s, if is_active (status s)
                         then set_status cancelled s else s) <$> steps t)
      else t
  | ApproveStep id =>
      {| title := title t; priority := priority t;
         task_state := task_state t;
         progress_percent := progress_percent t;
         error_message := error_message t;
         steps := steps t; approvals := {[id]} ∪ approvals t |}
  | RetryTask =>
      if decide (task_state t = task_failed) then
        let t' := {| title := title t; priority := priority t;
                     task_state := task_state t;
                     progress_percent := progress_percent t;
                     error_message := None;
                     steps := steps t; approvals := approvals t |} in
        commit t' ((λ s, if bool_decide (status s ∈ [failed; skipped])
                         then set_status ready (set_error None s) else s)
                     <$> steps t)
      else t
  end.

Definition run (trace : list event) (t : Task) : Task :=
  foldl (λ t ev, apply_event ev t) t trace.

End Scheduler.

(** A plan of three steps, the third waiting for the first two, and the
    plan in which two steps wait for each other. *)
Definition step_of (tool : string) (deps : list nat) : step_descriptor :=
  {| tool_name := tool; input_parameters := ∅; dependency_refs := deps |}.

Definition diamond_plan : list step_descriptor :=
  [step_of "web_search" []; step_of "shell_exec" [];
   step_of "file_write" [0%nat; 1%nat]].

Definition cyclic_plan : list step_descriptor :=
  [step_of "file_read" [1%nat]; step_of "file_write" [0%nat]].

(** The steps of an accepted plan. *)
Definition compiled (plan : list step_descriptor) : list Step :=
  match compile plan with
  | inr steps => steps
  | inl _ => []
  end.

(** The specification's reading of the confirmation gate, for the step
    [id] of a task that an event takes from [t] to [t']: a [shell_exec]
    step is of a dangerous tool and starts running only with its
    approval recorded. *)
Definition confirmation_gate_spec (t t' : Task) (id : nat) : Prop :=
  ∀ s', steps t' !! id = Some s' → tool s' = "shell_exec" →
    Schema.level <$> Schema.describe (tool s') = Some Schema.dangerous
    ∧ (status s' = running → ¬ has_status (steps t) running id →
       id ∈ approvals t).

(** *** Invariants used in the proofs *)

Local Open Scope nat_scope.

(** Number of edges from [u] into a step. *)
Definition occ (u : nat) (d : step_descriptor) : nat :=
  length (filter (λ dep, dep = u) (dependency_refs d)).

(** Number of edges into a step from steps not yet visited. *)
Definition unvisited (vis : list nat) (d : step_descriptor) : nat :=
  length (filter (λ dep, dep ∉ vis) (dependency_refs d)).

(** [d] is a dependency of [v]. *)
Definition dependency_of (plan : list step_descriptor) (d v : nat) : Prop :=
  depends_on plan v d.

(** The invariant of the loop: the queued and visited steps are the
    steps of in-degree zero and are distinct; an in-degree counts the
    edges from unvisited steps; the dependencies of a visited step are
    well-founded. *)
Record kahn_inv (plan : list step_descriptor) (st : kahn_state) : Prop := {
  inv_len : length (indeg st) = length plan;
  inv_zero : ∀ x, x ∈ queue st ++ visited st → indeg st !! x = Some 0;
  inv_ready : ∀ x, indeg st !! x = Some 0 → x ∈ queue st ++ visited st;
  inv_nodup : NoDup (queue st ++ visited st);
  inv_deg : ∀ v d k, plan !! v = Some d → indeg st !! v = Some k →
                     unvisited (visited st) d = k;
  inv_acc : ∀ x, x ∈ visited st → Acc (dependency_of plan) x;
}.

(** Every dependency ref is a position of the plan. *)
Definition refs_in_range (plan : list step_descriptor) : Prop :=
  ∀ v d dep, plan !! v = Some d → dep ∈ dependency_refs d →
             dep < length plan.

(** A chain of dependencies: each element depends on the next one. *)
Definition dep_chain (plan : list step_descriptor) (l : list nat) : Prop :=
  ∀ i a b, l !! i = Some a → l !! S i = Some b → depends_on plan a b.

(** What every transition keeps of a step: its dependencies, its tool,
    and the status [completed] once reached. *)
Definition keeps (s s' : Step) : Prop :=
  dependency_ids s' = dependency_ids s ∧ tool s' = tool s
  ∧ (status s = completed → status s' = completed).

Definition evolves (steps steps' : list Step) : Prop :=
  length steps' = length steps
  ∧ ∀ j s', steps' !! j = Some s' → ∃ s, steps !! j = Some s ∧ keeps s s'.

(** No transition but a dispatch makes a step running. *)
Definition no_new_running (steps steps' : list Step) : Prop :=
  ∀ j s', steps' !! j = Some s' → status s' = running →
          has_status steps running j.

(** Every running step has completed dependencies and, when its tool is
    gated, a recorded approval. *)
Definition running_ok (t : Task) : Prop :=
  ∀ id s, steps t !! id = Some s → status s = running →
          deps_completed (steps t) s
          ∧ (gated (tool s) = true → id ∈ approvals t).

(** Sample data: a registry that grants two retries, the running form of
    two steps of [diamond_plan], and the task compiled from it. *)
Definition two_retries (_ : string) : nat := 2.

Definition file_write_running : Step :=
  {| tool := "file_write"; parameters := ∅;
     dependency_ids := [0; 1]%nat; status := running;
     retry_count := 0; error := None |}.

Definition shell_exec_running : Step :=
  {| tool := "shell_exec"; parameters := ∅;
     dependency_ids := []; status := running;
     retry_count := 0; error := None |}.

Definition sample_task : Task :=
  new_task "report" 1%Z (compiled diamond_plan).

(** The first two steps run to completion, the second after its
    approval. *)
Definition sample_trace : list event :=
  [Dispatch 0; Succeed 0; ApproveStep 1; Dispatch 1; Succeed 1].

End Engine.

(** ** JavaScript: conditions, thrown errors and property reads *)

Module JSEval.
Import JS.
Local Open Scope list_scope.

(** The truth value of a value in a condition. *)
Definition truthy (v : jsval) : bool :=
  match v with
  | JUndefined | JNull => false
  | JBool b => b
  | JNum n => negb (n =? 0)
  | JStr s => negb (bool_decide (s = EmptyString))
  | JArr _ | JObj _ => true
  end.

(** The outcome of running code: a value, or a thrown [Error] with its
    message. *)
Inductive completion (A : Type) :=
  | Normal (a : A)
  | Throw (message : string).
Arguments Normal {A} a.
Arguments Throw {A} message.

#[export] Instance completion_bind : MBind completion :=
  λ A B k m, match m with Normal a => k a | Throw e => Throw e end.
#[export] Instance completion_ret : MRet completion := λ A a, Normal a.

(** [v.k] for a name [k] that no built-in object provides: reading a
    property of [undefined] or [null] throws, a primitive value and an
    array have no such property. *)
Definition member (v : jsval) (k : string) : completion jsval :=
  match v with
  | JUndefined =>
      Throw ("Cannot read properties of undefined (reading '" +:+ k +:+ "')")
  | JNull =>
      Throw ("Cannot read properties of null (reading '" +:+ k +:+ "')")
  | JObj o => Normal (get o k)
  | _ => Normal JUndefined
  end.

(** [String(v)]; [show] gives the text of an array or an object. *)
Definition to_string (show : jsval → string) (v : jsval) : string :=
  match v with
  | JUndefined => "undefined"
  | JNull => "null"
  | JBool true => "true"
  | JBool false => "false"
  | JNum n => pretty n
  | JStr s => s
  | _ => show v
  end.

(** The own properties that [{...v}] copies: those of an object, the
    indexed elements of an array and the indexed characters of a string;
    any other value has none. *)
Definition indexed (xs : list jsval) : jsobj :=
  list_to_map (imap (λ i x, (pretty i, x)) xs).

Definition own_properties (v : jsval) : jsobj :=
  match v with
  | JObj o => o
  | JArr xs => indexed xs
  | JStr s =>
      indexed ((λ c, JStr (String c EmptyString)) <$> list_ascii_of_string s)
  | _ => ∅
  end.

(** [s.split(sep)] for a separator of one character. *)
Definition split (sep : ascii) (s : string) : list string :=
  Tools.sl <$> Tools.split_at (λ c, bool_decide (c = sep)) [] (Tools.ls s).

(** [s.includes(q)] *)
Definition includes (s q : string) : bool := Tools.contains s q.

(** [xs.filter(p)] for a callback that may throw. *)
Fixpoint filter_with {A} (p : A → completion bool) (xs : list A)
  : completion (list A) :=
  match xs with
  | [] => Normal []
  | x :: xs' =>
      p x ≫= λ keep : bool,
        rest ← filter_with p xs';
        Normal (if keep then x :: rest else rest)
  end.

End JSEval.

(** ** The socket context: emitted events and the list of online users *)

Module SocketContext.
Import JS JSEval.
Local Open Scope list_scope.

(** The context's socket: [null] until a user and a token exist.  The
    model keeps the events emitted on it, oldest first. *)
Definition socket : Type := option (list (string * jsval)).

(** [if (socket) { socket.emit(event, payload) }] *)
Definition emit (event : string) (payload : jsval) (s : socket) : socket :=
  (λ sent, sent ++ [(event, payload)]) <$> s.

Definition joinConversation (conversationId : jsval) : socket → socket :=
  emit "join_conversation" conversationId.

Definition leaveConversation (conversationId : jsval) : socket → socket :=
  emit "leave_conversation" conversationId.

Definition sendMessage (conversationId message : jsval) : socket → socket :=
  emit "send_message"
    (JObj (<["content" := message]> {["conversation_id" := conversationId]})).

Definition subscribeToTask (taskId : jsval) : socket → socket :=
  emit "subscribe_task" taskId.

Definition unsubscribeFromTask (taskId : jsval) : socket → socket :=
  emit "unsubscribe_task" taskId.

(** The updaters of [onlineUsers] run by the events [users_online],
    [user_joined] and [user_left]. *)
Definition users_online (users : list jsobj) (prev : list jsobj)
  : list jsobj := users.

Definition user_joined (userData : jsobj) (prev : list jsobj) : list jsobj :=
  prev ++ [userData].

Definition user_left (userData : jsobj) (prev : list jsobj) : list jsobj :=
  filter (λ u, strict_eq (get u "id") (get userData "id") = false) prev.

End SocketContext.

(** ** The task page: filters, durations and the detail dialog *)

Module TaskViews.
Import JS JSEval SocketContext.
Local Open Scope list_scope.

(** [task.status === s] *)
Definition has_status (s : string) (task : jsobj) : bool :=
  strict_eq (get task "status") (JStr s).

(** [v.toLowerCase()] on the value of a property: only a string has the
    method.  [toLowerCase] is the method on strings. *)
Definition lower_of (toLowerCase : string → string) (v : jsval)
  : completion string :=
  match v with
  | JStr s => Normal (toLowerCase s)
  | JUndefined =>
      Throw "Cannot read properties of undefined (reading 'toLowerCase')"
  | JNull => Throw "Cannot read properties of null (reading 'toLowerCase')"
  | _ => Throw "toLowerCase is not a function"
  end.

(** [task.field.toLowerCase().includes(searchQuery.toLowerCase())] *)
Definition field_matches (toLowerCase : string → string)
  (searchQuery field : string) (task : jsobj) : completion bool :=
  text ← lower_of toLowerCase (get task field);
  Normal (includes text (toLowerCase searchQuery)).

(** The callback of the search filter: title, description and agent name,
    each looked at only when the ones before did not match. *)
Definition matches_search (toLowerCase : string → string)
  (searchQuery : string) (task : jsobj) : completion bool :=
  field_matches toLowerCase searchQuery "title" task
    ≫= λ in_title : bool,
  if in_title then Normal true
  else
    field_matches toLowerCase searchQuery "description" task
      ≫= λ in_description : bool,
    if in_description then Normal true
    else field_matches toLowerCase searchQuery "agent_name" task.

(** [filterTasks]: the value given to [setFilteredTasks], or the error
    thrown before it is reached. *)
Definition filterTasks (toLowerCase : string → string) (tasks : list jsobj)
  (searchQuery activeTab statusFilter : string) : completion (list jsobj) :=
  let filtered := tasks in
  let filtered :=
    if bool_decide (activeTab = "running")
    then filter (λ task, has_status "running" task = true) filtered
    else if bool_decide (activeTab = "completed")
    then filter (λ task, has_status "completed" task = true) filtered
    else if bool_decide (activeTab = "failed")
    then filter (λ task, has_status "failed" task = true) filtered
    else filtered in
  let filtered :=
    if bool_decide (statusFilter ≠ "all")
    then filter (λ task, has_status statusFilter task = true) filtered
    else filtered in
  if truthy (JStr searchQuery)
  then filter_with (matches_search toLowerCase searchQuery) filtered
  else Normal filtered.

(** [Number.MAX_SAFE_INTEGER]: up to it, in absolute value, the whole
    numbers and the operations below are exact in JavaScript. *)
Definition MAX_SAFE_INTEGER : Z := 9007199254740991.

(** [formatDuration].  The page passes a number of seconds or [null];
    the conversion of a text, an array or an object to a number is not
    modelled, and the function is undefined on them. *)
Definition formatDuration (seconds : jsval) : option string :=
  let render (n : Z) : string :=
    let hours := n / 3600 in
    let minutes := Z.rem n 3600 / 60 in
    let secs := Z.rem n 60 in
    if 0 <? hours
    then pretty hours +:+ "h " +:+ pretty minutes +:+ "m "
         +:+ pretty secs +:+ "s"
    else if 0 <? minutes
    then pretty minutes +:+ "m " +:+ pretty secs +:+ "s"
    else pretty secs +:+ "s" in
  if negb (truthy seconds) then Some "N/A"
  else match seconds with
       | JNum n => Some (render n)
       | JBool _ => Some (render 1)
       | _ => None
       end.

(** A [toLowerCase] for sample runs: the letters A to Z. *)
Definition ascii_lower (s : string) : string :=
  Tools.sl ((λ c, let n := N_of_ascii c in
                  if ((65 <=? n) && (n <=? 90))%N
                  then ascii_of_N (n + 32) else c)
              <$> Tools.ls s).

(** The three properties that the search reads hold text. *)
Definition searchable (task : jsobj) : Prop :=
  ∀ field, field ∈ ["title"; "description"; "agent_name"] →
           ∃ text, get task field = JStr text.

(** Texts made of decimal digits, as the numbers of a duration are
    printed. *)
Definition is_digit (c : ascii) : bool :=
  let n := N_of_ascii c in ((48 <=? n) && (n <=? 57))%N.

Fixpoint all_digits (s : string) : bool :=
  match s with
  | EmptyString => true
  | String c s' => is_digit c && all_digits s'
  end.

(** The detail dialog: the selected task and whether the dialog is
    open. *)
Record detail := {
  selectedTask : option jsobj;
  isDetailDialogOpen : bool;
}.

Definition openTaskDetail (task : jsobj) (st : detail * socket)
  : detail * socket :=
  ({| selectedTask := Some task; isDetailDialogOpen := true |},
   if has_status "running" task
   then subscribeToTask (get task "id") st.2 else st.2).

Definition closeTaskDetail (st : detail * socket) : detail * socket :=
  ({| selectedTask := None; isDetailDialogOpen := false |},
   match selectedTask st.1 with
   | Some task =>
       if has_status "running" task
       then unsubscribeFromTask (get task "id") st.2 else st.2
   | None => st.2
   end).

(** Opening and closing the dialog on each task of a list in turn. *)
Definition visit (tasks : list jsobj) (st : detail * socket)
  : detail * socket :=
  foldl (λ st task, closeTaskDetail (openTaskDetail task st)) st tasks.

(** The events that a visit of [task] emits. *)
Definition visit_events (task : jsobj) : list (string * jsval) :=
  if has_status "running" task
  then [("subscribe_task", get task "id");
        ("unsubscribe_task", get task "id")]
  else [].

End TaskViews.

(** ** The authentication service and the authentication context *)

Module AuthService.
Import JS JSEval.
Local Open Scope list_scope.

(** What [makeRequest] reads of a [Response]: [response.json()] may
    reject. *)
Record http_response := {
  ok : bool;
  status : Z;
  json : completion jsval;
}.

(** The parts of the JavaScript runtime that the service calls and that
    give the same answer each time: [show] is [String] on arrays and
    objects, [stringify] is [JSON.stringify], [parse] is [JSON.parse],
    [number_of] is the conversion of a text, an array or an object to a
    number (no answer for [NaN]), and [API_BASE_URL] is the constant of
    the module. *)
Record runtime := {
  API_BASE_URL : string;
  show : jsval → string;
  stringify : jsval → jsval;
  atob : jsval → completion string;
  parse : string → completion jsval;
  number_of : jsval → option Q;
}.

(** The network and the clock at the time of a call: [fetch url config]
    and [Date.now()] in milliseconds. *)
Record network := {
  fetch : string → jsobj → completion http_response;
  now : Z;
}.

(** [localStorage] *)
Definition storage : Type := gmap string string.

Definition baseURL (rt : runtime) : string := API_BASE_URL rt +:+ "/api/auth".

(** [token && { Authorization: `Bearer ${token}` }] for the result of
    [localStorage.getItem]. *)
Definition authorization (token : option string) : jsval :=
  match token with
  | Some t =>
      if truthy (JStr t)
      then JObj {["Authorization" := JStr ("Bearer " +:+ t)]}
      else JStr t
  | None => JNull
  end.

(** The [config] that [makeRequest] passes to [fetch]. *)
Definition request_config (token : option string) (options : jsobj) : jsobj :=
  let headers :=
    spread (spread {["Content-Type" := JStr "application/json"]}
                   (own_properties (authorization token)))
           (own_properties (get options "headers")) in
  spread {["headers" := JObj headers]} options.

(** [data.error || `HTTP error! status: ${response.status}`], as the
    message of the [Error]. *)
Definition error_message (rt : runtime) (error : jsval) (status : Z)
  : string :=
  if truthy error then to_string (show rt) error
  else "HTTP error! status: " +:+ pretty status.

Definition makeRequest (rt : runtime) (net : network) (st : storage)
  (endpoint : string) (options : jsobj) : completion jsval :=
  let url := baseURL rt +:+ endpoint in
  let token := st !! "auth_token" in
  let config := request_config token options in
  response ← fetch net url config;
  data ← json response;
  if negb (ok response)
  then error ← member data "error";
       Throw (error_message rt error (status response))
  else Normal data.

(** [{ method: 'POST', body: JSON.stringify(value) }] and the like. *)
Definition with_body (rt : runtime) (method : string) (value : jsval)
  : jsobj :=
  <["body" := stringify rt value]> {["method" := JStr method]}.

Definition login (rt : runtime) (net : network) (st : storage)
  (credentials : jsval) : completion jsval :=
  makeRequest rt net st "/login" (with_body rt "POST" credentials).

Definition register (rt : runtime) (net : network) (st : storage)
  (userData : jsval) : completion jsval :=
  makeRequest rt net st "/register" (with_body rt "POST" userData).

(** [logout] swallows the failure of its request. *)
Definition logout (rt : runtime) (net : network) (st : storage)
  : completion jsval :=
  match makeRequest rt net st "/logout" {["method" := JStr "POST"]} with
  | Normal _ => Normal JUndefined
  | Throw _ => Normal JUndefined
  end.

Definition getCurrentUser (rt : runtime) (net : network) (st : storage)
  : completion jsval :=
  response ← makeRequest rt net st "/me" ∅;
  member response "user".

(** [refreshToken]: the answer and the storage after the call. *)
Definition refreshToken (rt : runtime) (net : network) (st : storage)
  : completion jsval * storage :=
  match makeRequest rt net st "/refresh" {["method" := JStr "POST"]} with
  | Normal response =>
      match member response "token" with
      | Normal token =>
          (Normal response,
           if truthy token
           then <["auth_token" := to_string (show rt) token]> st else st)
      | Throw message => (Throw message, st)
      end
  | Throw message => (Throw message, st)
  end.

Definition updateProfile (rt : runtime) (net : network) (st : storage)
  (userData : jsval) : completion jsval :=
  response ← makeRequest rt net st "/profile" (with_body rt "PUT" userData);
  member response "user".

Definition changePassword (rt : runtime) (net : network) (st : storage)
  (passwordData : jsval) : completion jsval :=
  makeRequest rt net st "/change-password" (with_body rt "POST" passwordData).

Definition requestPasswordReset (rt : runtime) (net : network) (st : storage)
  (email : jsval) : completion jsval :=
  makeRequest rt net st "/forgot-password"
    (with_body rt "POST" (JObj {["email" := email]})).

Definition resetPassword (rt : runtime) (net : network) (st : storage)
  (token newPassword : jsval) : completion jsval :=
  makeRequest rt net st "/reset-password"
    (with_body rt "POST"
       (JObj (<["password" := newPassword]> {["token" := token]}))).

(** [ToNumber] *)
Definition to_number (rt : runtime) (v : jsval) : option Q :=
  match v with
  | JUndefined => None
  | JNull => Some 0%Q
  | JBool b => Some (if b then 1%Q else 0%Q)
  | JNum n => Some (inject_Z n)
  | _ => number_of rt v
  end.

(** [v < t] for a number [t]: false when [v] is not a number. *)
Definition less_than (rt : runtime) (v : jsval) (t : Q) : bool :=
  match to_number rt v with
  | Some q => negb (Qle_bool t q)
  | None => false
  end.

(** [isTokenExpired] *)
Definition isTokenExpired (rt : runtime) (net : network) (st : storage)
  : bool :=
  match st !! "auth_token" with
  | None => true
  | Some token =>
      if negb (truthy (JStr token)) then true
      else
        let body : completion bool :=
          decoded ← atob rt (default JUndefined
                               (JStr <$> split "."%char token !! 1%nat));
          payload ← parse rt decoded;
          let currentTime := (now net # 1000)%Q in
          exp ← member payload "exp";
          Normal (less_than rt exp currentTime) in
        match body with
        | Normal expired => expired
        | Throw _ => true
        end
  end.

Definition getToken (st : storage) : option string := st !! "auth_token".

Definition removeToken (st : storage) : storage := delete "auth_token" st.

(** A runtime whose [atob] returns its argument and whose [JSON.parse]
    always gives [payload], and a network with one answer and one time. *)
Definition sample_runtime (payload : jsval) : runtime :=
  {| API_BASE_URL := "http://localhost:5000";
     show := λ _, "[object Object]";
     stringify := λ _, JStr "{}";
     atob := λ v, match v with
                  | JStr s => Normal s
                  | _ => Throw "The string to be decoded is not correctly encoded."
                  end;
     parse := λ _, Normal payload;
     number_of := λ _, None |}.

Definition sample_network (answer : completion http_response) (time : Z)
  : network :=
  {| fetch := λ _ _, answer; now := time |}.

End AuthService.

Module AuthContext.
Import JS JSEval.
Local Open Scope list_scope.

(** The state of the provider, with [localStorage] beside it. *)
Record auth := {
  user : jsval;
  token : jsval;
  loading : bool;
  stored : AuthService.storage;
}.


(** The effect that runs when [token] changes. *)
Definition initAuth (rt : AuthService.runtime) (net : AuthService.network)
  (s : auth) : auth :=
  if truthy (token s)
  then match AuthService.getCurrentUser rt net (stored s) with
       | Normal userData =>
           {| user := userData; token := token s; loading := false;
              stored := stored s |}
       | Throw _ =>
           {| user := user s; token := JNull; loading := false;
              stored := delete "auth_token" (stored s) |}
       end
  else {| user := user s; token := token s; loading := false;
          stored := stored s |}.

(** What [login] and [register] do with the answer of the service. *)
Definition signed_in (rt : AuthService.runtime) (fallback : string)
  (answer : completion jsval) (s : auth) : auth * jsobj :=
  let fields : completion (jsval * jsval) :=
    response ← answer;
    userData ← member response "user";
    authToken ← member response "token";
    Normal (userData, authToken) in
  match fields with
  | Normal (userData, authToken) =>
      ({| user := userData; token := authToken; loading := loading s;
          stored := <["auth_token" := to_string (AuthService.show rt) authToken]>
                      (stored s) |},
       <["user" := userData]> {["success" := JBool true]})
  | Throw message =>
      (s, <["error" := JStr (if truthy (JStr message) then message
                             else fallback)]>
            {["success" := JBool false]})
  end.

Definition login (rt : AuthService.runtime) (net : AuthService.network)
  (credentials : jsval) (s : auth) : auth * jsobj :=
  signed_in rt "Login failed"
    (AuthService.login rt net (stored s) credentials) s.

Definition register (rt : AuthService.runtime) (net : AuthService.network)
  (userData : jsval) (s : auth) : auth * jsobj :=
  signed_in rt "Registration failed"
    (AuthService.register rt net (stored s) userData) s.

(** [logout]: whatever becomes of the request, the [finally] block
    clears the user, the token and the stored token. *)
Definition logout (rt : AuthService.runtime) (net : AuthService.network)
  (s : auth) : auth :=
  let _ := AuthService.logout rt net (stored s) in
  {| user := JNull; token := JNull; loading := loading s;
     stored := delete "auth_token" (stored s) |}.

(** [setUser(prev => ({ ...prev, ...userData }))] *)
Definition updateUser (userData : jsval) (s : auth) : auth :=
  {| user := JObj (spread (own_properties (user s))
                          (own_properties userData));
     token := token s; loading := loading s; stored := stored s |}.

Definition isAuthenticated (s : auth) : bool := truthy (user s).

(** [user?.role === 'admin'] *)
Definition isAdmin (s : auth) : bool :=
  match user s with
  | JObj o => strict_eq (get o "role") (JStr "admin")
  | _ => false
  end.

(** A run of the provider: each action with the network of its time. *)
Inductive action :=
  | Login (credentials : jsval)
  | Register (userData : jsval)
  | Logout
  | InitAuth
  | UpdateUser (userData : jsval).

Definition step (rt : AuthService.runtime)
  (s : auth) (a : AuthService.network * action) : auth :=
  match a.2 with
  | Login credentials => (login rt a.1 credentials s).1
  | Register userData => (register rt a.1 userData s).1
  | Logout => logout rt a.1 s
  | InitAuth => initAuth rt a.1 s
  | UpdateUser userData => updateUser userData s
  end.

Definition run (rt : AuthService.runtime)
  (actions : list (AuthService.network * action)) (s : auth) : auth :=
  foldl (step rt) s actions.


End AuthContext.

(** ** Row-level security: the policies of the schema *)

Module Policies.
Local Open Scope list_scope.

Definition uuid : Type := N.

(** SQL's logic of three values: a comparison with NULL is NULL. *)
Definition sql_eq (a b : option uuid) : option bool :=
  match a, b with
  | Some x, Some y => Some (bool_decide (x = y))
  | _, _ => None
  end.

Definition sql_and (a b : option bool) : option bool :=
  match a, b with
  | Some false, _ | _, Some false => Some false
  | Some true, Some true => Some true
  | _, _ => None
  end.

Definition sql_or (a b : option bool) : option bool :=
  match a, b with
  | Some true, _ | _, Some true => Some true
  | Some false, Some false => Some false
  | _, _ => None
  end.

(** WHERE, USING and WITH CHECK accept a row only when their condition is
    true, not when it is NULL. *)
Definition holds (condition : option bool) : bool :=
  match condition with
  | Some true => true
  | _ => false
  end.

(** The columns that the policies read.  [id], [user_id],
    [conversation_id] of a message or a task and [task_id] are NOT NULL;
    a file's [conversation_id] and [uploaded_by] may be NULL. *)
Record conversation := { c_id : uuid; c_user_id : uuid }.
Record message := { m_conversation_id : uuid }.
Record task := { t_id : uuid; t_conversation_id : uuid }.
Record tool_execution := { te_task_id : uuid }.
Record file := {
  f_conversation_id : option uuid;
  f_uploaded_by : option uuid;
}.

(** The tables that the policies query. *)
Record database := {
  conversations : list conversation;
  tasks : list task;
}.

(** [EXISTS (SELECT 1 FROM conversations
             WHERE id = conversation_id AND user_id = auth.uid())] *)
Definition in_own_conversation (uid : option uuid) (db : database)
  (conversation_id : option uuid) : bool :=
  existsb (λ c, holds (sql_and (sql_eq (Some (c_id c)) conversation_id)
                               (sql_eq (Some (c_user_id c)) uid)))
          (conversations db).

(** [EXISTS (SELECT 1 FROM tasks t
             JOIN conversations c ON t.conversation_id = c.id
             WHERE t.id = task_id AND c.user_id = auth.uid())] *)
Definition in_own_task (uid : option uuid) (db : database)
  (task_id : option uuid) : bool :=
  existsb (λ t,
    existsb (λ c,
      holds (sql_eq (Some (t_conversation_id t)) (Some (c_id c)))
      && holds (sql_and (sql_eq (Some (t_id t)) task_id)
                        (sql_eq (Some (c_user_id c)) uid)))
      (conversations db))
    (tasks db).

(** A row of one of the tables with row-level security whose policies
    read no table of their own.  The policies of [users] query [users]
    itself and are left out. *)
Inductive row :=
  | ConversationRow (c : conversation)
  | MessageRow (m : message)
  | TaskRow (t : task)
  | ToolExecutionRow (te : tool_execution)
  | FileRow (f : file).

Inductive command := SELECT | INSERT | UPDATE | DELETE.

(** Whether the policies let the session of [uid] (the value of
    [auth.uid()], NULL without a login) run [cmd] on the row: the
    condition of the policy for that table and command, and a refusal
    where the script creates no policy. *)
Definition permitted (uid : option uuid) (db : database) (cmd : command)
  (r : row) : bool :=
  match r, cmd with
  | ConversationRow c, (SELECT | INSERT | UPDATE) =>
      holds (sql_eq (Some (c_user_id c)) uid)
  | MessageRow m, (SELECT | INSERT) =>
      in_own_conversation uid db (Some (m_conversation_id m))
  | TaskRow t, (SELECT | INSERT | UPDATE) =>
      in_own_conversation uid db (Some (t_conversation_id t))
  | ToolExecutionRow te, SELECT =>
      in_own_task uid db (Some (te_task_id te))
  | FileRow f, SELECT => in_own_conversation uid db (f_conversation_id f)
  | FileRow f, INSERT =>
      holds (sql_and
               (sql_eq (f_uploaded_by f) uid)
               (sql_or (Some (bool_decide (f_conversation_id f = None)))
                       (Some (in_own_conversation uid db
                                (f_conversation_id f)))))
  | _, _ => false
  end.

(** Two users, a conversation of each, and a task of the first. *)
Definition sample_database : database :=
  {| conversations := [ {| c_id := 10%N; c_user_id := 1%N |};
                        {| c_id := 20%N; c_user_id := 2%N |} ];
     tasks := [ {| t_id := 100%N; t_conversation_id := 10%N |} ] |}.

End Policies.

(** ** Shapes of the tools' results, and a world with files *)

Module ToolProperties.
Import Py Tools.
Local Open Scope list_scope.

(** A text without white space at either end, as [str.strip()] leaves
    it. *)
Definition trimmed (s : list ascii) : Prop :=
  (∀ c, head s = Some c → is_space c = false)
  ∧ (∀ c, last s = Some c → is_space c = false).

Definition blank : ascii := " "%char.

(** No two spaces in a row. *)
Fixpoint single_spaced (s : list ascii) : bool :=
  match s with
  | c :: s' =>
      match s' with
      | c' :: _ => negb (bool_decide (c = blank) && bool_decide (c' = blank))
      | [] => true
      end && single_spaced s'
  | [] => true
  end.

(** No line boundary. *)
Definition one_line (s : list ascii) : Prop :=
  Forall (λ c, is_linebreak c = false) s.

(** What each chunk of the cleaned text satisfies. *)
Definition clean_chunk (chunk : list ascii) : Prop :=
  chunk ≠ [] ∧ trimmed chunk ∧ single_spaced chunk = true ∧ one_line chunk.

(** An entry of [files] whose name does not start with a dot. *)
Definition shown_entry (f : pyval) : Prop :=
  ∃ (d : pydict) (name : string),
    f = PDict d ∧ d !! "name" = Some (PStr name)
    ∧ starts_with_dot name = false.

(** A world whose files all have the lines [lines], whose directories all
    hold [items] and whose web requests are all answered by the JSON value
    [data]; the other calls are those of [sample_world]. *)
Definition disk_world (lines items : list string) (data : pyval) : world :=
  let w := sample_world run_prints
             {| soup_title := None; soup_text := EmptyString;
                soup_anchors := λ _, [] |} in
  {| subprocess_run := subprocess_run w;
     path_exists := path_exists w;
     read_lines := λ _ _, Ret lines;
     getsize := λ _, Ret (Z.of_nat (String.length (concat_str lines)));
     makedirs_dirname := makedirs_dirname w;
     write_file := write_file w;
     encoded_length := encoded_length w;
     walk := walk w;
     listdir := λ _, Ret items;
     path_join := path_join w;
     os_stat := os_stat w;
     isfile := isfile w;
     isdir := isdir w;
     quote := quote w;
     requests_get := requests_get w;
     raise_for_status := raise_for_status w;
     response_json := λ _, Ret data;
     BeautifulSoup := BeautifulSoup w;
     urljoin := urljoin w;
     json_loads := json_loads w;
     json_dumps := json_dumps w;
     str_lower := str_lower w;
     findall_words := findall_words w;
     most_common := most_common w;
     format := format w |}.

(** An answer of the search API with an abstract and three topics. *)
Definition topic (text : string) : pyval :=
  PDict (<["FirstURL" := PStr "http://example.org/"]> {["Text" := PStr text]}).

Definition sample_answer : pyval :=
  PDict (<["RelatedTopics" :=
             PList [topic "Rocq - a proof assistant"; topic "OCaml";
                    topic "Lean - a prover"]]>
           (<["AbstractURL" := PStr "http://example.org/a"]>
              (<["AbstractText" := PStr "Proof assistants"]>
                 {["Abstract" := PStr "Programs that check proofs."]}))).

(** What [web_search] makes of that answer under a limit of two. *)
Definition sample_search_result : pydict :=
  <["total_results" := PInt 3]>
    (<["query" := PStr "rocq"]>
       (<["results" :=
            PList [PDict (<["type" := PStr "abstract"]>
                            (<["snippet" := PStr "Programs that check proofs."]>
                               (<["url" := PStr "http://example.org/a"]>
                                  {["title" := PStr "Proof assistants"]})));
                   PDict (<["type" := PStr "related"]>
                            (<["snippet" := PStr "Rocq - a proof assistant"]>
                               (<["url" := PStr "http://example.org/"]>
                                  {["title" := PStr "Rocq"]})))]]>
          {["success" := PBool true]})).

(** What [file_list] makes of a directory that holds [.git] and
    [notes.txt] in [disk_world]. *)
Definition sample_listing : pydict :=
  <["total_count" := PInt 1]>
    (<["files" := PList [file_entry "notes.txt" "notes.txt" 0 false 0%Q]]>
       {["success" := PBool true]}).

(** A page whose text has blank lines and runs of spaces, and what
    [browser_navigate] makes of it. *)
Definition messy_page : soup :=
  {| soup_title := Some None;
     soup_text := "  Hola   mundo " +:+ chr 10 +:+ chr 10 +:+ "   fin  ";
     soup_anchors := λ _, [] |}.

Definition messy_result : pydict :=
  <["text" := PStr "Hola mundo fin"]>
    (<["status_code" := PInt 200]>
       (<["title" := PNone]>
          (<["url" := PStr "http://example.org/"]>
             {["success" := PBool true]}))).

End ToolProperties.


(** * Properties *)

(** ** Task page handlers *)

Section TasksPageFacts.
Import JS TasksPage.

Lemma spread_idemp (a b : jsobj) : spread (spread a b) b = spread a b.
Proof.
  unfold spread. rewrite (assoc_L (∪)). by rewrite (idemp_L (∪)).
Qed.

Lemma get_insert_ne (o : jsobj) (k k' : string) (v : jsval) :
  k ≠ k' → get (<[k := v]> o) k' = get o k'.
Proof. intros Hne. unfold get. by rewrite lookup_insert_ne. Qed.

Lemma get_insert_eq (o : jsobj) (k : string) (v : jsval) :
  get (<[k := v]> o) k = v.
Proof. unfold get. by rewrite lookup_insert_eq. Qed.

(** A per-element update that is idempotent stays so under [map]. *)
Lemma map_idemp {A} (f : A → A) (l : list A) :
  (∀ x, f (f x) = f x) → map f (map f l) = map f l.
Proof.
  intros Hf. rewrite map_map. apply map_ext. intros x. apply Hf.
Qed.

Lemma handleTaskUpdate_idemp (taskData : task_updated) (tasks : list jsobj) :
  handleTaskUpdate taskData (handleTaskUpdate taskData tasks)
  = handleTaskUpdate taskData tasks.
Proof.
  unfold handleTaskUpdate. apply map_idemp. intros t.
  destruct (strict_eq (get t "id") (get (task taskData) "id")) eqn:Hm.
  - destruct (strict_eq (get (spread t (task taskData)) "id") _);
      [apply spread_idemp | done].
  - by rewrite Hm.
Qed.

Lemma handleTaskProgress_idemp (progressData : task_progress)
  (tasks : list jsobj) :
  handleTaskProgress progressData (handleTaskProgress progressData tasks)
  = handleTaskProgress progressData tasks.
Proof.
  unfold handleTaskProgress. apply map_idemp. intros t.
  destruct (strict_eq (get t "id") (task_id progressData)) eqn:Hm.
  - rewrite !get_insert_ne by done. rewrite Hm.
    rewrite (insert_insert_ne _ "progress" "current_step") by done.
    by rewrite !insert_insert_eq.
  - by rewrite Hm.
Qed.

(** C8. Delivering the same [task_updated] or [task_progress] event a second
    time leaves the whole task list, and so every task's progress and
    every step's status, as the first delivery left it. *)
Theorem event_redelivery_idempotent (taskData : task_updated)
  (progressData : task_progress) (tasks : list jsobj) :
  handleTaskUpdate taskData (handleTaskUpdate taskData tasks)
    = handleTaskUpdate taskData tasks
  ∧ handleTaskProgress progressData (handleTaskProgress progressData tasks)
    = handleTaskProgress progressData tasks.
Proof.
  split; [apply handleTaskUpdate_idemp | apply handleTaskProgress_idemp].
Qed.

(** The task page stores the progress that the event carries. *)
Lemma handleTaskProgress_stores_event_progress (progressData : task_progress)
  (tasks : list jsobj) (i : nat) (t : jsobj) :
  tasks !! i = Some t →
  strict_eq (get t "id") (task_id progressData) = true →
  ∃ t', handleTaskProgress progressData tasks !! i = Some t'
        ∧ get t' "progress" = progress progressData.
Proof.
  intros Hi Hid. unfold handleTaskProgress.
  rewrite list_lookup_fmap, Hi. simpl. rewrite Hid.
  eexists. split; [done |].
  rewrite get_insert_ne by done. apply get_insert_eq.
Qed.

(** The update of one task object leaves its [steps] property alone when
    the written key is another one. *)
Lemma steps_of_insert_ne (t : jsobj) (k : string) (v : jsval) :
  k ≠ "steps" → steps_of (<[k := v]> t) = steps_of t.
Proof. intros Hne. unfold steps_of. by rewrite get_insert_ne. Qed.

Lemma cancelTask_lookup (taskId : jsval) (tasks : list jsobj)
  (i : nat) (t : jsobj) :
  tasks !! i = Some t →
  cancelTask true taskId tasks !! i
  = Some (if strict_eq (get t "id") taskId
          then <["status" := JStr "cancelled"]> t else t).
Proof.
  intros Hi. unfold cancelTask. by rewrite list_lookup_fmap, Hi.
Qed.

Lemma retryTask_lookup (taskId : jsval) (tasks : list jsobj)
  (i : nat) (t : jsobj) :
  tasks !! i = Some t →
  retryTask taskId tasks !! i
  = Some (if strict_eq (get t "id") taskId
          then <["error_message" := JNull]>
                 (<["progress" := JNum 0]>
                    (<["status" := JStr "pending"]> t))
          else t).
Proof.
  intros Hi. unfold retryTask. by rewrite list_lookup_fmap, Hi.
Qed.

Lemma mockTask2_id : strict_eq (get mockTask2 "id") (JStr "2") = true.
Proof. by vm_compute. Qed.

Lemma mockTask3_id : strict_eq (get mockTask3 "id") (JStr "3") = true.
Proof. by vm_compute. Qed.

Lemma mockTask2_step3 :
  steps_of mockTask2 !! 2%nat
  = Some (mk_step 3 "Implementar autenticación" "running" JNull).
Proof. vm_compute. reflexivity. Qed.

Lemma mockTask3_step1 :
  steps_of mockTask3 !! 0%nat
  = Some (mk_step 1 "Conectar a BD" "failed" (JNum 10)).
Proof. vm_compute. reflexivity. Qed.

(** C4, as the specification states it, fails on the mock task with a
    running step: after [cancelTask] its third step is still running. *)
Lemma cancelTask_keeps_running_step :
  ¬ cancel_task_spec (JStr "2") [mockTask2; mockTask3]
      (cancelTask true (JStr "2") [mockTask2; mockTask3]).
Proof.
  intros Hspec.
  destruct (Hspec 0%nat mockTask2 eq_refl mockTask2_id)
    as (t' & Ht' & _ & Hsteps).
  rewrite (cancelTask_lookup (JStr "2") [mockTask2; mockTask3] 0%nat
             mockTask2 eq_refl), mockTask2_id in Ht'.
  apply (inj Some) in Ht'. subst t'.
  destruct (Hsteps 2%nat _ mockTask2_step3) as (s' & Hs' & Hst);
    [by vm_compute |].
  rewrite steps_of_insert_ne, mockTask2_step3 in Hs' by done.
  apply (inj Some) in Hs'. subst s'.
  vm_compute in Hst. discriminate.
Qed.

(** C4, amended. A confirmed [cancelTask] gives the task with the given id
    the status cancelled and changes no other property of it, its steps
    included; every other task is kept; a declined one changes nothing. *)
Theorem cancelTask_sets_task_status (taskId : jsval) (tasks : list jsobj)
  (i : nat) (t : jsobj) :
  tasks !! i = Some t →
  cancelTask false taskId tasks = tasks ∧
  ∃ t', cancelTask true taskId tasks !! i = Some t' ∧
    if strict_eq (get t "id") taskId
    then status_of t' = JStr "cancelled" ∧ steps_of t' = steps_of t
         ∧ delete "status" t' = delete "status" t
    else t' = t.
Proof.
  intros Hi. split; [done |]. unfold cancelTask.
  rewrite list_lookup_fmap, Hi. simpl. eexists. split; [done |].
  destruct (strict_eq (get t "id") taskId); [| done].
  split_and!.
  - apply get_insert_eq.
  - by apply steps_of_insert_ne.
  - by rewrite delete_insert_eq.
Qed.

Lemma cancelTask_sets_task_status_witness :
  [mockTask2; mockTask3] !! 0%nat = Some mockTask2 ∧
  (cancelTask false (JStr "2") [mockTask2; mockTask3] = [mockTask2; mockTask3] ∧
   ∃ t', cancelTask true (JStr "2") [mockTask2; mockTask3] !! 0%nat = Some t' ∧
     if strict_eq (get mockTask2 "id") (JStr "2")
     then status_of t' = JStr "cancelled" ∧ steps_of t' = steps_of mockTask2
          ∧ delete "status" t' = delete "status" mockTask2
     else t' = mockTask2).
Proof.
  split; [reflexivity |].
  apply (cancelTask_sets_task_status (JStr "2") [mockTask2; mockTask3]
           0%nat mockTask2).
  reflexivity.
Defined.

(** Nothing on the page holds back a later event: a [task_updated] that
    arrives after the cancellation and carries a running step is merged
    as any other. *)
Example update_after_cancel_is_merged :
  steps_of <$>
    handleTaskUpdate
      {| task := list_to_map
           [("id", JStr "2");
            ("steps", JArr [JObj (mk_step 4 "Crear endpoints CRUD"
                                    "running" JNull)])] |}
      (cancelTask true (JStr "2") [mockTask2]) !! 0%nat
  = Some [mk_step 4 "Crear endpoints CRUD" "running" JNull].
Proof. vm_compute. reflexivity. Qed.

(** C5, as the specification states it, fails on the failed mock task:
    after [retryTask] its failed first step is still failed, not ready. *)
Lemma retryTask_keeps_failed_step :
  ¬ retry_task_spec (JStr "3") [mockTask2; mockTask3]
      (retryTask (JStr "3") [mockTask2; mockTask3]).
Proof.
  intros Hspec.
  destruct (Hspec 1%nat mockTask3 eq_refl mockTask3_id)
    as (t' & Ht' & Hsteps); [by vm_compute |].
  rewrite (retryTask_lookup (JStr "3") [mockTask2; mockTask3] 1%nat
             mockTask3 eq_refl), mockTask3_id in Ht'.
  apply (inj Some) in Ht'. subst t'.
  destruct (Hsteps 0%nat _ mockTask3_step1) as (s' & Hs' & Hst).
  rewrite !steps_of_insert_ne, mockTask3_step1 in Hs' by done.
  apply (inj Some) in Hs'. subst s'.
  vm_compute in Hst. destruct Hst as [Hst _]. discriminate.
Qed.

(** C5, amended. [retryTask] gives the task with the given id the status
    pending, progress 0 and a null error message and changes no other
    property of it: its steps, failed and skipped ones included, keep
    their status; every other task is kept. *)
Theorem retryTask_resets_task_only (taskId : jsval) (tasks : list jsobj)
  (i : nat) (t : jsobj) :
  tasks !! i = Some t →
  ∃ t', retryTask taskId tasks !! i = Some t' ∧
    if strict_eq (get t "id") taskId
    then status_of t' = JStr "pending" ∧ get t' "progress" = JNum 0
         ∧ get t' "error_message" = JNull ∧ steps_of t' = steps_of t
         ∧ delete "status" (delete "progress" (delete "error_message" t'))
           = delete "status" (delete "progress" (delete "error_message" t))
    else t' = t.
Proof.
  intros Hi. unfold retryTask.
  rewrite list_lookup_fmap, Hi. simpl. eexists. split; [done |].
  destruct (strict_eq (get t "id") taskId); [| done].
  split_and!.
  - unfold status_of. rewrite !get_insert_ne by done. apply get_insert_eq.
  - rewrite get_insert_ne by done. apply get_insert_eq.
  - apply get_insert_eq.
  - by rewrite !steps_of_insert_ne.
  - rewrite delete_insert_eq.
    rewrite (delete_insert_ne _ "error_message" "progress") by done.
    rewrite delete_insert_eq.
    rewrite !(delete_insert_ne _ _ "status") by done.
    by rewrite delete_insert_eq.
Qed.

Lemma retryTask_resets_task_only_witness :
  [mockTask2; mockTask3] !! 1%nat = Some mockTask3 ∧
  ∃ t', retryTask (JStr "3") [mockTask2; mockTask3] !! 1%nat = Some t' ∧
    if strict_eq (get mockTask3 "id") (JStr "3")
    then status_of t' = JStr "pending" ∧ get t' "progress" = JNum 0
         ∧ get t' "error_message" = JNull ∧ steps_of t' = steps_of mockTask3
         ∧ delete "status" (delete "progress" (delete "error_message" t'))
           = delete "status" (delete "progress" (delete "error_message" mockTask3))
    else t' = mockTask3.
Proof.
  split; [reflexivity |].
  apply (retryTask_resets_task_only (JStr "3") [mockTask2; mockTask3]
           1%nat mockTask3).
  reflexivity.
Defined.

End TasksPageFacts.

(** ** The tools *)

Section ToolsFacts.
Import Py Tools.

Lemma length_sl (l : list ascii) : String.length (sl l) = length l.
Proof. induction l as [| c l IH]; simpl; [done | by rewrite IH]. Qed.

Lemma str_take_length (n : nat) (s : string) :
  (String.length (str_take n s) ≤ n)%nat.
Proof.
  unfold str_take. fold (sl (take n (list_ascii_of_string s))).
  rewrite length_sl, length_take. lia.
Qed.

(** C6. When the command is given, [shell_exec] raises nothing: a run that
    exceeds the timeout gives the structured failure whose error names the
    timeout, any other failure of the run gives a structured failure with
    its message, and a completed run gives [stdout], [stderr] and
    [return_code]. *)
Theorem shell_exec_structured_outcome (w : world) (params : pydict)
  (command : pyval) :
  params !! "command" = Some command →
  let working_dir := get_default params "working_dir" (PStr "/tmp") in
  let timeout := get_default params "timeout" (PInt 30) in
  match subprocess_run w command working_dir timeout with
  | Ret result =>
      shell_exec w params
      = Ret (<["return_code" := PInt (returncode result)]>
               (<["stderr" := PStr (stderr result)]>
                  (<["stdout" := PStr (stdout result)]>
                     {["success" := PBool true]})))
  | Raise e =>
      if bool_decide (exn_cls e = TimeoutExpired)
      then shell_exec w params
           = Ret (<["error" := PStr ("Command timed out after "
                                     ++ py_str w timeout ++ " seconds")]>
                    {["success" := PBool false]})
      else shell_exec w params
           = Ret (<["error" := PStr (exn_str e)]>
                    {["success" := PBool false]})
  end.
Proof.
  intros Hc wd tm. unfold shell_exec, getitem. rewrite Hc. simpl.
  fold wd tm.
  destruct (subprocess_run w command wd tm) as [r | e]; [done |].
  case_bool_decide as Hcls; [by rewrite Hcls | by destruct (exn_cls e)].
Qed.

Lemma shell_exec_structured_outcome_witness :
  ({["command" := PStr "sleep 60"; "timeout" := PInt 1]} : pydict)
    !! "command" = Some (PStr "sleep 60")
  ∧ shell_exec (sample_world run_times_out big_page)
      {["command" := PStr "sleep 60"; "timeout" := PInt 1]}
    = Ret (<["error" := PStr "Command timed out after 1 seconds"]>
             {["success" := PBool false]}).
Proof.
  split; [reflexivity |].
  exact (shell_exec_structured_outcome (sample_world run_times_out big_page)
           {["command" := PStr "sleep 60"; "timeout" := PInt 1]}
           (PStr "sleep 60") eq_refl).
Defined.

(** A completed run, evaluated. *)
Example shell_exec_completed :
  shell_exec (sample_world run_prints big_page)
    {["command" := PStr "echo hello"]}
  = Ret (<["return_code" := PInt 0]>
           (<["stderr" := PStr EmptyString]>
              (<["stdout" := PStr "hello"]> {["success" := PBool true]}))).
Proof. reflexivity. Qed.

(** Without the required [command] the lookup before the [try] raises. *)
Example shell_exec_missing_command :
  shell_exec (sample_world run_prints big_page) ∅
  = Raise {| exn_cls := KeyError; exn_str := "'command'" |}.
Proof. reflexivity. Qed.

Lemma failure_lookup_success (msg : string) :
  failure msg !! "success" = Some (PBool false).
Proof. done. Qed.

Lemma failure_lookup_error (msg : string) :
  failure msg !! "error" = Some (PStr msg).
Proof. done. Qed.

Lemma failure_lookup_other (msg k : string) :
  k ≠ "success" → k ≠ "error" → failure msg !! k = None.
Proof.
  intros H1 H2. unfold failure.
  rewrite lookup_insert_ne by done. by rewrite lookup_singleton_ne.
Qed.

Lemma browser_navigate_body_bounds (w : world)
  (url extract_text extract_links : pyval) (r : pydict) :
  browser_navigate_body w url extract_text extract_links = Ret r →
  text_within text_limit r ∧ links_within links_limit r.
Proof.
  unfold browser_navigate_body, mbind, outcome_bind, bind,
    text_within, links_within.
  pose proof (str_take_length text_limit) as Htext.
  assert (Hlinks : ∀ links : list pyval,
             (length (take links_limit links) ≤ links_limit)%nat)
    by (intros; rewrite length_take; lia).
  revert Htext Hlinks.
  generalize text_limit links_limit. intros n m Htext Hlinks.
  destruct (requests_get w url) as [resp |]; [| done].
  destruct (raise_for_status w resp); [| done].
  destruct (BeautifulSoup w (content resp)) as [page |]; [| done].
  destruct (truthy extract_text), (truthy extract_links);
    try destruct (mapM _ _) as [links |]; intros [= <-];
    simplify_map_eq; done.
Qed.

(** C10. Given a URL, [browser_navigate] returns a result whose [text],
    when present, has at most 5000 characters and whose [links], when
    present, are at most 50, whatever page the world serves. *)
Theorem browser_navigate_bounded (w : world) (params : pydict) (url : pyval) :
  params !! "url" = Some url →
  ∃ r, browser_navigate w params = Ret r
       ∧ text_within 5000 r ∧ links_within 50 r.
Proof.
  intros Hu. change 5000%nat with text_limit. change 50%nat with links_limit.
  unfold browser_navigate, getitem. rewrite Hu. simpl.
  destruct (browser_navigate_body w url _ _) as [r | e] eqn:Hb; simpl.
  - exists r. split; [done |]. by eapply browser_navigate_body_bounds.
  - eexists. split; [done |].
    unfold text_within, links_within.
    by rewrite !failure_lookup_other.
Qed.

Lemma browser_navigate_bounded_witness :
  ({["url" := PStr "http://example.org/"; "extract_links" := PBool true]}
     : pydict) !! "url" = Some (PStr "http://example.org/")
  ∧ ∃ r, browser_navigate (sample_world run_prints big_page)
           {["url" := PStr "http://example.org/";
             "extract_links" := PBool true]} = Ret r
         ∧ text_within 5000 r ∧ links_within 50 r.
Proof.
  split; [reflexivity |].
  exact (browser_navigate_bounded (sample_world run_prints big_page)
           {["url" := PStr "http://example.org/";
             "extract_links" := PBool true]}
           (PStr "http://example.org/") eq_refl).
Defined.

(** On the page of 6000 words and 60 links the cut is reached: 5000
    characters and 50 links come back. *)
Example browser_navigate_big_page :
  match browser_navigate (sample_world run_prints big_page)
          {["url" := PStr "http://example.org/";
            "extract_links" := PBool true]} with
  | Ret r =>
      match r !! "text", r !! "links" with
      | Some (PStr text), Some (PList links) =>
          (String.length text =? 5000)%nat && (length links =? 50)%nat
      | _, _ => false
      end
  | Raise _ => false
  end = true.
Proof. by vm_compute. Qed.

(** *** Every tool returns a well-formed result *)

Lemma failure_well_formed (msg : string) : well_formed_result (failure msg).
Proof.
  exists false. split; [apply failure_lookup_success |].
  eexists. apply failure_lookup_error.
Qed.

Lemma try_except_well_formed (body : outcome pydict) :
  (∀ r, body = Ret r → well_formed_result r) →
  ∃ r, try_except body = Ret r ∧ well_formed_result r.
Proof.
  intros Hbody. destruct body as [r | e]; simpl.
  - exists r. split; [done |]. by apply Hbody.
  - eexists. split; [done |]. apply failure_well_formed.
Qed.

Lemma bind_ret_inv {A B} (m : outcome A) (k : A → outcome B) (r : B) :
  m ≫= k = Ret r → ∃ a, m = Ret a ∧ k a = Ret r.
Proof. destruct m as [a | e]; [by exists a | done]. Qed.

Lemma success_insert_ne (r : pydict) (k : string) (v : pyval) (b : bool) :
  k ≠ "success" → r !! "success" = Some (PBool b) →
  <[k := v]> r !! "success" = Some (PBool b).
Proof. intros Hk Hr. by rewrite lookup_insert_ne. Qed.

(** One step of the case analysis on the calls and conditions that lead a
    tool body to return [r]. *)
Ltac step_body H :=
  lazymatch type of H with
  | _ ≫= _ = Ret _ =>
      let H1 := fresh "Hcall" in
      apply bind_ret_inv in H as (? & H1 & H); cbv beta zeta in H;
      step_body H1; step_body H
  | (if ?c then _ else _) = Ret _ => destruct c; step_body H
  | match ?x with _ => _ end = Ret _ => destruct x; step_body H
  | Raise _ = Ret _ => discriminate H
  | Ret _ = Ret _ => injection H as <-
  | _ => idtac
  end.

Ltac result_shape :=
  lazymatch goal with
  | |- well_formed_result (failure _) => apply failure_well_formed
  | |- _ =>
      exists true; split; [| exact I];
      repeat first
        [ apply success_insert_ne; [discriminate |]
        | lazymatch goal with
          | |- (if ?c then _ else _) !! _ = _ => destruct c
          | |- match ?x with _ => _ end !! _ = _ => destruct x
          end ];
      apply lookup_singleton_eq
  end.

Ltac body_well_formed H := cbv zeta in H; step_body H; result_shape.

Lemma file_read_body_well_formed w file_path encoding max_lines r :
  file_read_body w file_path encoding max_lines = Ret r →
  well_formed_result r.
Proof. unfold file_read_body. intros H. body_well_formed H. Qed.

Lemma file_write_body_well_formed w file_path content encoding append r :
  file_write_body w file_path content encoding append = Ret r →
  well_formed_result r.
Proof. unfold file_write_body. intros H. body_well_formed H. Qed.

Lemma file_list_body_well_formed w dir_path recursive show_hidden r :
  file_list_body w dir_path recursive show_hidden = Ret r →
  well_formed_result r.
Proof. unfold file_list_body. intros H. body_well_formed H. Qed.

Lemma web_search_body_well_formed w query max_results r :
  web_search_body w query max_results = Ret r → well_formed_result r.
Proof. unfold web_search_body. intros H. body_well_formed H. Qed.

Lemma text_analyze_body_well_formed w text analysis_type r :
  text_analyze_body w text analysis_type = Ret r → well_formed_result r.
Proof. unfold text_analyze_body. intros H. body_well_formed H. Qed.

Lemma browser_navigate_body_well_formed w url extract_text extract_links r :
  browser_navigate_body w url extract_text extract_links = Ret r →
  well_formed_result r.
Proof.
  unfold browser_navigate_body. generalize text_limit links_limit.
  intros n m H. body_well_formed H.
Qed.

Lemma json_parse_body_well_formed w json_string pretty_print r :
  json_parse_body w json_string pretty_print = Ret r → well_formed_result r.
Proof. unfold json_parse_body. intros H. body_well_formed H. Qed.

Lemma getitem_Some (params : pydict) (k : string) (v : pyval) :
  params !! k = Some v → getitem params k = Ret v.
Proof. intros H. unfold getitem. by rewrite H. Qed.

Lemma shell_exec_well_formed w params :
  is_Some (params !! "command") →
  ∃ r, shell_exec w params = Ret r ∧ well_formed_result r.
Proof.
  intros [command Hc]. unfold shell_exec.
  rewrite (getitem_Some _ _ _ Hc). simpl.
  destruct (subprocess_run w command _ _) as [res | e].
  - eexists. split; [done |]. result_shape.
  - destruct (exn_cls e); eexists; (split; [done |]);
      apply failure_well_formed.
Qed.

Lemma json_parse_well_formed w params :
  is_Some (params !! "json_string") →
  ∃ r, json_parse w params = Ret r ∧ well_formed_result r.
Proof.
  intros [json_string Hj]. unfold json_parse.
  rewrite (getitem_Some _ _ _ Hj). simpl.
  destruct (json_parse_body w json_string _) as [r | e] eqn:Hbody.
  - exists r. split; [done |]. by eapply json_parse_body_well_formed.
  - destruct (exn_cls e); eexists; (split; [done |]);
      first [ apply failure_well_formed
            | exists false; split; [done | by eexists] ].
Qed.

Lemma file_read_well_formed w params :
  is_Some (params !! "path") →
  ∃ r, file_read w params = Ret r ∧ well_formed_result r.
Proof.
  intros [v Hv]. unfold file_read. rewrite (getitem_Some _ _ _ Hv). simpl.
  apply try_except_well_formed. intros r. apply file_read_body_well_formed.
Qed.

Lemma file_write_well_formed w params :
  is_Some (params !! "path") → is_Some (params !! "content") →
  ∃ r, file_write w params = Ret r ∧ well_formed_result r.
Proof.
  intros [v Hv] [c Hc]. unfold file_write.
  rewrite (getitem_Some _ _ _ Hv), (getitem_Some _ _ _ Hc). simpl.
  apply try_except_well_formed. intros r. apply file_write_body_well_formed.
Qed.

Lemma file_list_well_formed w params :
  is_Some (params !! "path") →
  ∃ r, file_list w params = Ret r ∧ well_formed_result r.
Proof.
  intros [v Hv]. unfold file_list. rewrite (getitem_Some _ _ _ Hv). simpl.
  apply try_except_well_formed. intros r. apply file_list_body_well_formed.
Qed.

Lemma web_search_well_formed w params :
  is_Some (params !! "query") →
  ∃ r, web_search w params = Ret r ∧ well_formed_result r.
Proof.
  intros [v Hv]. unfold web_search. rewrite (getitem_Some _ _ _ Hv). simpl.
  apply try_except_well_formed. intros r. apply web_search_body_well_formed.
Qed.

Lemma browser_navigate_well_formed w params :
  is_Some (params !! "url") →
  ∃ r, browser_navigate w params = Ret r ∧ well_formed_result r.
Proof.
  intros [v Hv]. unfold browser_navigate.
  rewrite (getitem_Some _ _ _ Hv). simpl.
  apply try_except_well_formed. intros r.
  apply browser_navigate_body_well_formed.
Qed.

Lemma text_analyze_well_formed w params :
  is_Some (params !! "text") →
  ∃ r, text_analyze w params = Ret r ∧ well_formed_result r.
Proof.
  intros [v Hv]. unfold text_analyze. rewrite (getitem_Some _ _ _ Hv). simpl.
  apply try_except_well_formed. intros r.
  apply text_analyze_body_well_formed.
Qed.

(** C9. Each tool of the seeded catalogue has an [execute]; called with a
    dict that holds the parameters its schema requires, it raises nothing
    and returns a dict with a boolean [success], and with an [error]
    string when [success] is false. *)
Theorem registered_tools_total (row : Schema.tool_row) (w : world)
  (params : pydict) :
  row ∈ Schema.seeded_tools →
  Forall (λ k, is_Some (params !! k)) (required (Schema.name row)) →
  ∃ run r, execute (Schema.name row) = Some run
           ∧ run w params = Ret r ∧ well_formed_result r.
Proof.
  intros Hrow Hreq. unfold Schema.seeded_tools in Hrow.
  repeat (apply elem_of_cons in Hrow as [-> | Hrow]);
    [.. | by apply elem_of_nil in Hrow].
  - change (Schema.name _) with "shell_exec" in *.
    change (required "shell_exec") with ["command"] in Hreq.
    apply Forall_cons in Hreq as [? _].
    destruct (shell_exec_well_formed w params) as (r & ? & ?); [done |].
    exists shell_exec, r. by split.
  - change (Schema.name _) with "file_read" in *.
    change (required "file_read") with ["path"] in Hreq.
    apply Forall_cons in Hreq as [? _].
    destruct (file_read_well_formed w params) as (r & ? & ?); [done |].
    exists file_read, r. by split.
  - change (Schema.name _) with "file_write" in *.
    change (required "file_write") with ["path"; "content"] in Hreq.
    apply Forall_cons in Hreq as [? [? _]%Forall_cons].
    destruct (file_write_well_formed w params) as (r & ? & ?); [done.. |].
    exists file_write, r. by split.
  - change (Schema.name _) with "file_list" in *.
    change (required "file_list") with ["path"] in Hreq.
    apply Forall_cons in Hreq as [? _].
    destruct (file_list_well_formed w params) as (r & ? & ?); [done |].
    exists file_list, r. by split.
  - change (Schema.name _) with "web_search" in *.
    change (required "web_search") with ["query"] in Hreq.
    apply Forall_cons in Hreq as [? _].
    destruct (web_search_well_formed w params) as (r & ? & ?); [done |].
    exists web_search, r. by split.
  - change (Schema.name _) with "browser_navigate" in *.
    change (required "browser_navigate") with ["url"] in Hreq.
    apply Forall_cons in Hreq as [? _].
    destruct (browser_navigate_well_formed w params) as (r & ? & ?); [done |].
    exists browser_navigate, r. by split.
  - change (Schema.name _) with "text_analyze" in *.
    change (required "text_analyze") with ["text"] in Hreq.
    apply Forall_cons in Hreq as [? _].
    destruct (text_analyze_well_formed w params) as (r & ? & ?); [done |].
    exists text_analyze, r. by split.
  - change (Schema.name _) with "json_parse" in *.
    change (required "json_parse") with ["json_string"] in Hreq.
    apply Forall_cons in Hreq as [? _].
    destruct (json_parse_well_formed w params) as (r & ? & ?); [done |].
    exists json_parse, r. by split.
Qed.

Lemma registered_tools_total_witness :
  {| Schema.name := "json_parse"; Schema.category := "utility";
     Schema.level := Schema.safe; Schema.requires_confirmation := false |}
    ∈ Schema.seeded_tools
  ∧ Forall (λ k, is_Some (({["json_string" := PStr "{"]} : pydict) !! k))
      (required "json_parse")
  ∧ ∃ run r, execute "json_parse" = Some run
      ∧ run (sample_world run_prints big_page) {["json_string" := PStr "{"]}
        = Ret r
      ∧ well_formed_result r.
Proof.
  assert (Hrow : {| Schema.name := "json_parse"; Schema.category := "utility";
                    Schema.level := Schema.safe;
                    Schema.requires_confirmation := false |}
                 ∈ Schema.seeded_tools)
    by (unfold Schema.seeded_tools; do 7 apply list_elem_of_further;
        apply list_elem_of_here).
  assert (Hreq : Forall
                   (λ k, is_Some (({["json_string" := PStr "{"]} : pydict) !! k))
                   (required "json_parse"))
    by (repeat constructor; by eexists).
  split; [exact Hrow |]. split; [exact Hreq |].
  exact (registered_tools_total _ (sample_world run_prints big_page)
           {["json_string" := PStr "{"]} Hrow Hreq).
Defined.

(** The sample world rejects every JSON text: the result is the failure
    of the [JSONDecodeError] clause. *)
Example json_parse_invalid :
  json_parse (sample_world run_prints big_page) {["json_string" := PStr "{"]}
  = Ret (<["error" := PStr "JSON parsing error: Expecting value"]>
           (<["valid_json" := PBool false]> {["success" := PBool false]})).
Proof. reflexivity. Qed.

(** Without a required parameter the lookup before the [try] raises. *)
Example json_parse_missing_parameter :
  json_parse (sample_world run_prints big_page) ∅
  = Raise {| exn_cls := KeyError; exn_str := "'json_string'" |}.
Proof. reflexivity. Qed.

End ToolsFacts.

(** ** The plan compiler *)

Section KahnFacts.
Import Engine.
Local Open Scope nat_scope.
Local Open Scope list_scope.

Variable plan : list step_descriptor.


Lemma zeros_spec (degrees : list nat) (v x : nat) :
  x ∈ zeros v degrees ↔ ∃ i, x = v + i ∧ degrees !! i = Some 0.
Proof.
  revert v. induction degrees as [| k ds IH]; intros v; simpl.
  - split; [by intros ?%elem_of_nil | by intros (i & _ & ?)].
  - destruct k as [| k].
    + rewrite elem_of_cons, IH. split.
      * intros [-> | (i & -> & Hi)]; [exists 0 | exists (S i)];
          (split; [lia | done]).
      * intros ([| i] & -> & Hi); [left; lia | right].
        exists i. split; [lia | done].
    + rewrite IH. split.
      * intros (i & -> & Hi). exists (S i). split; [lia | done].
      * intros ([| i] & -> & Hi); [done |].
        exists i. split; [lia | done].
Qed.

Lemma zeros_NoDup (degrees : list nat) (v : nat) : NoDup (zeros v degrees).
Proof.
  revert v. induction degrees as [| k ds IH]; intros v; simpl.
  - constructor.
  - destruct k; [| apply IH]. constructor; [| apply IH].
    rewrite zeros_spec. intros (i & ? & _). lia.
Qed.

(** Removing the edges from [u] into [v], one dependency at a time. *)
Lemma release_edges (u v : nat) (deps : list nat) (ind q : list nat) (k : nat) :
  ind !! v = Some k →
  foldl (λ st dep, if decide (dep = u) then relax v st else st) (ind, q) deps
  = (<[v := k - length (filter (λ dep, dep = u) deps)]> ind,
     if decide (0 < k ≤ length (filter (λ dep, dep = u) deps))
     then q ++ [v] else q).
Proof.
  revert ind q k. induction deps as [| dep deps IH]; intros ind q k Hk; simpl.
  - rewrite Nat.sub_0_r, list_insert_id by done.
    by rewrite decide_False by lia.
  - rewrite filter_cons. destruct (decide (dep = u)) as [-> | Hne]; simpl.
    + unfold relax at 2. simpl. rewrite Hk. destruct k as [| k].
      * rewrite (IH _ _ 0 Hk), !Nat.sub_0_l.
        by rewrite !decide_False by lia.
      * rewrite (IH _ _ k).
        2: { apply list_lookup_insert_eq. by eapply lookup_lt_Some. }
        rewrite list_insert_insert_eq. f_equal.
        destruct (decide (k = 0)) as [-> | Hk0].
        -- rewrite decide_False by lia. by rewrite decide_True by lia.
        -- destruct (decide (0 < k ≤ _)); [by rewrite decide_True by lia |].
           by rewrite decide_False by lia.
    + by apply IH.
Qed.

(** What [release] does to the in-degrees and to the queue. *)
Lemma release_spec (u : nat) (ds : list step_descriptor) :
  ∀ (v0 : nat) (ind q : list nat),
    v0 + length ds ≤ length ind →
    ∃ ind' new,
      release u v0 ds (ind, q) = (ind', q ++ new)
      ∧ length ind' = length ind
      ∧ (∀ x, x < v0 → ind' !! x = ind !! x)
      ∧ (∀ i d, ds !! i = Some d →
           ind' !! (v0 + i) = (λ k, k - occ u d) <$> ind !! (v0 + i))
      ∧ NoDup new
      ∧ (∀ y, y ∈ new ↔
           ∃ i d k, y = v0 + i ∧ ds !! i = Some d ∧ ind !! y = Some k
                    ∧ 0 < k ≤ occ u d).
Proof.
  induction ds as [| d ds IH]; intros v0 ind q Hlen; simpl in *.
  - exists ind, []. rewrite app_nil_r. split_and!; try done.
    + constructor.
    + intros y. split; [by intros ?%elem_of_nil | by intros (i & ? & ? & _ & ? & _)].
  - destruct (lookup_lt_is_Some_2 ind v0) as [k Hk]; [lia |].
    rewrite (release_edges u v0 _ ind q k Hk). fold (occ u d).
    set (ind1 := <[v0 := k - occ u d]> ind).
    set (new0 := if decide (0 < k ≤ occ u d) then [v0] else []).
    assert (Hq : (if decide (0 < k ≤ occ u d) then q ++ [v0] else q)
                 = q ++ new0).
    { unfold new0. destruct (decide _); [done | by rewrite app_nil_r]. }
    rewrite Hq.
    destruct (IH (S v0) ind1 (q ++ new0)) as
      (ind' & new1 & Hrel & Hlen' & Hlow & Hmid & Hnd & Hnew).
    { unfold ind1. rewrite length_insert. lia. }
    exists ind', (new0 ++ new1). rewrite Hrel, (assoc_L (++)).
    assert (Hind1 : ∀ x, x ≠ v0 → ind1 !! x = ind !! x).
    { intros x Hx. unfold ind1. by rewrite list_lookup_insert_ne. }
    split_and!; [done | | | | |].
    + rewrite Hlen'. unfold ind1. by rewrite length_insert.
    + intros x Hx. rewrite Hlow by lia. apply Hind1. lia.
    + intros [| i] d' Hd'; simpl in Hd'.
      * injection Hd' as <-. rewrite Nat.add_0_r, Hlow by lia.
        unfold ind1. rewrite list_lookup_insert_eq by (by eapply lookup_lt_Some).
        by rewrite Hk.
      * replace (v0 + S i) with (S v0 + i) by lia.
        rewrite (Hmid i d' Hd'). rewrite Hind1 by lia. done.
    + apply NoDup_app. split_and!; [| | done].
      * unfold new0. destruct (decide _); [apply NoDup_singleton | constructor].
      * intros y Hy0 Hy1. apply Hnew in Hy1 as (i & ? & ? & -> & _).
        unfold new0 in Hy0. destruct (decide _); [| by apply elem_of_nil in Hy0].
        apply list_elem_of_singleton in Hy0. lia.
    + intros y. rewrite elem_of_app, Hnew. split.
      * intros [Hy0 | (i & d' & k' & -> & Hd' & Hk' & Hocc)].
        -- unfold new0 in Hy0.
           destruct (decide _); [| by apply elem_of_nil in Hy0].
           apply list_elem_of_singleton in Hy0 as ->.
           exists 0, d, k. rewrite Nat.add_0_r. done.
        -- exists (S i), d', k'. rewrite Hind1 in Hk' by lia.
           split_and!; [lia | done | done | lia | lia].
      * intros ([| i] & d' & k' & -> & Hd' & Hk' & Hocc); simpl in Hd'.
        -- injection Hd' as <-. rewrite Nat.add_0_r in Hk'.
           rewrite Hk in Hk'. injection Hk' as <-. left.
           unfold new0. rewrite decide_True by done. by apply list_elem_of_singleton.
        -- right. exists i, d', k'. rewrite Hind1 by lia.
           split_and!; [lia | done | done | lia | lia].
Qed.


Lemma unvisited_nil (d : step_descriptor) :
  unvisited [] d = length (dependency_refs d).
Proof.
  unfold unvisited. induction (dependency_refs d) as [| dep deps IH];
    [done |].
  rewrite filter_cons, decide_True by apply not_elem_of_nil.
  cbn [length]. by f_equal.
Qed.

Lemma kahn_init_inv : kahn_inv plan (kahn_init plan).
Proof.
  unfold kahn_init. constructor; simpl.
  - by rewrite length_fmap.
  - intros x. rewrite app_nil_r, zeros_spec. by intros (i & -> & Hi).
  - intros x Hx. rewrite app_nil_r, zeros_spec. by exists x.
  - rewrite app_nil_r. apply zeros_NoDup.
  - intros v d k Hv. rewrite list_lookup_fmap, Hv. intros [= <-].
    apply unvisited_nil.
  - by intros x ?%elem_of_nil.
Qed.

Lemma unvisited_snoc (vis : list nat) (u : nat) (d : step_descriptor) :
  u ∉ vis → unvisited (vis ++ [u]) d + occ u d = unvisited vis d.
Proof.
  intros Hu. unfold unvisited, occ.
  induction (dependency_refs d) as [| dep deps IH]; [done |].
  rewrite !filter_cons.
  destruct (decide (dep = u)) as [-> | Hne].
  - rewrite decide_False by (rewrite elem_of_app, list_elem_of_singleton; tauto).
    rewrite decide_True by done. simpl. lia.
  - destruct (decide (dep ∈ vis)) as [Hin | Hnin].
    + rewrite decide_False by (rewrite elem_of_app; tauto).
      by rewrite decide_False by tauto.
    + rewrite decide_True
        by (rewrite elem_of_app, list_elem_of_singleton; tauto).
      rewrite decide_True by done. simpl. lia.
Qed.

Lemma unvisited_zero (vis : list nat) (d : step_descriptor) (dep : nat) :
  unvisited vis d = 0 → dep ∈ dependency_refs d → dep ∈ vis.
Proof.
  unfold unvisited. intros Hz Hdep.
  destruct (decide (dep ∈ vis)) as [| Hnin]; [done |].
  apply length_zero_iff_nil in Hz.
  assert (dep ∈ filter (λ dep, dep ∉ vis) (dependency_refs d)) as Hin
    by (by apply list_elem_of_filter).
  rewrite Hz in Hin. by apply elem_of_nil in Hin.
Qed.

Lemma kahn_step_inv (st st' : kahn_state) :
  kahn_inv plan st → kahn_step plan st = Some st' → kahn_inv plan st'.
Proof.
  intros [Hlen Hzero Hready Hnd Hdeg Hacc]. unfold kahn_step.
  destruct (queue st) as [| u rest] eqn:Hq; [done |].
  destruct (release_spec u plan 0 (indeg st) rest) as
    (ind' & new & Hrel & Hlen' & _ & Hmid & Hndnew & Hnew); [simpl; lia |].
  rewrite Hrel. simpl. intros [= <-].
  assert (Hu0 : indeg st !! u = Some 0).
  { apply Hzero. rewrite elem_of_app. left. by left. }
  assert (Huvis : u ∉ visited st).
  { simpl in Hnd. apply NoDup_cons in Hnd as [Hu _].
    rewrite elem_of_app in Hu. tauto. }
  assert (Hold : ∀ x, x ∈ rest ++ visited st ++ [u] → indeg st !! x = Some 0).
  { intros x Hx. apply Hzero. simpl. rewrite elem_of_cons, elem_of_app.
    rewrite !elem_of_app, list_elem_of_singleton in Hx. tauto. }
  assert (Hnew0 : ∀ y, y ∈ new → indeg st !! y ≠ Some 0).
  { intros y (i & d & k & -> & _ & Hk & Hpos)%Hnew.
    rewrite Hk. intros [= ->]. lia. }
  constructor; simpl.
  - by rewrite Hlen'.
  - intros x. rewrite <- (assoc_L (++)), elem_of_app. intros [Hx | Hx].
    + assert (Hx0 := Hold x ltac:(rewrite elem_of_app; by left)).
      destruct (lookup_lt_is_Some_2 plan x) as [d Hd].
      { rewrite <- Hlen. by eapply lookup_lt_Some. }
      specialize (Hmid x d Hd). simpl in Hmid. by rewrite Hmid, Hx0.
    + rewrite elem_of_app in Hx. destruct Hx as [Hx | Hx].
      * apply Hnew in Hx as (i & d & k & -> & Hd & Hk & Hpos).
        rewrite (Hmid i d Hd). simpl in *. rewrite Hk. simpl.
        f_equal. lia.
      * assert (Hx0 := Hold x ltac:(rewrite elem_of_app; by right)).
        destruct (lookup_lt_is_Some_2 plan x) as [d Hd].
        { rewrite <- Hlen. by eapply lookup_lt_Some. }
        specialize (Hmid x d Hd). simpl in Hmid. by rewrite Hmid, Hx0.
  - intros x Hx0.
    destruct (lookup_lt_is_Some_2 plan x) as [d Hd].
    { rewrite <- Hlen, <- Hlen'. by eapply lookup_lt_Some. }
    pose proof (Hmid x d Hd) as Hx. simpl in Hx. rewrite Hx0 in Hx.
    destruct (indeg st !! x) as [k |] eqn:Hk; [| done].
    injection Hx as Hx. rewrite <- (assoc_L (++)), !elem_of_app.
    destruct (decide (k = 0)) as [-> | Hpos].
    + apply Hready in Hk. simpl in Hk.
      rewrite elem_of_cons, elem_of_app in Hk.
      rewrite list_elem_of_singleton. tauto.
    + right. left. apply Hnew. exists x, d, k.
      split_and!; [done | done | done | lia | lia].
  - rewrite <- (assoc_L (++)).
    assert (Hnd' : NoDup (rest ++ visited st ++ [u])).
    { simpl in Hnd. rewrite (assoc_L (++)).
      eapply (NoDup_Permutation_proper); [| exact Hnd].
      by rewrite <- Permutation_cons_append. }
    apply NoDup_app in Hnd' as (Hrest & Hdisj & Hvu).
    apply NoDup_app. split_and!; [done | | ].
    + intros x Hx. rewrite elem_of_app. intros [Hxn | Hxv].
      * apply (Hnew0 x Hxn). apply Hold. rewrite elem_of_app. by left.
      * by apply (Hdisj x).
    + apply NoDup_app. split_and!; [done | | done].
      intros y Hy Hyv. apply (Hnew0 y Hy). apply Hold.
      rewrite elem_of_app. by right.
  - intros v d k' Hd Hk'.
    specialize (Hmid v d Hd). simpl in Hmid. rewrite Hk' in Hmid.
    destruct (indeg st !! v) as [k |] eqn:Hk; [| done].
    injection Hmid as ->.
    pose proof (Hdeg v d k Hd Hk) as Hle.
    pose proof (unvisited_snoc (visited st) u d Huvis). lia.
  - intros x. rewrite elem_of_app, list_elem_of_singleton.
    intros [Hx | ->]; [by apply Hacc |].
    constructor. intros y (d & Hd & Hy).
    apply Hacc. eapply unvisited_zero; [| done].
    pose proof (Hdeg u d 0 Hd Hu0). lia.
Qed.

Lemma kahn_loop_inv (fuel : nat) (st : kahn_state) :
  kahn_inv plan st → kahn_inv plan (kahn_loop fuel plan st).
Proof.
  revert st. induction fuel as [| fuel IH]; intros st Hinv; simpl; [done |].
  destruct (kahn_step plan st) as [st' |] eqn:Hstep; [| done].
  apply IH. by eapply kahn_step_inv.
Qed.

(** A step on a cycle is not accessible through its dependencies. *)
Lemma Acc_no_cycle (v : nat) :
  Acc (dependency_of plan) v → ¬ tc (depends_on plan) v v.
Proof.
  induction 1 as [v _ IH]. intros Hcyc.
  inversion Hcyc as [? ? Hvv | ? y ? Hvy Hyv]; subst.
  - by apply (IH v Hvv).
  - apply (IH y Hvy). by eapply tc_r.
Qed.

Lemma kahn_visits_in_range (x : nat) : x ∈ kahn plan → x < length plan.
Proof.
  intros Hx. destruct (kahn_loop_inv (length plan) _ kahn_init_inv)
    as [Hlen Hzero _ _ _].
  rewrite <- Hlen. eapply lookup_lt_Some, Hzero.
  rewrite elem_of_app. by right.
Qed.

Lemma kahn_NoDup : NoDup (kahn plan).
Proof.
  destruct (kahn_loop_inv (length plan) _ kahn_init_inv)
    as [_ _ _ Hnd _ _].
  by apply NoDup_app in Hnd as (_ & _ & ?).
Qed.

(** A step on a cycle is never visited. *)
Lemma kahn_skips_cycle (v : nat) :
  tc (depends_on plan) v v → v ∉ kahn plan.
Proof.
  intros Hcyc Hv. apply (Acc_no_cycle v); [| done].
  by apply (inv_acc _ _ (kahn_loop_inv (length plan) _ kahn_init_inv)).
Qed.

Lemma has_cycle_not_dag : has_cycle plan → is_dag plan = false.
Proof.
  intros [v Hcyc]. unfold is_dag. apply bool_decide_eq_false.
  assert (Hv : v < length plan).
  { inversion Hcyc as [? ? (d & Hd & _) | ? ? ? (d & Hd & _) _]; subst;
      by eapply lookup_lt_Some. }
  assert (Hle : length (v :: kahn plan) ≤ length (seq 0 (length plan))).
  { apply submseteq_length, NoDup_submseteq.
    - constructor; [by apply kahn_skips_cycle | apply kahn_NoDup].
    - intros x. rewrite elem_of_cons, elem_of_seq.
      intros [-> | Hx%kahn_visits_in_range]; lia. }
  rewrite length_seq in Hle. simpl in Hle. lia.
Qed.

(** Queued and visited steps are positions of the plan, each once. *)
Lemma kahn_inv_bound (st : kahn_state) :
  kahn_inv plan st → length (queue st ++ visited st) ≤ length plan.
Proof.
  intros [Hlen Hzero _ Hnd _ _].
  rewrite <- (length_seq (length plan) 0).
  apply submseteq_length, NoDup_submseteq; [done |].
  intros x Hx. apply elem_of_seq. split; [lia |]. simpl.
  rewrite <- Hlen. by eapply lookup_lt_Some, Hzero.
Qed.

(** With as many rounds as steps not yet visited the queue runs empty. *)
Lemma kahn_loop_exhausts (fuel : nat) (st : kahn_state) :
  kahn_inv plan st → length plan ≤ length (visited st) + fuel →
  queue (kahn_loop fuel plan st) = [].
Proof.
  revert st. induction fuel as [| fuel IH]; intros st Hinv Hfuel; simpl.
  - pose proof (kahn_inv_bound st Hinv) as Hb. rewrite length_app in Hb.
    apply length_zero_iff_nil. lia.
  - destruct (kahn_step plan st) as [st' |] eqn:Hstep.
    + apply IH; [by eapply kahn_step_inv |].
      unfold kahn_step in Hstep. destruct (queue st); [done |].
      injection Hstep as <-. simpl. rewrite length_app. simpl. lia.
    + unfold kahn_step in Hstep. by destruct (queue st).
Qed.

Lemma kahn_queue_exhausted :
  queue (kahn_loop (length plan) plan (kahn_init plan)) = [].
Proof. apply kahn_loop_exhausts; [apply kahn_init_inv | simpl; lia]. Qed.

(** A step left unvisited has a dependency left unvisited. *)
Lemma unvisited_step_has_unvisited_dependency (v : nat) :
  refs_in_range plan → v < length plan → v ∉ kahn plan →
  ∃ dep, depends_on plan v dep ∧ dep < length plan ∧ dep ∉ kahn plan.
Proof.
  intros Hrange Hv Hnot. unfold kahn in *.
  pose proof (kahn_loop_inv (length plan) _ kahn_init_inv) as Hinv.
  pose proof kahn_queue_exhausted as Hq.
  set (st := kahn_loop (length plan) plan (kahn_init plan)) in *.
  destruct Hinv as [Hlen _ Hready _ Hdeg _].
  destruct (lookup_lt_is_Some_2 plan v Hv) as [d Hd].
  destruct (lookup_lt_is_Some_2 (indeg st) v) as [k Hk]; [lia |].
  pose proof (Hdeg v d k Hd Hk) as Hcount.
  destruct (decide (k = 0)) as [-> | Hpos].
  { apply Hready in Hk. rewrite Hq in Hk. done. }
  unfold unvisited in Hcount.
  destruct (filter (λ dep, dep ∉ visited st) (dependency_refs d))
    as [| dep rest] eqn:Hf; [simpl in Hcount; lia |].
  assert (Hin : dep ∈ filter (λ dep, dep ∉ visited st) (dependency_refs d))
    by (rewrite Hf; apply list_elem_of_here).
  apply list_elem_of_filter in Hin as [Hdep Hin].
  exists dep. split_and!; [by exists d | by eapply Hrange | done].
Qed.

(** From an unvisited step a chain of steps of any length starts. *)
Lemma unvisited_chain (m v : nat) :
  refs_in_range plan → v < length plan → v ∉ kahn plan →
  ∃ l, l !! 0 = Some v ∧ length l = S m ∧ dep_chain plan l
       ∧ Forall (λ x, x < length plan) l.
Proof.
  intros Hrange. revert v. induction m as [| m IH]; intros v Hv Hnot.
  - exists [v]. split_and!; [done | done | | by constructor].
    intros i a b _ Hb. by destruct i.
  - destruct (unvisited_step_has_unvisited_dependency v Hrange Hv Hnot)
      as (dep & Hdep & Hlt & Hnv).
    destruct (IH dep Hlt Hnv) as (l & Hhead & Hlen & Hchain & Hall).
    exists (v :: l). split_and!; [done | simpl; lia | | by constructor].
    intros [| i] a b Ha Hb; simpl in *.
    + injection Ha as <-. rewrite Hhead in Hb. by injection Hb as <-.
    + by eapply Hchain.
Qed.

(** Two positions of a chain are related by the transitive closure. *)
Lemma dep_chain_tc (l : list nat) (i n : nat) (a b : nat) :
  dep_chain plan l → l !! i = Some a → l !! (i + S n) = Some b →
  tc (depends_on plan) a b.
Proof.
  intros Hchain. revert i a. induction n as [| n IH]; intros i a Ha Hb.
  - apply tc_once. apply (Hchain i); [done |].
    by replace (S i) with (i + 1) by lia.
  - destruct (lookup_lt_is_Some_2 l (S i)) as [c Hc].
    { apply lookup_lt_Some in Hb. lia. }
    eapply tc_l; [by apply (Hchain i a c) |].
    apply (IH (S i)); [done |].
    by replace (S i + S n) with (i + S (S n)) by lia.
Qed.

(** Without a cycle a chain has no repetition. *)
Lemma dep_chain_NoDup (l : list nat) :
  ¬ has_cycle plan → dep_chain plan l → NoDup l.
Proof.
  intros Hacyc Hchain. apply NoDup_alt. intros i j x Hi Hj.
  destruct (Nat.lt_trichotomy i j) as [Hlt | [-> | Hgt]]; [| done |];
    exfalso; apply Hacyc; exists x.
  - apply (dep_chain_tc l i (j - i - 1)); [done | done |].
    by replace (i + S (j - i - 1)) with j by lia.
  - apply (dep_chain_tc l j (i - j - 1)); [done | done |].
    by replace (j + S (i - j - 1)) with i by lia.
Qed.

(** Every step of a plan without a cycle, whose refs are positions of
    the plan, is visited. *)
Lemma kahn_visits_all (v : nat) :
  refs_in_range plan → ¬ has_cycle plan → v < length plan → v ∈ kahn plan.
Proof.
  intros Hrange Hacyc Hv.
  destruct (decide (v ∈ kahn plan)) as [| Hnot]; [done | exfalso].
  destruct (unvisited_chain (length plan) v Hrange Hv Hnot)
    as (l & _ & Hlen & Hchain & Hall).
  assert (Hle : length l ≤ length (seq 0 (length plan))).
  { apply submseteq_length, NoDup_submseteq;
      [by apply dep_chain_NoDup |].
    intros x Hx. apply elem_of_seq. rewrite Forall_forall in Hall.
    specialize (Hall x Hx). lia. }
  rewrite length_seq in Hle. lia.
Qed.

Lemma acyclic_is_dag :
  refs_in_range plan → ¬ has_cycle plan → is_dag plan = true.
Proof.
  intros Hrange Hacyc. unfold is_dag. apply bool_decide_eq_true.
  assert (H1 : length (kahn plan) ≤ length (seq 0 (length plan))).
  { apply submseteq_length, NoDup_submseteq; [apply kahn_NoDup |].
    intros x Hx%kahn_visits_in_range. apply elem_of_seq. lia. }
  assert (H2 : length (seq 0 (length plan)) ≤ length (kahn plan)).
  { apply submseteq_length, NoDup_submseteq; [apply NoDup_seq |].
    intros x [_ Hx]%elem_of_seq. apply kahn_visits_all; [done | done | lia]. }
  rewrite length_seq in H1, H2. lia.
Qed.

End KahnFacts.

Section CompilerFacts.
Import Engine.

(** C2. On a plan whose dependency relation has a cycle, Kahn's algorithm
    exhausts its queue and leaves a step unvisited; the plan is rejected
    with [PlanInvalidError], and [submit] returns the store as it was: no
    step is created. *)
Theorem cyclic_plan_rejected (store : gmap nat Task) (task_id : nat)
  (title : string) (priority : Z) (plan : list step_descriptor) :
  has_cycle plan →
  queue (kahn_loop (length plan) plan (kahn_init plan)) = []
  ∧ (∃ u, (u < length plan)%nat ∧ u ∉ kahn plan)
  ∧ compile plan = inl PlanInvalidError
  ∧ submit store task_id title priority plan
    = (Rejected PlanInvalidError, store).
Proof.
  intros Hcyc. pose proof (has_cycle_not_dag plan Hcyc) as Hdag.
  assert (Hcomp : compile plan = inl PlanInvalidError)
    by (unfold compile; by rewrite Hdag).
  split_and!; [apply kahn_queue_exhausted | | done
              | unfold submit; by rewrite Hcomp].
  destruct Hcyc as [v Hv]. exists v. split.
  - inversion Hv as [? ? (d & Hd & _) | ? ? ? (d & Hd & _) _]; subst;
      by eapply lookup_lt_Some.
  - by apply kahn_skips_cycle.
Qed.

Lemma cyclic_plan_rejected_witness :
  has_cycle cyclic_plan
  ∧ queue (kahn_loop (length cyclic_plan) cyclic_plan
             (kahn_init cyclic_plan)) = []
  ∧ (∃ u, (u < length cyclic_plan)%nat ∧ u ∉ kahn cyclic_plan)
  ∧ compile cyclic_plan = inl PlanInvalidError
  ∧ submit ∅ 7%nat "two steps" 1 cyclic_plan
    = (Rejected PlanInvalidError, ∅).
Proof.
  assert (Hcyc : has_cycle cyclic_plan).
  { exists 0%nat. eapply tc_l; [| apply tc_once].
    - eexists. split; [reflexivity |]. apply list_elem_of_here.
    - eexists. split; [reflexivity |]. apply list_elem_of_here. }
  split; [exact Hcyc |].
  exact (cyclic_plan_rejected ∅ 7%nat "two steps" 1 cyclic_plan Hcyc).
Defined.

(** A plan without a cycle whose refs are positions of the plan and whose
    tools are registered is accepted, one step per descriptor. *)
Lemma acyclic_plan_accepted (plan : list step_descriptor) :
  refs_in_range plan → ¬ has_cycle plan →
  Forall (λ d, is_Some (Schema.describe (tool_name d))) plan →
  ∃ steps, compile plan = inr steps ∧ length steps = length plan.
Proof.
  intros Hrange Hacyc Htools. unfold compile.
  rewrite (acyclic_is_dag plan Hrange Hacyc). simpl.
  rewrite bool_decide_eq_true_2 by done.
  eexists. split; [done |]. by rewrite length_fmap.
Qed.

(** The diamond plan is accepted: its steps are created, ready when they
    have no dependency and pending otherwise. *)
Example diamond_plan_accepted :
  match compile diamond_plan with
  | inr steps => Some (status <$> steps)
  | inl _ => None
  end = Some [ready; ready; pending]
  ∧ kahn diamond_plan = [0; 1; 2]%nat.
Proof. split; reflexivity. Qed.

(** A plan that names a tool missing from the registry. *)
Example unknown_tool_rejected :
  compile [step_of "teleport" []] = inl UnknownToolError.
Proof. reflexivity. Qed.

End CompilerFacts.

(** ** The [tasks] table *)

Section SchemaFacts.
Import Schema.

Lemma exec_checked (s : statement) (table : list task_row) :
  Forall (λ r, tasks_check r = true) table →
  Forall (λ r, tasks_check r = true) (exec s table).
Proof.
  intros Hall. destruct s as [r | i f]; simpl.
  - destruct (tasks_check r) eqn:Hr; [| done].
    apply Forall_app. split; [done |]. by constructor.
  - destruct (table !! i) as [r |]; [| done].
    destruct (tasks_check (f r)) eqn:Hr; [| done].
    by apply Forall_insert.
Qed.

Lemma exec_all_checked (ss : list statement) (table : list task_row) :
  Forall (λ r, tasks_check r = true) table →
  Forall (λ r, tasks_check r = true) (exec_all ss table).
Proof.
  revert table. induction ss as [| s ss IH]; intros table Hall; simpl;
    [done |].
  apply IH. by apply exec_checked.
Qed.

Lemma tasks_check_progress (r : task_row) (p : Z) :
  tasks_check r = true → progress_percentage r = Some p → 0 ≤ p ≤ 100.
Proof.
  unfold tasks_check. intros Hc Hp. rewrite Hp in Hc. simpl in Hc.
  apply andb_prop in Hc as [_ Hc]. apply andb_prop in Hc as [H0 H1].
  lia.
Qed.

(** Every stored row holds a progress between 0 and 100, or none. *)
Lemma stored_progress_bounds (ss : list statement) (row : task_row) (p : Z) :
  row ∈ exec_all ss [] → progress_percentage row = Some p → 0 ≤ p ≤ 100.
Proof.
  intros Hrow Hp. apply (tasks_check_progress row); [| done].
  pose proof (exec_all_checked ss [] (Forall_nil_2 _)) as Hall.
  rewrite Forall_forall in Hall. by apply Hall.
Qed.

(** An update that would store 150 fails and the row keeps its value. *)
Example update_out_of_range :
  exec_all
    [Insert (default_task "report");
     Update 0 (λ r, {| title := title r; status := status r;
                       priority := priority r;
                       progress_percentage := Some 150;
                       error_message := error_message r |})] []
  = [default_task "report"].
Proof. reflexivity. Qed.

End SchemaFacts.

(** ** The progress of a task: the page and the table *)

Section ProgressFacts.
Import JS TasksPage.

Lemma handleTaskProgress_lookup (progressData : task_progress)
  (tasks : list jsobj) (i : nat) (t : jsobj) :
  tasks !! i = Some t →
  handleTaskProgress progressData tasks !! i
  = Some (if strict_eq (get t "id") (task_id progressData)
          then <["current_step" := current_step progressData]>
                 (<["progress" := progress progressData]> t)
          else t).
Proof.
  intros Hi. unfold handleTaskProgress. by rewrite list_lookup_fmap, Hi.
Qed.

(** C7, as the specification states it, fails on the page: a progress
    event that carries 150 for the failed mock task, none of whose three
    steps is completed, leaves 150 as the task's progress. *)
Lemma handleTaskProgress_stores_any_progress :
  ¬ progress_event_spec (JStr "3")
      (handleTaskProgress
         {| task_id := JStr "3"; progress := JNum 150;
            current_step := JStr "Analizar consultas" |}
         [mockTask2; mockTask3]).
Proof.
  intros Hspec.
  pose proof (handleTaskProgress_lookup
                {| task_id := JStr "3"; progress := JNum 150;
                   current_step := JStr "Analizar consultas" |}
                [mockTask2; mockTask3] 1%nat mockTask3 eq_refl) as Hlook.
  simpl in Hlook. rewrite mockTask3_id in Hlook.
  destruct (Hspec 1%nat _ Hlook) as (p & Hp & _ & Hbound).
  - rewrite !get_insert_ne by done. apply mockTask3_id.
  - rewrite get_insert_ne, get_insert_eq in Hp by done.
    injection Hp as <-. lia.
Qed.

(** The mock data itself does not follow the formula: the running task
    holds 65 with two of its six steps completed. *)
Example mockTask2_progress_not_computed :
  get mockTask2 "progress" = JNum 65
  ∧ steps_completed mockTask2 = 2 ∧ steps_total mockTask2 = 6.
Proof. split_and!; by vm_compute. Qed.

(** C7, amended. [handleTaskProgress] gives the task of the event the
    progress and the current step that the event carries, as received,
    and changes no other property of it, its steps included; every other
    task is kept.  A row of the [tasks] table, whatever statements ran,
    holds a progress between 0 and 100 or none. *)
Theorem progress_stored_as_received (progressData : task_progress)
  (tasks : list jsobj) (i : nat) (t : jsobj)
  (statements : list Schema.statement) (row : Schema.task_row) (p : Z) :
  tasks !! i = Some t →
  row ∈ Schema.exec_all statements [] →
  Schema.progress_percentage row = Some p →
  (∃ t', handleTaskProgress progressData tasks !! i = Some t' ∧
     if strict_eq (get t "id") (task_id progressData)
     then get t' "progress" = progress progressData
          ∧ get t' "current_step" = current_step progressData
          ∧ steps_of t' = steps_of t
          ∧ delete "progress" (delete "current_step" t')
            = delete "progress" (delete "current_step" t)
     else t' = t)
  ∧ 0 ≤ p ≤ 100.
Proof.
  intros Hi Hrow Hp. split; [| by eapply stored_progress_bounds].
  rewrite (handleTaskProgress_lookup _ _ _ _ Hi). eexists. split; [done |].
  destruct (strict_eq (get t "id") (task_id progressData)); [| done].
  split_and!.
  - rewrite get_insert_ne by done. apply get_insert_eq.
  - apply get_insert_eq.
  - by rewrite !steps_of_insert_ne.
  - rewrite delete_insert_eq.
    rewrite (delete_delete _ "progress" "current_step").
    rewrite delete_insert_eq. apply delete_delete.
Qed.

Lemma progress_stored_as_received_witness :
  [mockTask2; mockTask3] !! 0%nat = Some mockTask2
  ∧ Schema.default_task "report"
      ∈ Schema.exec_all [Schema.Insert (Schema.default_task "report")] []
  ∧ Schema.progress_percentage (Schema.default_task "report") = Some 0
  ∧ (∃ t', handleTaskProgress
             {| task_id := JStr "2"; progress := JNum 150;
                current_step := JStr "Crear endpoints CRUD" |}
             [mockTask2; mockTask3] !! 0%nat = Some t' ∧
       if strict_eq (get mockTask2 "id")
            (task_id {| task_id := JStr "2"; progress := JNum 150;
                        current_step := JStr "Crear endpoints CRUD" |})
       then get t' "progress"
            = progress {| task_id := JStr "2"; progress := JNum 150;
                          current_step := JStr "Crear endpoints CRUD" |}
            ∧ get t' "current_step"
              = current_step {| task_id := JStr "2"; progress := JNum 150;
                                current_step := JStr "Crear endpoints CRUD" |}
            ∧ steps_of t' = steps_of mockTask2
            ∧ delete "progress" (delete "current_step" t')
              = delete "progress" (delete "current_step" mockTask2)
       else t' = mockTask2)
  ∧ 0 ≤ 0 ≤ 100.
Proof.
  assert (Hrow : Schema.default_task "report"
                 ∈ Schema.exec_all
                     [Schema.Insert (Schema.default_task "report")] [])
    by (vm_compute; apply list_elem_of_here).
  split; [reflexivity |]. split; [exact Hrow |]. split; [reflexivity |].
  exact (progress_stored_as_received
           {| task_id := JStr "2"; progress := JNum 150;
              current_step := JStr "Crear endpoints CRUD" |}
           [mockTask2; mockTask3] 0%nat mockTask2
           [Schema.Insert (Schema.default_task "report")]
           (Schema.default_task "report") 0 eq_refl Hrow eq_refl).
Defined.

End ProgressFacts.

(** ** The scheduler and the state tracker *)

Section SchedulerFacts.
Import Engine.
Local Open Scope nat_scope.

Variable max_retries : string → nat.

(** Case analysis on the membership of a status in a literal list. *)
Ltac in_list H :=
  repeat (apply elem_of_cons in H as [H | H]; [try discriminate H |]);
  try (by apply elem_of_nil in H).


Lemma keeps_refl (s : Step) : keeps s s.
Proof. by split_and!. Qed.

Lemma keeps_trans (s1 s2 s3 : Step) : keeps s1 s2 → keeps s2 s3 → keeps s1 s3.
Proof.
  intros (Hd1 & Ht1 & Hc1) (Hd2 & Ht2 & Hc2).
  split_and!; [congruence | congruence | auto].
Qed.

Lemma evolves_refl (steps : list Step) : evolves steps steps.
Proof. split; [done |]. intros j s Hs. exists s. split; [done | apply keeps_refl]. Qed.

Lemma evolves_trans (l1 l2 l3 : list Step) :
  evolves l1 l2 → evolves l2 l3 → evolves l1 l3.
Proof.
  intros [Hlen1 H1] [Hlen2 H2]. split; [congruence |].
  intros j s3 Hs3. destruct (H2 j s3 Hs3) as (s2 & Hs2 & Hk2).
  destruct (H1 j s2 Hs2) as (s1 & Hs1 & Hk1).
  exists s1. split; [done | by eapply keeps_trans].
Qed.

Lemma evolves_insert (steps : list Step) (id : nat) (s s' : Step) :
  steps !! id = Some s → keeps s s' → evolves steps (<[id := s']> steps).
Proof.
  intros Hs Hk. split; [apply length_insert |].
  intros j sj Hj. destruct (decide (j = id)) as [-> | Hne].
  - rewrite list_lookup_insert_eq in Hj by (by eapply lookup_lt_Some).
    injection Hj as <-. by exists s.
  - rewrite list_lookup_insert_ne in Hj by done.
    exists sj. split; [done | apply keeps_refl].
Qed.

Lemma evolves_fmap (f : Step → Step) (steps : list Step) :
  (∀ s, keeps s (f s)) → evolves steps (f <$> steps).
Proof.
  intros Hf. split; [apply length_fmap |].
  intros j s' Hj. rewrite list_lookup_fmap in Hj.
  destruct (steps !! j) as [s |]; [| done]. injection Hj as <-.
  by exists s.
Qed.

Lemma keeps_set_status (st : step_status) (s : Step) :
  status s ≠ completed → keeps s (set_status st s).
Proof. intros Hne. by split_and!. Qed.

Lemma skip_pass_evolves (steps : list Step) : evolves steps (skip_pass steps).
Proof.
  apply evolves_fmap. intros s.
  case_bool_decide as Hst; simpl; [| apply keeps_refl].
  case_bool_decide; [| apply keeps_refl].
  apply keeps_set_status.
  intros Hc. rewrite Hc in Hst. in_list Hst.
Qed.

Lemma cascade_evolves (steps : list Step) : evolves steps (cascade steps).
Proof.
  unfold cascade. generalize (length steps). intros n.
  induction n as [| n IH]; simpl; [apply evolves_refl |].
  eapply evolves_trans; [apply IH | apply skip_pass_evolves].
Qed.


Lemma skip_pass_running (steps : list Step) :
  no_new_running steps (skip_pass steps).
Proof.
  intros j s' Hj Hrun. unfold skip_pass in Hj.
  rewrite list_lookup_fmap in Hj.
  destruct (steps !! j) as [s |] eqn:Hs; [| done]. injection Hj as <-.
  exists s. split; [done |].
  destruct (_ && _); [done | done].
Qed.

Lemma no_new_running_trans (l1 l2 l3 : list Step) :
  no_new_running l1 l2 → no_new_running l2 l3 → no_new_running l1 l3.
Proof.
  intros H1 H2 j s3 Hs3 Hrun.
  destruct (H2 j s3 Hs3 Hrun) as (s2 & Hs2 & Hrun2). eauto.
Qed.

Lemma cascade_running (steps : list Step) :
  no_new_running steps (cascade steps).
Proof.
  unfold cascade. generalize (length steps). intros n.
  induction n as [| n IH]; simpl.
  - intros j s Hs Hrun. by exists s.
  - eapply no_new_running_trans; [apply IH | apply skip_pass_running].
Qed.

Lemma insert_running (steps : list Step) (id : nat) (s' : Step) :
  status s' ≠ running → no_new_running steps (<[id := s']> steps).
Proof.
  intros Hne j sj Hj Hrun. destruct (decide (j = id)) as [-> | Hj'].
  - destruct (decide (id < length steps)).
    + rewrite list_lookup_insert_eq in Hj by done. by injection Hj as <-.
    + rewrite list_insert_ge in Hj by lia. by exists sj.
  - rewrite list_lookup_insert_ne in Hj by done. by exists sj.
Qed.

Lemma fmap_running (f : Step → Step) (steps : list Step) :
  (∀ s, status (f s) = running → status s = running) →
  no_new_running steps (f <$> steps).
Proof.
  intros Hf j s' Hj Hrun. rewrite list_lookup_fmap in Hj.
  destruct (steps !! j) as [s |] eqn:Hs; [| done]. injection Hj as <-.
  exists s. split; [done | by apply Hf].
Qed.

(** Every event lets the steps evolve. *)
Lemma apply_event_evolves (ev : event) (t : Task) :
  evolves (steps t) (steps (apply_event max_retries ev t)).
Proof.
  destruct ev as [id | id | id err | id err | | id |]; simpl;
    try (destruct (steps t !! id) as [s |] eqn:Hs; [| apply evolves_refl]);
    repeat (case_decide; [| apply evolves_refl]); simpl;
    try apply evolves_refl.
  - destruct H as (Hst & _). apply (evolves_insert _ _ s); [done |].
    apply keeps_set_status. intros Hc. rewrite Hc in Hst. in_list Hst.
  - apply (evolves_insert _ _ s); [done |]. by split_and!.
  - case_decide; simpl.
    + apply (evolves_insert _ _ s); [done |]. split_and!; try done.
      simpl. congruence.
    + eapply evolves_trans; [| apply cascade_evolves].
      apply (evolves_insert _ _ s); [done |]. split_and!; try done.
      simpl. congruence.
  - eapply evolves_trans; [| apply cascade_evolves].
    apply (evolves_insert _ _ s); [done |]. split_and!; try done.
    simpl. congruence.
  - apply evolves_fmap. intros s.
    destruct (is_active (status s)) eqn:Ha; [| apply keeps_refl].
    apply keeps_set_status. intros Hc. by rewrite Hc in Ha.
  - apply evolves_fmap. intros s.
    case_bool_decide as Hst; [| apply keeps_refl].
    split_and!; try done. simpl. intros Hc. rewrite Hc in Hst. in_list Hst.
Qed.

(** A step that is running after an event was running before it, or was
    dispatched by it with its guard satisfied. *)
Lemma apply_event_running (ev : event) (t : Task) (j : nat) (s' : Step) :
  steps (apply_event max_retries ev t) !! j = Some s' → status s' = running →
  has_status (steps t) running j
  ∨ ∃ s, ev = Dispatch j ∧ steps t !! j = Some s ∧ may_dispatch t j s.
Proof.
  assert (Hsame : steps t !! j = Some s' → status s' = running →
                  has_status (steps t) running j) by (intros; by exists s').
  destruct ev as [id | id | id err | id err | | id |]; simpl;
    try (destruct (steps t !! id) as [s |] eqn:Hs; [| by left; auto]);
    repeat (case_decide; [| by left; auto]); simpl;
    try (by left; auto).
  - intros Hj Hrun. destruct (decide (j = id)) as [-> | Hne].
    + right. by exists s.
    + rewrite list_lookup_insert_ne in Hj by done. left. by exists s'.
  - intros Hj Hrun. left. by eapply (insert_running _ id (set_status completed s)).
  - case_decide; simpl; intros Hj Hrun; left.
    + by eapply (insert_running _ id (set_status ready (bump_retry s))).
    + eapply no_new_running_trans; [| apply cascade_running | done..].
      by apply insert_running.
  - intros Hj Hrun. left.
    eapply no_new_running_trans; [| apply cascade_running | done..].
    by apply insert_running.
  - intros Hj Hrun. left. eapply fmap_running; [| done..].
    intros s. cbv beta. destruct (is_active (status s)); simpl;
      [by intros [=] | done].
  - intros Hj Hrun. left. eapply fmap_running; [| done..].
    intros s. cbv beta. case_bool_decide; simpl; [by intros [=] | done].
Qed.

Lemma apply_event_approvals (ev : event) (t : Task) (id : nat) :
  id ∈ approvals (apply_event max_retries ev t) →
  id ∈ approvals t ∨ ev = ApproveStep id.
Proof.
  destruct ev as [i | i | i err | i err | | i |]; simpl;
    try (destruct (steps t !! i) as [s |]; [| by left]);
    repeat case_decide; simpl; try (by left).
  rewrite elem_of_union, elem_of_singleton. intros [-> | ?]; auto.
Qed.

Lemma approvals_grow (ev : event) (t : Task) (id : nat) :
  id ∈ approvals t → id ∈ approvals (apply_event max_retries ev t).
Proof.
  destruct ev as [i | i | i err | i err | | i |]; simpl;
    try (destruct (steps t !! i) as [s |]; [| done]);
    repeat case_decide; simpl; try done.
  intros ?. apply elem_of_union. by right.
Qed.

(** The stored progress is the one computed from the stored steps. *)
Lemma apply_event_progress (ev : event) (t : Task) :
  progress_percent t = progress_of (steps t) →
  progress_percent (apply_event max_retries ev t)
  = progress_of (steps (apply_event max_retries ev t)).
Proof.
  destruct ev as [i | i | i err | i err | | i |]; simpl;
    try (destruct (steps t !! i) as [s |]; [| done]);
    repeat case_decide; simpl; done.
Qed.


Lemma has_status_completed_evolves (steps steps' : list Step) (d : nat) :
  evolves steps steps' →
  has_status steps completed d → has_status steps' completed d.
Proof.
  intros [Hlen Hev] (sd & Hsd & Hc).
  destruct (lookup_lt_is_Some_2 steps' d) as [sd' Hsd'].
  { rewrite Hlen. by eapply lookup_lt_Some. }
  destruct (Hev d sd' Hsd') as (s0 & Hs0 & _ & _ & Hkeep).
  exists sd'. split; [done |]. apply Hkeep. congruence.
Qed.

Lemma deps_completed_evolves (steps steps' : list Step) (s s' : Step) :
  evolves steps steps' → dependency_ids s' = dependency_ids s →
  deps_completed steps s → deps_completed steps' s'.
Proof.
  intros Hev Hdeps Hall. unfold deps_completed in *. rewrite Hdeps.
  eapply Forall_impl; [exact Hall |].
  intros d. by apply has_status_completed_evolves.
Qed.

Lemma running_ok_step (ev : event) (t : Task) :
  running_ok t → running_ok (apply_event max_retries ev t).
Proof.
  intros Hok id s' Hs' Hrun.
  pose proof (apply_event_evolves ev t) as Hev.
  destruct (proj2 Hev id s' Hs') as (s & Hs & Hdeps & Htool & _).
  assert (Hbefore : deps_completed (steps t) s
                    ∧ (gated (tool s) = true → id ∈ approvals t)).
  { destruct (apply_event_running ev t id s' Hs' Hrun)
      as [(s0 & Hs0 & Hrun0) | (s0 & _ & Hs0 & Hmay)].
    - assert (s0 = s) as -> by congruence. by apply (Hok id).
    - assert (s0 = s) as -> by congruence.
      destruct Hmay as (_ & ? & _ & ?). done. }
  destruct Hbefore as [Hd Hg]. split.
  - by eapply deps_completed_evolves.
  - rewrite Htool. intros Hgated. by apply approvals_grow, Hg.
Qed.

Lemma running_ok_run (trace : list event) (t : Task) :
  running_ok t → running_ok (run max_retries trace t).
Proof.
  revert t. induction trace as [| ev trace IH]; intros t Hok; simpl; [done |].
  apply IH. by apply running_ok_step.
Qed.

Lemma compile_statuses (plan : list step_descriptor) (steps0 : list Step)
  (id : nat) (s : Step) :
  compile plan = inr steps0 → steps0 !! id = Some s →
  status s ∈ [pending; ready].
Proof.
  unfold compile. destruct (negb (is_dag plan)); [done |].
  case_bool_decide; [| done]. intros [= <-]. rewrite list_lookup_fmap.
  destruct (plan !! id) as [d |]; [| done]. intros [= <-]. simpl.
  destruct (dependency_refs d); set_solver.
Qed.

Lemma new_task_running_ok (plan : list step_descriptor) (steps0 : list Step)
  (title : string) (priority : Z) :
  compile plan = inr steps0 → running_ok (new_task title priority steps0).
Proof.
  intros Hc id s Hs Hrun. simpl in Hs.
  pose proof (compile_statuses plan steps0 id s Hc Hs) as Hst.
  rewrite Hrun in Hst. in_list Hst.
Qed.

Lemma approvals_run (trace : list event) (t : Task) (id : nat) :
  id ∈ approvals (run max_retries trace t) →
  id ∈ approvals t ∨ ApproveStep id ∈ trace.
Proof.
  revert t. induction trace as [| ev trace IH]; intros t; simpl; [by left |].
  intros [Hin | Hin]%IH.
  - apply apply_event_approvals in Hin as [? | ->]; [by left | right].
    apply list_elem_of_here.
  - right. by apply list_elem_of_further.
Qed.

Lemma progress_run (trace : list event) (t : Task) :
  progress_percent t = progress_of (steps t) →
  progress_percent (run max_retries trace t)
  = progress_of (steps (run max_retries trace t)).
Proof.
  revert t. induction trace as [| ev trace IH]; intros t Hp; simpl; [done |].
  apply IH. by apply apply_event_progress.
Qed.

Lemma progress_of_bounds (steps : list Step) :
  (0 <= progress_of steps <= 100)%Q.
Proof.
  unfold progress_of, completed_steps, total_steps.
  pose proof (length_filter (λ s, status s = completed) steps) as Hle.
  set (c := length (filter _ steps)) in *. set (n := length steps) in *.
  destruct (decide (n = 0)) as [Hn | Hn].
  - assert (c = 0) as -> by lia. rewrite Hn. by vm_compute.
  - assert (Hpos : (0 < inject_Z (Z.of_nat n))%Q).
    { rewrite <- (Zlt_Qlt 0). lia. }
    assert (H0 : (0 <= inject_Z (Z.of_nat c) / inject_Z (Z.of_nat n))%Q).
    { apply Qle_shift_div_l; [done |]. rewrite Qmult_0_l.
      rewrite <- (Zle_Qle 0). lia. }
    assert (H1 : (inject_Z (Z.of_nat c) / inject_Z (Z.of_nat n) <= 1)%Q).
    { apply Qle_shift_div_r; [done |]. rewrite Qmult_1_l.
      rewrite <- Zle_Qle. lia. }
    split.
    + apply Qmult_le_0_compat; [done | by vm_compute].
    + apply Qle_trans with (1 * 100)%Q; [| by vm_compute].
      apply Qmult_le_compat_r; [done | by vm_compute].
Qed.

(** C1. In a task run from a compiled plan, a step that is running after
    an event has all its dependencies completed, and when the event is
    the one that made it running they were completed before the event. *)
Theorem running_step_has_completed_dependencies
  (plan : list step_descriptor) (title : string) (priority : Z)
  (steps0 : list Step) (trace : list event) (ev : event)
  (id : nat) (s' : Step) :
  compile plan = inr steps0 →
  let t := run max_retries trace (new_task title priority steps0) in
  let t' := apply_event max_retries ev t in
  steps t' !! id = Some s' → status s' = running →
  deps_completed (steps t') s'
  ∧ (¬ has_status (steps t) running id → deps_completed (steps t) s').
Proof.
  intros Hc t t' Hs' Hrun.
  assert (Hok : running_ok t)
    by (by eapply running_ok_run, new_task_running_ok).
  split.
  - by apply (running_ok_step ev t Hok id s').
  - intros Hnot.
    destruct (apply_event_running ev t id s' Hs' Hrun)
      as [? | (s & _ & Hs & _ & Hdeps & _)]; [done |].
    destruct (proj2 (apply_event_evolves ev t) id s' Hs')
      as (s0 & Hs0 & Hd & _).
    assert (s0 = s) as -> by congruence.
    unfold deps_completed in *. by rewrite Hd.
Qed.

(** C3, amended. The catalogue lists [shell_exec] as moderate with
    confirmation required, so the gate applies to it; in a task run from
    a compiled plan, a [shell_exec] step that an event makes running has
    had [ApproveStep] for its id among the earlier events. *)
Theorem shell_exec_step_runs_after_approval
  (plan : list step_descriptor) (title : string) (priority : Z)
  (steps0 : list Step) (trace : list event) (ev : event)
  (id : nat) (s' : Step) :
  compile plan = inr steps0 →
  let t := run max_retries trace (new_task title priority steps0) in
  let t' := apply_event max_retries ev t in
  steps t' !! id = Some s' → tool s' = "shell_exec" →
  status s' = running → ¬ has_status (steps t) running id →
  Schema.describe "shell_exec"
  = Some {| Schema.name := "shell_exec"; Schema.category := "system";
            Schema.level := Schema.moderate;
            Schema.requires_confirmation := true |}
  ∧ gated "shell_exec" = true
  ∧ ApproveStep id ∈ trace.
Proof.
  intros Hc t t' Hs' Htool Hrun Hnot. split; [done |]. split; [done |].
  destruct (apply_event_running ev t id s' Hs' Hrun)
    as [? | (s & _ & Hs & _ & _ & _ & Hgate)]; [done |].
  destruct (proj2 (apply_event_evolves ev t) id s' Hs')
    as (s0 & Hs0 & _ & Ht & _).
  assert (s0 = s) as -> by congruence.
  rewrite <- Ht, Htool in Hgate. specialize (Hgate eq_refl).
  apply approvals_run in Hgate as [Hin | Hin]; [| done].
  simpl in Hin. by apply not_elem_of_empty in Hin.
Qed.

(** The state tracker of the specification, which the sources do not
    hold: in a task run from a compiled plan the progress is the number
    of completed steps over the number of steps, times 100, and lies
    between 0 and 100; and a row of the [tasks] table, whatever statements
    ran, holds a progress between 0 and 100 or none. *)
Theorem progress_tracks_completed_steps
  (plan : list step_descriptor) (title : string) (priority : Z)
  (steps0 : list Step) (trace : list event)
  (statements : list Schema.statement) (row : Schema.task_row) (p : Z) :
  compile plan = inr steps0 →
  row ∈ Schema.exec_all statements [] →
  Schema.progress_percentage row = Some p →
  let t := run max_retries trace (new_task title priority steps0) in
  progress_percent t
  = (inject_Z (Z.of_nat (completed_steps (steps t)))
     / inject_Z (Z.of_nat (total_steps (steps t))) * 100)%Q
  ∧ (0 <= progress_percent t <= 100)%Q
  ∧ (0 ≤ p ≤ 100)%Z.
Proof.
  intros Hc Hrow Hp t.
  assert (Heq : progress_percent t = progress_of (steps t))
    by (by apply progress_run).
  split; [exact Heq |]. split; [rewrite Heq; apply progress_of_bounds |].
  by eapply stored_progress_bounds.
Qed.

End SchedulerFacts.

Section SchedulerWitnesses.
Import Engine.

Lemma running_step_has_completed_dependencies_witness :
  compile diamond_plan = inr (compiled diamond_plan)
  ∧ steps (apply_event two_retries (Dispatch 2)
             (run two_retries sample_trace sample_task)) !! 2%nat
    = Some file_write_running
  ∧ status file_write_running = running
  ∧ deps_completed
      (steps (apply_event two_retries (Dispatch 2)
                (run two_retries sample_trace sample_task)))
      file_write_running
  ∧ (¬ has_status (steps (run two_retries sample_trace sample_task))
         running 2 →
     deps_completed (steps (run two_retries sample_trace sample_task))
       file_write_running).
Proof.
  assert (Hc : compile diamond_plan = inr (compiled diamond_plan))
    by reflexivity.
  assert (Hs : steps (apply_event two_retries (Dispatch 2)
                        (run two_retries sample_trace sample_task)) !! 2%nat
               = Some file_write_running)
    by (vm_compute; reflexivity).
  split; [exact Hc |]. split; [exact Hs |]. split; [reflexivity |].
  exact (running_step_has_completed_dependencies two_retries diamond_plan
           "report" 1 (compiled diamond_plan) sample_trace
           (Dispatch 2) 2%nat file_write_running Hc Hs eq_refl).
Defined.

(** Without the approval the dispatch of the [shell_exec] step is not
    enabled: the step stays ready; and the third step, whose
    dependencies are not completed, stays pending. *)
Example dispatch_blocked :
  status <$> steps (run two_retries [Dispatch 0; Dispatch 1; Dispatch 2]
                      sample_task)
  = [running; ready; pending].
Proof. by vm_compute. Qed.

(** C3, as the specification states it, fails on the catalogue: the
    [shell_exec] row is moderate, not dangerous. *)
Lemma shell_exec_is_not_dangerous :
  ¬ confirmation_gate_spec sample_task
      (apply_event two_retries (ApproveStep 1) sample_task) 1.
Proof.
  intros Hspec.
  destruct (Hspec (set_status ready shell_exec_running)) as [Hlevel _];
    [by vm_compute | reflexivity |].
  vm_compute in Hlevel. discriminate.
Qed.

Lemma shell_exec_step_runs_after_approval_witness :
  compile diamond_plan = inr (compiled diamond_plan)
  ∧ steps (apply_event two_retries (Dispatch 1)
             (run two_retries [Dispatch 0; ApproveStep 1] sample_task))
      !! 1%nat = Some shell_exec_running
  ∧ tool shell_exec_running = "shell_exec"
  ∧ status shell_exec_running = running
  ∧ ¬ has_status
        (steps (run two_retries [Dispatch 0; ApproveStep 1] sample_task))
        running 1
  ∧ Schema.describe "shell_exec"
    = Some {| Schema.name := "shell_exec"; Schema.category := "system";
              Schema.level := Schema.moderate;
              Schema.requires_confirmation := true |}
  ∧ gated "shell_exec" = true
  ∧ ApproveStep 1 ∈ [Dispatch 0; ApproveStep 1].
Proof.
  assert (Hc : compile diamond_plan = inr (compiled diamond_plan))
    by reflexivity.
  assert (Hs : steps (apply_event two_retries (Dispatch 1)
                        (run two_retries [Dispatch 0; ApproveStep 1]
                           sample_task)) !! 1%nat
               = Some shell_exec_running)
    by (vm_compute; reflexivity).
  assert (Hnot : ¬ has_status
                     (steps (run two_retries [Dispatch 0; ApproveStep 1]
                               sample_task)) running 1).
  { intros (s & Hs1 & Hrun). vm_compute in Hs1. injection Hs1 as <-.
    discriminate Hrun. }
  split; [exact Hc |]. split; [exact Hs |]. split; [reflexivity |].
  split; [reflexivity |]. split; [exact Hnot |].
  exact (shell_exec_step_runs_after_approval two_retries diamond_plan
           "report" 1 (compiled diamond_plan) [Dispatch 0; ApproveStep 1]
           (Dispatch 1) 1%nat shell_exec_running Hc Hs eq_refl eq_refl Hnot).
Defined.

Lemma progress_tracks_completed_steps_witness :
  compile diamond_plan = inr (compiled diamond_plan)
  ∧ Schema.default_task "report"
      ∈ Schema.exec_all [Schema.Insert (Schema.default_task "report")] []
  ∧ Schema.progress_percentage (Schema.default_task "report") = Some 0
  ∧ progress_percent (run two_retries sample_trace sample_task)
    = (inject_Z (Z.of_nat (completed_steps
                             (steps (run two_retries sample_trace
                                       sample_task))))
       / inject_Z (Z.of_nat (total_steps
                               (steps (run two_retries sample_trace
                                         sample_task)))) * 100)%Q
  ∧ (0 <= progress_percent (run two_retries sample_trace sample_task)
     <= 100)%Q
  ∧ (0 ≤ 0 ≤ 100)%Z.
Proof.
  assert (Hc : compile diamond_plan = inr (compiled diamond_plan))
    by reflexivity.
  assert (Hrow : Schema.default_task "report"
                 ∈ Schema.exec_all
                     [Schema.Insert (Schema.default_task "report")] [])
    by (vm_compute; apply list_elem_of_here).
  split; [exact Hc |]. split; [exact Hrow |]. split; [reflexivity |].
  exact (progress_tracks_completed_steps two_retries diamond_plan "report" 1
           (compiled diamond_plan) sample_trace
           [Schema.Insert (Schema.default_task "report")]
           (Schema.default_task "report") 0 Hc Hrow eq_refl).
Defined.

(** Two steps of three completed: two thirds of the way. *)
Example progress_after_two_steps :
  Qeq_bool (progress_percent (run two_retries sample_trace sample_task))
           (200 # 3) = true.
Proof. by vm_compute. Qed.

End SchedulerWitnesses.

(** ** More on the task page: handlers, filters, durations, dialog *)

Section TaskHandlerFacts.
Import JS TasksPage.
Local Open Scope list_scope.

Lemma strict_eq_true (a b : jsval) : strict_eq a b = true → a = b.
Proof.
  destruct a, b; simpl; try done; intros H%bool_decide_eq_true; by subst.
Qed.

Lemma get_spread (a b : jsobj) (k : string) :
  get (spread a b) k = match b !! k with Some v => v | None => get a k end.
Proof.
  unfold get, spread. rewrite lookup_union.
  destruct (b !! k), (a !! k); done.
Qed.

Lemma get_spread_same (a b : jsobj) (k : string) :
  strict_eq (get a k) (get b k) = true → get (spread a b) k = get a k.
Proof.
  intros H%strict_eq_true. rewrite get_spread. unfold get in *.
  destruct (b !! k); simpl in *; [done |]. by destruct (a !! k).
Qed.

(** X1. No handler of the task list adds, removes or reorders tasks, or
    changes the id of one. *)
Theorem handlers_keep_task_ids (tasks : list jsobj)
  (taskData : task_updated) (progressData : task_progress)
  (confirmed : bool) (taskId : jsval) :
  let ids := map (λ task : jsobj, get task "id") in
  ids (handleTaskUpdate taskData tasks) = ids tasks
  ∧ ids (handleTaskProgress progressData tasks) = ids tasks
  ∧ ids (cancelTask confirmed taskId tasks) = ids tasks
  ∧ ids (retryTask taskId tasks) = ids tasks.
Proof.
  cbv zeta. unfold handleTaskUpdate, handleTaskProgress, cancelTask, retryTask.
  split_and!; [| | destruct confirmed; [| done] |];
    rewrite map_map; apply map_ext; intros t;
    destruct (strict_eq _ _) eqn:Hid; try done.
  - by apply get_spread_same.
  - by rewrite !get_insert_ne.
  - by rewrite get_insert_ne.
  - by rewrite !get_insert_ne.
Qed.

Lemma map_unchanged {A} (f : A → A) (l : list A) :
  Forall (λ x, f x = x) l → map f l = l.
Proof.
  induction 1 as [| x l Hx _ IH]; simpl; [done |]. by rewrite Hx, IH.
Qed.

(** X2. An event or a command for an id that no task of the list has
    changes nothing: the task is not added. *)
Theorem unknown_task_id_changes_nothing (tasks : list jsobj)
  (taskId : jsval) (payload : jsobj) (progress current_step : jsval) :
  Forall (λ task, strict_eq (get task "id") taskId = false) tasks →
  get payload "id" = taskId →
  handleTaskUpdate {| task := payload |} tasks = tasks
  ∧ handleTaskProgress {| task_id := taskId; progress := progress;
                          current_step := current_step |} tasks = tasks
  ∧ cancelTask true taskId tasks = tasks
  ∧ retryTask taskId tasks = tasks.
Proof.
  intros Hall Hid.
  unfold handleTaskUpdate, handleTaskProgress, cancelTask, retryTask.
  simpl. rewrite Hid.
  split_and!; apply map_unchanged; eapply Forall_impl; try exact Hall;
    intros t Ht; simpl in Ht; by rewrite Ht.
Qed.

Lemma unknown_task_id_changes_nothing_witness :
  Forall (λ task, strict_eq (get task "id") (JStr "9") = false)
    [mockTask2; mockTask3]
  ∧ get ({["id" := JStr "9"; "status" := JStr "completed"]} : jsobj) "id"
    = JStr "9"
  ∧ (handleTaskUpdate
       {| task := {["id" := JStr "9"; "status" := JStr "completed"]} |}
       [mockTask2; mockTask3] = [mockTask2; mockTask3]
     ∧ handleTaskProgress
         {| task_id := JStr "9"; progress := JNum 50;
            current_step := JStr "x" |} [mockTask2; mockTask3]
       = [mockTask2; mockTask3]
     ∧ cancelTask true (JStr "9") [mockTask2; mockTask3]
       = [mockTask2; mockTask3]
     ∧ retryTask (JStr "9") [mockTask2; mockTask3] = [mockTask2; mockTask3]).
Proof.
  assert (Hall : Forall (λ task, strict_eq (get task "id") (JStr "9") = false)
                   [mockTask2; mockTask3])
    by (repeat constructor).
  split; [exact Hall |]. split; [reflexivity |].
  exact (unknown_task_id_changes_nothing [mockTask2; mockTask3] (JStr "9")
           {["id" := JStr "9"; "status" := JStr "completed"]}
           (JNum 50) (JStr "x") Hall eq_refl).
Defined.

(** X3. Of two progress events for the same task the later one wins:
    applying both is applying the second. *)
Theorem later_progress_event_wins (first second : task_progress)
  (tasks : list jsobj) :
  task_id first = task_id second →
  handleTaskProgress second (handleTaskProgress first tasks)
  = handleTaskProgress second tasks.
Proof.
  intros Hid. unfold handleTaskProgress. rewrite map_map.
  apply map_ext. intros t. rewrite Hid.
  destruct (strict_eq (get t "id") (task_id second)) eqn:Ht;
    [| by rewrite Ht].
  rewrite !get_insert_ne, Ht by done.
  rewrite (insert_insert_ne _ "current_step" "progress") by done.
  rewrite insert_insert_eq.
  rewrite (insert_insert_ne _ "progress" "current_step") by done.
  by rewrite insert_insert_eq.
Qed.

Lemma later_progress_event_wins_witness :
  task_id {| task_id := JStr "2"; progress := JNum 70;
             current_step := JStr "a" |}
  = task_id {| task_id := JStr "2"; progress := JNum 80;
               current_step := JStr "b" |}
  ∧ handleTaskProgress
      {| task_id := JStr "2"; progress := JNum 80; current_step := JStr "b" |}
      (handleTaskProgress
         {| task_id := JStr "2"; progress := JNum 70;
            current_step := JStr "a" |} [mockTask2; mockTask3])
    = handleTaskProgress
        {| task_id := JStr "2"; progress := JNum 80;
           current_step := JStr "b" |} [mockTask2; mockTask3].
Proof.
  split; [reflexivity |].
  exact (later_progress_event_wins
           {| task_id := JStr "2"; progress := JNum 70;
              current_step := JStr "a" |}
           {| task_id := JStr "2"; progress := JNum 80;
              current_step := JStr "b" |} [mockTask2; mockTask3] eq_refl).
Defined.

(** X4. Two updates for the same task compose to one update with the
    merged payload, the later properties winning. *)
Theorem task_updates_merge (first second : jsobj) (tasks : list jsobj) :
  get first "id" = get second "id" →
  handleTaskUpdate {| task := second |}
    (handleTaskUpdate {| task := first |} tasks)
  = handleTaskUpdate {| task := spread first second |} tasks.
Proof.
  intros Hid. unfold handleTaskUpdate. simpl. rewrite map_map.
  apply map_ext. intros t.
  assert (Hmerged : get (spread first second) "id" = get second "id").
  { rewrite get_spread. unfold get in *.
    destruct (second !! "id"); simpl in *; [done |]. done. }
  rewrite Hmerged, Hid.
  destruct (strict_eq (get t "id") (get second "id")) eqn:Ht.
  - rewrite get_spread_same by (by rewrite Hid).
    rewrite Ht. unfold spread. by rewrite (assoc_L (∪)).
  - by rewrite Ht.
Qed.

Lemma task_updates_merge_witness :
  get ({["id" := JStr "2"; "progress" := JNum 70]} : jsobj) "id"
  = get ({["id" := JStr "2"; "status" := JStr "completed"]} : jsobj) "id"
  ∧ handleTaskUpdate
      {| task := {["id" := JStr "2"; "status" := JStr "completed"]} |}
      (handleTaskUpdate
         {| task := {["id" := JStr "2"; "progress" := JNum 70]} |}
         [mockTask2; mockTask3])
    = handleTaskUpdate
        {| task := spread {["id" := JStr "2"; "progress" := JNum 70]}
                     {["id" := JStr "2"; "status" := JStr "completed"]} |}
        [mockTask2; mockTask3].
Proof.
  split; [reflexivity |].
  exact (task_updates_merge {["id" := JStr "2"; "progress" := JNum 70]}
           {["id" := JStr "2"; "status" := JStr "completed"]}
           [mockTask2; mockTask3] eq_refl).
Defined.

End TaskHandlerFacts.

Section TaskViewFacts.
Import JS JSEval SocketContext TasksPage TaskViews.
Local Open Scope list_scope.

Lemma filter_with_spec {A} (p : A → completion bool) (xs kept : list A) :
  filter_with p xs = Normal kept →
  sublist kept xs ∧ ∀ x, x ∈ kept ↔ x ∈ xs ∧ p x = Normal true.
Proof.
  revert kept. induction xs as [| x xs IH]; intros kept; simpl.
  - intros [= <-]. split; [done |]. intros y. split; [by intros ?%elem_of_nil |].
    by intros [?%elem_of_nil _].
  - destruct (p x) as [keep |] eqn:Hp; simpl; [| done].
    destruct (filter_with p xs) as [rest |]; simpl; [| done].
    intros [= <-]. destruct (IH rest eq_refl) as [Hsub Hin].
    destruct keep.
    + split; [by constructor |]. intros y. rewrite !elem_of_cons, Hin.
      split; [intros [-> | [? ?]]; auto | intros [[-> | ?] ?]; auto].
    + split; [by constructor |]. intros y. rewrite elem_of_cons, Hin.
      split; [intros [? ?]; auto | intros [[-> | ?] ?]; [congruence | auto]].
Qed.

(** The tasks that pass the tab and the status filter. *)
Lemma status_filters_spec (tasks : list jsobj) (activeTab statusFilter : string) :
  let by_tab :=
    if bool_decide (activeTab = "running")
    then filter (λ task, has_status "running" task = true) tasks
    else if bool_decide (activeTab = "completed")
    then filter (λ task, has_status "completed" task = true) tasks
    else if bool_decide (activeTab = "failed")
    then filter (λ task, has_status "failed" task = true) tasks
    else tasks in
  let by_status :=
    if bool_decide (statusFilter ≠ "all")
    then filter (λ task, has_status statusFilter task = true) by_tab
    else by_tab in
  sublist by_status tasks
  ∧ ∀ task, task ∈ by_status ↔
      task ∈ tasks
      ∧ (activeTab ∈ ["running"; "completed"; "failed"] →
         has_status activeTab task = true)
      ∧ (statusFilter ≠ "all" → has_status statusFilter task = true).
Proof.
  intros by_tab by_status.
  assert (Htab : sublist by_tab tasks
                 ∧ ∀ task, task ∈ by_tab ↔
                     task ∈ tasks
                     ∧ (activeTab ∈ ["running"; "completed"; "failed"] →
                        has_status activeTab task = true)).
  { assert (Hkeep : ∀ s, s ∈ ["running"; "completed"; "failed"] →
              sublist (filter (λ task, has_status s task = true) tasks) tasks
              ∧ ∀ task, task ∈ filter (λ task, has_status s task = true) tasks
                  ↔ task ∈ tasks
                    ∧ (s ∈ ["running"; "completed"; "failed"] →
                       has_status s task = true)).
    { intros s Hs. split; [apply sublist_filter |]. intros task.
      rewrite list_elem_of_filter. split; [by intros [? ?] |].
      intros [? Himp]. split; [by apply Himp | done]. }
    unfold by_tab. repeat case_bool_decide; subst.
    - apply Hkeep, list_elem_of_here.
    - apply Hkeep, list_elem_of_further, list_elem_of_here.
    - apply Hkeep. do 2 apply list_elem_of_further. apply list_elem_of_here.
    - split; [done |]. intros task. split; [| by intros [? _]].
      intros ?. split; [done |]. intros Hin.
      repeat (apply elem_of_cons in Hin as [-> | Hin]; [done |]).
      by apply elem_of_nil in Hin. }
  destruct Htab as [Hsub Hin]. unfold by_status. case_bool_decide.
  - split; [etrans; [apply sublist_filter | done] |].
    intros task. rewrite list_elem_of_filter, Hin. tauto.
  - split; [done |]. intros task. rewrite Hin. tauto.
Qed.

(** X5. What [filterTasks] shows: the tasks, in their order, that pass the
    tab, the status filter and the search. *)
Theorem filterTasks_shows_matching_tasks (toLowerCase : string → string)
  (tasks shown : list jsobj) (searchQuery activeTab statusFilter : string) :
  filterTasks toLowerCase tasks searchQuery activeTab statusFilter
  = Normal shown →
  sublist shown tasks
  ∧ ∀ task, task ∈ shown ↔
      task ∈ tasks
      ∧ (activeTab ∈ ["running"; "completed"; "failed"] →
         has_status activeTab task = true)
      ∧ (statusFilter ≠ "all" → has_status statusFilter task = true)
      ∧ (searchQuery ≠ EmptyString →
         matches_search toLowerCase searchQuery task = Normal true).
Proof.
  unfold filterTasks. cbv zeta.
  destruct (status_filters_spec tasks activeTab statusFilter) as [Hsub Hin].
  cbv zeta in Hsub, Hin. revert Hsub Hin.
  generalize (if bool_decide (statusFilter ≠ "all")
              then filter (λ task, has_status statusFilter task = true)
                     (if bool_decide (activeTab = "running")
                      then filter (λ task, has_status "running" task = true) tasks
                      else if bool_decide (activeTab = "completed")
                      then filter (λ task, has_status "completed" task = true) tasks
                      else if bool_decide (activeTab = "failed")
                      then filter (λ task, has_status "failed" task = true) tasks
                      else tasks)
              else (if bool_decide (activeTab = "running")
                    then filter (λ task, has_status "running" task = true) tasks
                    else if bool_decide (activeTab = "completed")
                    then filter (λ task, has_status "completed" task = true) tasks
                    else if bool_decide (activeTab = "failed")
                    then filter (λ task, has_status "failed" task = true) tasks
                    else tasks)).
  intros filtered Hsub Hin. simpl. case_bool_decide as Hq; simpl.
  - intros [= <-]. split; [done |]. intros task. rewrite Hin. tauto.
  - intros [Hsub' Hin']%filter_with_spec.
    split; [by etrans |]. intros task. rewrite Hin', Hin. tauto.
Qed.

Lemma filterTasks_shows_matching_tasks_witness :
  filterTasks ascii_lower [mockTask2; mockTask3] "API" "all" "running"
  = Normal [mockTask2]
  ∧ (sublist [mockTask2] [mockTask2; mockTask3]
     ∧ ∀ task, task ∈ [mockTask2] ↔
         task ∈ [mockTask2; mockTask3]
         ∧ ("all" ∈ ["running"; "completed"; "failed"] →
            has_status "all" task = true)
         ∧ ("running" ≠ "all" → has_status "running" task = true)
         ∧ ("API" ≠ EmptyString →
            matches_search ascii_lower "API" task = Normal true)).
Proof.
  assert (Hrun : filterTasks ascii_lower [mockTask2; mockTask3]
                   "API" "all" "running" = Normal [mockTask2])
    by reflexivity.
  split; [exact Hrun |].
  exact (filterTasks_shows_matching_tasks ascii_lower [mockTask2; mockTask3]
           [mockTask2] "API" "all" "running" Hrun).
Defined.

Lemma matches_search_searchable (toLowerCase : string → string)
  (searchQuery : string) (task : jsobj) :
  searchable task →
  ∃ b, matches_search toLowerCase searchQuery task = Normal b.
Proof.
  intros Hs. unfold matches_search, field_matches.
  destruct (Hs "title") as [t ->]; [apply list_elem_of_here |].
  destruct (Hs "description") as [d ->];
    [apply list_elem_of_further, list_elem_of_here |].
  destruct (Hs "agent_name") as [a ->];
    [do 2 apply list_elem_of_further; apply list_elem_of_here |].
  simpl. repeat (destruct (includes _ _); simpl); by eexists.
Qed.

Lemma filter_with_total {A} (p : A → completion bool) (xs : list A) :
  Forall (λ x, ∃ b, p x = Normal b) xs →
  ∃ kept, filter_with p xs = Normal kept.
Proof.
  induction 1 as [| x xs [b Hb] _ [kept IH]]; simpl; [by eexists |].
  rewrite Hb. simpl. rewrite IH. simpl. by eexists.
Qed.

(** X6. [filterTasks] throws nothing when the title, the description and
    the agent name of every task are texts. *)
Theorem filterTasks_returns_on_text_fields (toLowerCase : string → string)
  (tasks : list jsobj) (searchQuery activeTab statusFilter : string) :
  Forall searchable tasks →
  ∃ shown,
    filterTasks toLowerCase tasks searchQuery activeTab statusFilter
    = Normal shown.
Proof.
  intros Hall. unfold filterTasks. cbv zeta.
  destruct (status_filters_spec tasks activeTab statusFilter) as [Hsub _].
  cbv zeta in Hsub. revert Hsub.
  generalize (if bool_decide (statusFilter ≠ "all")
              then filter (λ task, has_status statusFilter task = true)
                     (if bool_decide (activeTab = "running")
                      then filter (λ task, has_status "running" task = true) tasks
                      else if bool_decide (activeTab = "completed")
                      then filter (λ task, has_status "completed" task = true) tasks
                      else if bool_decide (activeTab = "failed")
                      then filter (λ task, has_status "failed" task = true) tasks
                      else tasks)
              else (if bool_decide (activeTab = "running")
                    then filter (λ task, has_status "running" task = true) tasks
                    else if bool_decide (activeTab = "completed")
                    then filter (λ task, has_status "completed" task = true) tasks
                    else if bool_decide (activeTab = "failed")
                    then filter (λ task, has_status "failed" task = true) tasks
                    else tasks)).
  intros filtered Hsub. destruct (truthy _); [| by eexists].
  apply filter_with_total, Forall_forall. intros task Hin.
  apply matches_search_searchable.
  rewrite Forall_forall in Hall. apply Hall. by eapply elem_of_sublist.
Qed.

Lemma mockTask2_searchable : searchable mockTask2.
Proof.
  intros field Hin.
  repeat (apply elem_of_cons in Hin as [-> | Hin]; [by eexists |]).
  by apply elem_of_nil in Hin.
Qed.

Lemma filterTasks_returns_on_text_fields_witness :
  Forall searchable [mockTask2]
  ∧ ∃ shown, filterTasks ascii_lower [mockTask2] "jwt" "running" "all"
             = Normal shown.
Proof.
  assert (Hall : Forall searchable [mockTask2])
    by (constructor; [apply mockTask2_searchable | constructor]).
  split; [exact Hall |].
  exact (filterTasks_returns_on_text_fields ascii_lower [mockTask2]
           "jwt" "running" "all" Hall).
Defined.

(** A task without a title makes the search throw. *)
Example filterTasks_throws_without_title :
  filterTasks ascii_lower [delete "title" mockTask2] "jwt" "all" "all"
  = Throw "Cannot read properties of undefined (reading 'toLowerCase')".
Proof. reflexivity. Qed.

Lemma has_status_inj (s1 s2 : string) (task : jsobj) :
  has_status s1 task = true → has_status s2 task = true → s1 = s2.
Proof.
  unfold has_status. intros H1%strict_eq_true H2%strict_eq_true. congruence.
Qed.

(** X7. A tab and a status filter that name different statuses show
    nothing, and the search is not run at all. *)
Theorem filterTasks_conflicting_filters (toLowerCase : string → string)
  (tasks : list jsobj) (searchQuery activeTab statusFilter : string) :
  activeTab ∈ ["running"; "completed"; "failed"] →
  statusFilter ≠ "all" → statusFilter ≠ activeTab →
  filterTasks toLowerCase tasks searchQuery activeTab statusFilter
  = Normal [].
Proof.
  intros Htab Hall Hne. unfold filterTasks. cbv zeta.
  destruct (status_filters_spec tasks activeTab statusFilter) as [_ Hin].
  cbv zeta in Hin. revert Hin.
  generalize (if bool_decide (statusFilter ≠ "all")
              then filter (λ task, has_status statusFilter task = true)
                     (if bool_decide (activeTab = "running")
                      then filter (λ task, has_status "running" task = true) tasks
                      else if bool_decide (activeTab = "completed")
                      then filter (λ task, has_status "completed" task = true) tasks
                      else if bool_decide (activeTab = "failed")
                      then filter (λ task, has_status "failed" task = true) tasks
                      else tasks)
              else (if bool_decide (activeTab = "running")
                    then filter (λ task, has_status "running" task = true) tasks
                    else if bool_decide (activeTab = "completed")
                    then filter (λ task, has_status "completed" task = true) tasks
                    else if bool_decide (activeTab = "failed")
                    then filter (λ task, has_status "failed" task = true) tasks
                    else tasks)).
  intros filtered Hin.
  assert (filtered = []) as ->.
  { destruct filtered as [| task rest]; [done |].
    destruct (Hin task) as [(_ & H1 & H2) _]; [apply list_elem_of_here |].
    destruct Hne. eapply has_status_inj; eauto. }
  by destruct (truthy _).
Qed.

Lemma filterTasks_conflicting_filters_witness :
  "running" ∈ ["running"; "completed"; "failed"]
  ∧ "failed" ≠ "all" ∧ "failed" ≠ "running"
  ∧ filterTasks ascii_lower [delete "title" mockTask2; mockTask3]
      "jwt" "running" "failed" = Normal [].
Proof.
  assert (H1 : "running" ∈ ["running"; "completed"; "failed"])
    by apply list_elem_of_here.
  assert (H2 : "failed" ≠ "all") by done.
  assert (H3 : "failed" ≠ "running") by done.
  split; [exact H1 |]. split; [exact H2 |]. split; [exact H3 |].
  exact (filterTasks_conflicting_filters ascii_lower
           [delete "title" mockTask2; mockTask3] "jwt" "running" "failed"
           H1 H2 H3).
Defined.

End TaskViewFacts.

Section DurationFacts.
Import JS JSEval SocketContext TasksPage TaskViews.
Local Open Scope list_scope.

Lemma pretty_N_char_digit (x : N) : is_digit (pretty_N_char x) = true.
Proof. unfold pretty_N_char. by repeat case_match. Qed.

Lemma pretty_N_go_digits (x : N) (s : string) :
  all_digits s = true → all_digits (pretty_N_go x s) = true.
Proof.
  revert s. induction (N.lt_wf_0 x) as [x _ IH]. intros s Hs.
  destruct (decide (x = 0)%N) as [-> | Hx]; [by rewrite pretty_N_go_0 |].
  rewrite pretty_N_go_step by lia.
  apply IH; [apply N.div_lt; lia |].
  simpl. by rewrite pretty_N_char_digit.
Qed.

Lemma pretty_Z_digits (z : Z) : 0 ≤ z → all_digits (pretty z) = true.
Proof.
  intros Hz. destruct z as [| p | p]; [done | | lia].
  unfold pretty, pretty_Z, pretty, pretty_positive, pretty, pretty_N.
  rewrite decide_False by done. by apply pretty_N_go_digits.
Qed.

(** A run of digits and the text after it are determined by the whole. *)
Lemma digits_then_unique (d1 d2 r1 r2 : string) (c1 c2 : ascii) :
  all_digits d1 = true → all_digits d2 = true →
  is_digit c1 = false → is_digit c2 = false →
  d1 +:+ String c1 r1 = d2 +:+ String c2 r2 →
  d1 = d2 ∧ c1 = c2 ∧ r1 = r2.
Proof.
  revert d2. induction d1 as [| a d1 IH]; intros [| b d2]; simpl;
    intros H1 H2 Hc1 Hc2 Heq.
  - by injection Heq as -> ->.
  - injection Heq as -> _. apply andb_true_iff in H2 as [? _]. congruence.
  - injection Heq as -> _. apply andb_true_iff in H1 as [? _]. congruence.
  - injection Heq as -> Heq.
    apply andb_true_iff in H1 as [_ H1]. apply andb_true_iff in H2 as [_ H2].
    by destruct (IH d2 H1 H2 Hc1 Hc2 Heq) as (-> & -> & ->).
Qed.

(** The hours, minutes and seconds of a positive duration. *)
Lemma duration_units (n : Z) :
  0 < n →
  0 ≤ n / 3600 ∧ 0 ≤ Z.rem n 3600 / 60 < 60 ∧ 0 ≤ Z.rem n 60 < 60
  ∧ n = 3600 * (n / 3600) + 60 * (Z.rem n 3600 / 60) + Z.rem n 60.
Proof.
  intros Hn. Z.to_euclidean_division_equations. lia.
Qed.

Lemma formatDuration_nonzero (n : Z) :
  n ≠ 0 →
  formatDuration (JNum n)
  = Some (if 0 <? n / 3600
          then pretty (n / 3600) +:+ "h " +:+ pretty (Z.rem n 3600 / 60)
               +:+ "m " +:+ pretty (Z.rem n 60) +:+ "s"
          else if 0 <? Z.rem n 3600 / 60
          then pretty (Z.rem n 3600 / 60) +:+ "m "
               +:+ pretty (Z.rem n 60) +:+ "s"
          else pretty (Z.rem n 60) +:+ "s").
Proof.
  intros Hn. unfold formatDuration. simpl.
  destruct (n =? 0) eqn:H0; [lia | done].
Qed.

(** X8. Two different positive durations, whole numbers of seconds that
    a JavaScript number holds exactly, are never shown as the same
    text. *)
Theorem formatDuration_injective (a b : Z) :
  0 < a ≤ MAX_SAFE_INTEGER → 0 < b ≤ MAX_SAFE_INTEGER →
  formatDuration (JNum a) = formatDuration (JNum b) → a = b.
Proof.
  intros [Ha _] [Hb _]. rewrite !formatDuration_nonzero by lia.
  destruct (duration_units a Ha) as (Hh & Hm & Hs & Hsum).
  destruct (duration_units b Hb) as (Hh' & Hm' & Hs' & Hsum').
  set (h := a / 3600) in *. set (m := Z.rem a 3600 / 60) in *.
  set (s := Z.rem a 60) in *. set (h' := b / 3600) in *.
  set (m' := Z.rem b 3600 / 60) in *. set (s' := Z.rem b 60) in *.
  clearbody h m s h' m' s'. intros [= Heq].
  assert (Hd : ∀ z, 0 ≤ z → all_digits (pretty z) = true)
    by apply pretty_Z_digits.
  destruct (Z.ltb_spec 0 h), (Z.ltb_spec 0 h'), (Z.ltb_spec 0 m),
    (Z.ltb_spec 0 m'); simpl in Heq;
    apply digits_then_unique in Heq as (Heq1 & Hc & Heq);
    try (apply Hd; lia); try done;
    try (injection Heq as Heq;
         apply digits_then_unique in Heq as (Heq2 & _ & Heq);
         try (apply Hd; lia); try done);
    try (injection Heq as Heq;
         apply digits_then_unique in Heq as (Heq3 & _ & _);
         try (apply Hd; lia); try done);
    repeat match goal with
           | H : pretty _ = pretty _ |- _ => apply (inj pretty) in H
           end; lia.
Qed.

Lemma formatDuration_injective_witness :
  0 < 3725 ≤ MAX_SAFE_INTEGER ∧ 0 < 3725 ≤ MAX_SAFE_INTEGER
  ∧ formatDuration (JNum 3725) = formatDuration (JNum 3725)
  ∧ 3725 = 3725.
Proof.
  assert (H : 0 < 3725 ≤ MAX_SAFE_INTEGER) by (unfold MAX_SAFE_INTEGER; lia).
  split; [exact H |]. split; [exact H |]. split; [reflexivity |].
  exact (formatDuration_injective 3725 3725 H H eq_refl).
Defined.

Example formatDuration_hours : formatDuration (JNum 3725) = Some "1h 2m 5s".
Proof. reflexivity. Qed.

Example formatDuration_zero : formatDuration (JNum 0) = Some "N/A".
Proof. reflexivity. Qed.

(** X9. Of a negative duration only the remainder of the seconds is
    shown: the hours and the minutes are lost. *)
Theorem formatDuration_negative (n : Z) :
  - MAX_SAFE_INTEGER ≤ n < 0 →
  formatDuration (JNum n) = Some (pretty (Z.rem n 60) +:+ "s").
Proof.
  intros [_ Hn]. rewrite formatDuration_nonzero by lia.
  assert (n / 3600 < 0 ∧ Z.rem n 3600 / 60 ≤ 0) as [H1 H2]
    by (Z.to_euclidean_division_equations; lia).
  destruct (0 <? n / 3600) eqn:Hh; [lia |].
  destruct (0 <? Z.rem n 3600 / 60) eqn:Hm; [lia | done].
Qed.

Lemma formatDuration_negative_witness :
  - MAX_SAFE_INTEGER ≤ -3700 < 0
  ∧ formatDuration (JNum (-3700)) = Some "-40s".
Proof.
  assert (H : - MAX_SAFE_INTEGER ≤ -3700 < 0)
    by (unfold MAX_SAFE_INTEGER; lia).
  split; [exact H |]. exact (formatDuration_negative (-3700) H).
Defined.

End DurationFacts.

Section DialogFacts.
Import JS JSEval SocketContext TasksPage TaskViews.
Local Open Scope list_scope.

Lemma visit_one (task : jsobj) (d : detail) (s : socket) :
  closeTaskDetail (openTaskDetail task (d, s))
  = ({| selectedTask := None; isDetailDialogOpen := false |},
     (λ sent, sent ++ visit_events task) <$> s).
Proof.
  unfold closeTaskDetail, openTaskDetail, visit_events. simpl.
  destruct (has_status "running" task); simpl; f_equal.
  - destruct s as [sent |]; simpl; [| done].
    by rewrite <- (assoc_L (++)).
  - destruct s as [sent |]; simpl; [| done]. by rewrite app_nil_r.
Qed.

(** X10. Opening and closing the dialog on one task after another emits,
    for each running task, a subscription followed by its cancellation,
    and nothing else; without a socket nothing is emitted. *)
Theorem visit_balances_subscriptions (tasks : list jsobj) (d : detail)
  (s : socket) :
  (visit tasks (d, s)).2
  = (λ sent, sent ++ (tasks ≫= visit_events)) <$> s.
Proof.
  unfold visit. revert d s. induction tasks as [| task tasks IH];
    intros d s; simpl.
  - destruct s; simpl; [by rewrite app_nil_r | done].
  - rewrite visit_one, IH. destruct s as [sent |]; simpl; [| done].
    by rewrite (assoc_L (++)).
Qed.

(** Opening a second task while the first is open leaves the first
    subscribed: only the second is cancelled on closing. *)
Lemma second_open_leaks_subscription (first second : jsobj) (d : detail)
  (sent : list (string * jsval)) :
  has_status "running" first = true →
  has_status "running" second = true →
  (closeTaskDetail
     (openTaskDetail second (openTaskDetail first (d, Some sent)))).2
  = Some (sent ++ [("subscribe_task", get first "id");
                   ("subscribe_task", get second "id");
                   ("unsubscribe_task", get second "id")]).
Proof.
  intros H1 H2. unfold closeTaskDetail, openTaskDetail. simpl.
  rewrite H1, H2. simpl. by rewrite <- !(assoc_L (++)).
Qed.

End DialogFacts.

Section OnlineUsersFacts.
Import JS JSEval SocketContext.
Local Open Scope list_scope.

Lemma filter_all {A} (P : A → Prop) `{∀ x, Decision (P x)} (l : list A) :
  Forall P l → filter P l = l.
Proof.
  induction 1 as [| x l Hx _ IH]; [done |].
  by rewrite filter_cons, decide_True, IH.
Qed.

(** X11. A user who joins and leaves is gone from the list, however many
    entries carry the id; when nobody else carries it the list is as it
    was before. *)
Theorem user_left_undoes_user_joined (userData : jsobj) (prev : list jsobj) :
  strict_eq (get userData "id") (get userData "id") = true →
  user_left userData (user_joined userData prev) = user_left userData prev
  ∧ (Forall (λ u, strict_eq (get u "id") (get userData "id") = false) prev →
     user_left userData (user_joined userData prev) = prev).
Proof.
  intros Hid.
  assert (Hleft : user_left userData (user_joined userData prev)
                  = user_left userData prev).
  { unfold user_left, user_joined. rewrite filter_app, filter_cons.
    rewrite decide_False by (by rewrite Hid). by rewrite filter_nil, app_nil_r. }
  split; [done |]. intros Hall. rewrite Hleft. by apply filter_all.
Qed.

Lemma user_left_undoes_user_joined_witness :
  strict_eq
    (get ({["id" := JNum 7; "username" := JStr "ana"]} : jsobj) "id")
    (get ({["id" := JNum 7; "username" := JStr "ana"]} : jsobj) "id") = true
  ∧ (user_left {["id" := JNum 7; "username" := JStr "ana"]}
       (user_joined {["id" := JNum 7; "username" := JStr "ana"]}
          [{["id" := JNum 1]}])
     = user_left {["id" := JNum 7; "username" := JStr "ana"]}
         [{["id" := JNum 1]}]
     ∧ (Forall (λ u, strict_eq (get u "id")
                       (get ({["id" := JNum 7; "username" := JStr "ana"]}
                               : jsobj) "id") = false)
          [{["id" := JNum 1]}] →
        user_left {["id" := JNum 7; "username" := JStr "ana"]}
          (user_joined {["id" := JNum 7; "username" := JStr "ana"]}
             [{["id" := JNum 1]}])
        = [{["id" := JNum 1]}])).
Proof.
  split; [reflexivity |].
  exact (user_left_undoes_user_joined
           {["id" := JNum 7; "username" := JStr "ana"]}
           [{["id" := JNum 1]}] eq_refl).
Defined.

End OnlineUsersFacts.

(** ** More on the tools *)

Section ToolsMore.
Import Py Tools.

Lemma getitem_None (params : pydict) (k : string) :
  params !! k = None →
  getitem params k = Raise {| exn_cls := KeyError; exn_str := "'" ++ k ++ "'" |}.
Proof. intros H. unfold getitem. by rewrite H. Qed.

(** The first lookup of a tool raises when its key is missing. *)
Ltac raises_at Hraise Hk k :=
  cbv delta [shell_exec file_read file_write file_list web_search
             browser_navigate text_analyze json_parse] in Hraise;
  cbv beta in Hraise;
  rewrite ?(getitem_Some _ _ _ ltac:(eassumption)) in Hraise;
  rewrite (getitem_None _ _ Hk) in Hraise;
  injection Hraise as <-; split; [done |]; exists k;
  split_and!; [set_solver | done | done].

(** X12. A tool of the catalogue raises only when a parameter that its
    schema requires is missing, and then it raises [KeyError] for that
    parameter. *)
Theorem tools_raise_only_KeyError (row : Schema.tool_row) (w : world)
  (params : pydict) (run : world → pydict → outcome pydict) (e : exn) :
  row ∈ Schema.seeded_tools →
  execute (Schema.name row) = Some run →
  run w params = Raise e →
  exn_cls e = KeyError
  ∧ ∃ k, k ∈ required (Schema.name row) ∧ params !! k = None
         ∧ exn_str e = "'" ++ k ++ "'".
Proof.
  intros Hrow Hrun Hraise. unfold Schema.seeded_tools in Hrow.
  repeat (apply elem_of_cons in Hrow as [-> | Hrow]);
    [.. | by apply elem_of_nil in Hrow].
  - change (Schema.name _) with "shell_exec" in *.
    change (required "shell_exec") with ["command"].
    injection Hrun as <-.
    destruct (params !! "command") as [v |] eqn:Hk; [| raises_at Hraise Hk "command"].
    destruct (shell_exec_well_formed w params) as (r & Hr & _);
      [by eexists | congruence].
  - change (Schema.name _) with "file_read" in *.
    change (required "file_read") with ["path"].
    injection Hrun as <-.
    destruct (params !! "path") as [v |] eqn:Hk; [| raises_at Hraise Hk "path"].
    destruct (file_read_well_formed w params) as (r & Hr & _);
      [by eexists | congruence].
  - change (Schema.name _) with "file_write" in *.
    change (required "file_write") with ["path"; "content"].
    injection Hrun as <-.
    destruct (params !! "path") as [v |] eqn:Hk; [| raises_at Hraise Hk "path"].
    destruct (params !! "content") as [c |] eqn:Hc;
      [| raises_at Hraise Hc "content"].
    destruct (file_write_well_formed w params) as (r & Hr & _);
      [by eexists.. | congruence].
  - change (Schema.name _) with "file_list" in *.
    change (required "file_list") with ["path"].
    injection Hrun as <-.
    destruct (params !! "path") as [v |] eqn:Hk; [| raises_at Hraise Hk "path"].
    destruct (file_list_well_formed w params) as (r & Hr & _);
      [by eexists | congruence].
  - change (Schema.name _) with "web_search" in *.
    change (required "web_search") with ["query"].
    injection Hrun as <-.
    destruct (params !! "query") as [v |] eqn:Hk; [| raises_at Hraise Hk "query"].
    destruct (web_search_well_formed w params) as (r & Hr & _);
      [by eexists | congruence].
  - change (Schema.name _) with "browser_navigate" in *.
    change (required "browser_navigate") with ["url"].
    injection Hrun as <-.
    destruct (params !! "url") as [v |] eqn:Hk; [| raises_at Hraise Hk "url"].
    destruct (browser_navigate_well_formed w params) as (r & Hr & _);
      [by eexists | congruence].
  - change (Schema.name _) with "text_analyze" in *.
    change (required "text_analyze") with ["text"].
    injection Hrun as <-.
    destruct (params !! "text") as [v |] eqn:Hk; [| raises_at Hraise Hk "text"].
    destruct (text_analyze_well_formed w params) as (r & Hr & _);
      [by eexists | congruence].
  - change (Schema.name _) with "json_parse" in *.
    change (required "json_parse") with ["json_string"].
    injection Hrun as <-.
    destruct (params !! "json_string") as [v |] eqn:Hk;
      [| raises_at Hraise Hk "json_string"].
    destruct (json_parse_well_formed w params) as (r & Hr & _);
      [by eexists | congruence].
Qed.

Lemma tools_raise_only_KeyError_witness :
  {| Schema.name := "file_write"; Schema.category := "file";
     Schema.level := Schema.safe; Schema.requires_confirmation := false |}
    ∈ Schema.seeded_tools
  ∧ execute "file_write" = Some file_write
  ∧ file_write (sample_world run_prints big_page) {["path" := PStr "/tmp/a"]}
    = Raise {| exn_cls := KeyError; exn_str := "'content'" |}
  ∧ (KeyError = KeyError
     ∧ ∃ k, k ∈ required "file_write"
            ∧ ({["path" := PStr "/tmp/a"]} : pydict) !! k = None
            ∧ "'content'" = "'" ++ k ++ "'").
Proof.
  assert (Hrow : {| Schema.name := "file_write"; Schema.category := "file";
                    Schema.level := Schema.safe;
                    Schema.requires_confirmation := false |}
                 ∈ Schema.seeded_tools)
    by (unfold Schema.seeded_tools; do 2 apply list_elem_of_further;
        apply list_elem_of_here).
  split; [exact Hrow |]. split; [reflexivity |]. split; [reflexivity |].
  exact (tools_raise_only_KeyError _ (sample_world run_prints big_page)
           {["path" := PStr "/tmp/a"]} file_write _ Hrow eq_refl eq_refl).
Defined.
End ToolsMore.

Section TextAnalyzeFacts.
Import Py Tools ToolProperties.
Local Open Scope list_scope.

Lemma reverse_eq_nil {A} (l : list A) : reverse l = [] ↔ l = [].
Proof.
  split; [| by intros ->]. intros H.
  apply (f_equal length) in H. rewrite length_reverse in H.
  by destruct l.
Qed.

(** Words are separated by at least one character. *)
Lemma split_at_nonempty_count (p : ascii → bool) (cur s : list ascii) :
  (2 * length (filter (λ piece, piece ≠ []) (split_at p cur s))
   ≤ length s + 1 + (if decide (cur = []) then 0 else 1))%nat.
Proof.
  revert cur. induction s as [| c s IH]; intros cur; simpl.
  - rewrite filter_cons. destruct (decide (cur = [])) as [-> | Hne].
    + rewrite decide_False by (by intros []). simpl. lia.
    + rewrite decide_True by (by rewrite reverse_eq_nil). simpl. lia.
  - destruct (p c).
    + rewrite filter_cons. specialize (IH []). simpl in IH.
      destruct (decide (reverse cur ≠ [])) as [Hne | He]; simpl.
      * rewrite decide_False by (intros ->; by apply Hne). lia.
      * destruct (decide (cur = [])); lia.
    + specialize (IH (c :: cur)). simpl in IH.
      destruct (decide (cur = [])); lia.
Qed.

Lemma length_ls (s : string) : length (ls s) = String.length s.
Proof.
  rewrite <- (length_sl (ls s)). unfold sl, ls.
  by rewrite string_of_list_ascii_of_string.
Qed.

Lemma split_ws_length (s : string) :
  (2 * length (split_ws s) ≤ String.length s + 1)%nat.
Proof.
  unfold split_ws. rewrite length_fmap.
  pose proof (split_at_nonempty_count is_space [] (ls s)) as H.
  simpl in H. rewrite length_ls in H. lia.
Qed.

(** The base fields of every analysis of a string. *)
Lemma text_analyze_str (w : world) (params : pydict) (s : string) :
  params !! "text" = Some (PStr s) →
  ∃ r, text_analyze w params = Ret r
       ∧ r !! "success" = Some (PBool true)
       ∧ r !! "text_length" = Some (PInt (Z.of_nat (String.length s)))
       ∧ r !! "word_count" = Some (PInt (Z.of_nat (length (split_ws s)))).
Proof.
  intros Ht. unfold text_analyze. rewrite (getitem_Some _ _ _ Ht). simpl.
  unfold text_analyze_body. simpl.
  repeat case_match; simpl; eexists; (split; [done |]);
    by rewrite ?lookup_insert_ne by done.
Qed.

Lemma lstrip_spec (s : list ascii) :
  ∃ k, s = k ++ lstrip s ∧ Forall (λ c, is_space c = true) k.
Proof.
  induction s as [| c s (k & Hs & Hk)]; simpl.
  - by exists [].
  - destruct (is_space c) eqn:Hc.
    + exists (c :: k). split; [by rewrite Hs at 1 | by constructor].
    + by exists [].
Qed.

Lemma lstrip_head (s : list ascii) (c : ascii) :
  head (lstrip s) = Some c → is_space c = false.
Proof.
  induction s as [| c' s IH]; simpl; [done |].
  destruct (is_space c') eqn:Hc; [done |]. simpl. by intros [= <-].
Qed.

Lemma lstrip_Forall (P : ascii → Prop) (s : list ascii) :
  Forall P s → Forall P (lstrip s).
Proof.
  destruct (lstrip_spec s) as (k & Hs & _). rewrite Hs at 1.
  by intros [_ ?]%Forall_app.
Qed.

Lemma strip_Forall (P : ascii → Prop) (s : list ascii) :
  Forall P s → Forall P (strip s).
Proof.
  intros H. unfold strip. apply Forall_reverse, lstrip_Forall,
    Forall_reverse, lstrip_Forall, H.
Qed.

Lemma strip_trimmed (s : list ascii) : trimmed (strip s).
Proof.
  unfold strip, trimmed. set (x := lstrip s).
  destruct (lstrip_spec (reverse x)) as (k & Hx & _).
  set (y := lstrip (reverse x)) in *. split; intros c.
  - rewrite head_reverse. intros Hc. apply (lstrip_head s).
    fold x. rewrite <- last_reverse, Hx, last_app. by rewrite Hc.
  - rewrite last_reverse. apply lstrip_head.
Qed.

Lemma split_at_Forall (p : ascii → bool) (cur s : list ascii) :
  Forall (λ c, p c = false) cur →
  Forall (Forall (λ c, p c = false)) (split_at p cur s).
Proof.
  revert cur. induction s as [| c s IH]; intros cur Hcur; simpl.
  - constructor; [by apply Forall_reverse | constructor].
  - destruct (p c) eqn:Hc.
    + constructor; [by apply Forall_reverse | by apply IH].
    + apply IH. by constructor.
Qed.

Lemma ls_sl (l : list ascii) : ls (sl l) = l.
Proof. apply list_ascii_of_string_of_list_ascii. Qed.

Lemma sentences_of_clean (text : string) :
  Forall (λ x, x ≠ EmptyString ∧ trimmed (ls x)
               ∧ Forall (λ c, is_sentence_end c = false) (ls x))
         (sentences_of text).
Proof.
  unfold sentences_of. apply Forall_fmap, Forall_forall.
  intros piece [Hne Hin]%list_elem_of_filter.
  apply list_elem_of_fmap in Hin as (raw & -> & Hraw). simpl.
  rewrite ls_sl. split_and!.
  - intros H. apply (f_equal ls) in H. by rewrite ls_sl in H.
  - apply strip_trimmed.
  - apply strip_Forall.
    pose proof (split_at_Forall is_sentence_end [] (ls text)
                  (Forall_nil_2 _)) as Hall.
    by rewrite Forall_forall in Hall; apply Hall.
Qed.

(** X17. text_analyze succeeds exactly on a string. *)
Theorem text_analyze_accepts_exactly_strings (w : world) (params : pydict)
  (text : pyval) :
  params !! "text" = Some text →
  ∃ r b, text_analyze w params = Ret r
         ∧ r !! "success" = Some (PBool b)
         ∧ (b = true ↔ ∃ s, text = PStr s).
Proof.
  intros Ht. destruct text as [| b | n | q | s | xs | d].
  5: { destruct (text_analyze_str w params s Ht) as (r & Hr & Hs & _).
       exists r, true. split_and!; [done.. |]. split; [by exists s | done]. }
  all: unfold text_analyze; rewrite (getitem_Some _ _ _ Ht); simpl;
    eexists _, false; (split_and!; [done | done |]);
    (split; [done | by intros [? [=]]]).
Qed.

Lemma text_analyze_accepts_exactly_strings_witness :
  ({["text" := PList [PStr "hola"]]} : pydict) !! "text"
  = Some (PList [PStr "hola"])
  ∧ ∃ r b, text_analyze (sample_world run_prints big_page)
             {["text" := PList [PStr "hola"]]} = Ret r
           ∧ r !! "success" = Some (PBool b)
           ∧ (b = true ↔ ∃ s, PList [PStr "hola"] = PStr s).
Proof.
  split; [reflexivity |].
  exact (text_analyze_accepts_exactly_strings
           (sample_world run_prints big_page)
           {["text" := PList [PStr "hola"]]} (PList [PStr "hola"]) eq_refl).
Defined.

(** X18. The word count of a string is at most half its length, rounded
    up: two words are at least one character apart. *)
Theorem text_analyze_word_count_bound (w : world) (params : pydict)
  (s : string) :
  params !! "text" = Some (PStr s) →
  ∃ r n, text_analyze w params = Ret r
         ∧ r !! "text_length" = Some (PInt (Z.of_nat (String.length s)))
         ∧ r !! "word_count" = Some (PInt n)
         ∧ 0 ≤ n ∧ 2 * n ≤ Z.of_nat (String.length s) + 1.
Proof.
  intros Ht.
  destruct (text_analyze_str w params s Ht) as (r & Hr & _ & Hlen & Hwords).
  exists r, (Z.of_nat (length (split_ws s))). split_and!; [done.. | lia |].
  pose proof (split_ws_length s). lia.
Qed.

Lemma text_analyze_word_count_bound_witness :
  ({["text" := PStr "uno dos  tres"]} : pydict) !! "text"
  = Some (PStr "uno dos  tres")
  ∧ ∃ r n, text_analyze (sample_world run_prints big_page)
             {["text" := PStr "uno dos  tres"]} = Ret r
           ∧ r !! "text_length"
             = Some (PInt (Z.of_nat (String.length "uno dos  tres")))
           ∧ r !! "word_count" = Some (PInt n)
           ∧ 0 ≤ n ∧ 2 * n ≤ Z.of_nat (String.length "uno dos  tres") + 1.
Proof.
  split; [reflexivity |].
  exact (text_analyze_word_count_bound (sample_world run_prints big_page)
           {["text" := PStr "uno dos  tres"]} "uno dos  tres" eq_refl).
Defined.

Example text_analyze_counts_three_words :
  (text_analyze (sample_world run_prints big_page)
     {["text" := PStr "uno dos  tres"]}) ≫= (λ r, Ret (r !! "word_count"))
  = Ret (Some (PInt 3)).
Proof. vm_compute. reflexivity. Qed.

(** X19. The summary of a string: every sentence is non-empty, trimmed and
    free of the separators; at most three are listed; without a sentence
    the average is 0 and nothing is divided. *)
Theorem text_analyze_summary_sentences (w : world) (params : pydict)
  (s : string) :
  params !! "text" = Some (PStr s) →
  get_default params "analysis_type" (PStr "summary") = PStr "summary" →
  ∃ r sentences,
    text_analyze w params = Ret r
    ∧ r !! "sentence_count" = Some (PInt (Z.of_nat (length sentences)))
    ∧ r !! "first_sentences" = Some (PList (PStr <$> take 3 sentences))
    ∧ (sentences = [] → r !! "avg_sentence_length" = Some (PInt 0))
    ∧ Forall (λ x, x ≠ EmptyString ∧ trimmed (ls x)
                   ∧ Forall (λ c, is_sentence_end c = false) (ls x))
             sentences.
Proof.
  intros Ht Htype. unfold text_analyze.
  rewrite (getitem_Some _ _ _ Ht), Htype. simpl.
  eexists _, (sentences_of s). split_and!; [done | done | done | |].
  - intros ->. done.
  - apply sentences_of_clean.
Qed.

Lemma text_analyze_summary_sentences_witness :
  ({["text" := PStr "Hola. Que tal?  Bien!"]} : pydict) !! "text"
  = Some (PStr "Hola. Que tal?  Bien!")
  ∧ get_default ({["text" := PStr "Hola. Que tal?  Bien!"]} : pydict)
      "analysis_type" (PStr "summary") = PStr "summary"
  ∧ ∃ r sentences,
      text_analyze (sample_world run_prints big_page)
        {["text" := PStr "Hola. Que tal?  Bien!"]} = Ret r
      ∧ r !! "sentence_count" = Some (PInt (Z.of_nat (length sentences)))
      ∧ r !! "first_sentences" = Some (PList (PStr <$> take 3 sentences))
      ∧ (sentences = [] → r !! "avg_sentence_length" = Some (PInt 0))
      ∧ Forall (λ x, x ≠ EmptyString ∧ trimmed (ls x)
                     ∧ Forall (λ c, is_sentence_end c = false) (ls x))
               sentences.
Proof.
  split; [reflexivity |]. split; [reflexivity |].
  exact (text_analyze_summary_sentences (sample_world run_prints big_page)
           {["text" := PStr "Hola. Que tal?  Bien!"]}
           "Hola. Que tal?  Bien!" eq_refl eq_refl).
Defined.

Example text_analyze_summary_example :
  (text_analyze (sample_world run_prints big_page)
     {["text" := PStr "Hola. Que tal?  Bien!"]})
    ≫= (λ r, Ret (r !! "first_sentences", r !! "avg_sentence_length"))
  = Ret (Some (PList [PStr "Hola"; PStr "Que tal"; PStr "Bien"]),
         Some (PFloat (4 # 3))).
Proof. vm_compute. reflexivity. Qed.

End TextAnalyzeFacts.

Section BrowserTextFacts.
Import Py Tools ToolProperties.
Local Open Scope nat_scope.
Local Open Scope list_scope.

Lemma blank_is_space : is_space blank = true.
Proof. reflexivity. Qed.

Lemma blank_not_linebreak : is_linebreak blank = false.
Proof. reflexivity. Qed.

Lemma linebreak_is_space (c : ascii) : is_linebreak c = true → is_space c = true.
Proof.
  by destruct c as [[] [] [] [] [] [] [] []].
Qed.

Lemma single_spaced_cons (c : ascii) (s : list ascii) :
  single_spaced (c :: s) = true
  ↔ ¬ (c = blank ∧ head s = Some blank) ∧ single_spaced s = true.
Proof.
  simpl. rewrite andb_true_iff. destruct s as [| c' s']; simpl.
  - split; [intros [_ ?]; split; [by intros [_ ?] | done] | by intros [_ ?]].
  - rewrite negb_true_iff, andb_false_iff, !bool_decide_eq_false.
    split; intros [H ?]; (split; [| done]).
    + intros [-> [= ->]]. by destruct H.
    + destruct (decide (c = blank)) as [-> | ?]; [| by left].
      right. intros ->. by apply H.
Qed.

Lemma single_spaced_app (l1 l2 : list ascii) :
  single_spaced (l1 ++ l2) = true
  ↔ single_spaced l1 = true ∧ single_spaced l2 = true
    ∧ ¬ (last l1 = Some blank ∧ head l2 = Some blank).
Proof.
  induction l1 as [| c l1 IH].
  - simpl. split; [intros H; split_and!; [done | done | by intros [? _]]
                  | by intros (_ & ? & _)].
  - rewrite <- app_comm_cons, !single_spaced_cons, IH. clear IH.
    destruct l1 as [| c' l1]; simpl; [| tauto].
    split.
    + intros (Hc & _ & Hl2 & _). split_and!; [by intros [_ ?] | done.. |].
      intros [[= ->] ?]. by apply Hc.
    + intros ((_ & _) & Hl2 & Hno). split_and!; try done.
      * intros [-> ?]. by apply Hno.
      * by intros [? _].
Qed.

Lemma single_spaced_take (n : nat) (l : list ascii) :
  single_spaced l = true → single_spaced (take n l) = true.
Proof.
  rewrite <- (take_drop n l) at 1. by intros (? & _)%single_spaced_app.
Qed.

(** [strip s] sits inside [s]. *)
Lemma strip_infix (s : list ascii) :
  ∃ k1 k2, s = k1 ++ strip s ++ k2.
Proof.
  destruct (lstrip_spec s) as (k1 & Hs & _).
  destruct (lstrip_spec (reverse (lstrip s))) as (k2 & Hr & _).
  exists k1, (reverse k2). unfold strip.
  rewrite <- reverse_app, <- Hr, reverse_involutive. done.
Qed.

Lemma strip_single_spaced (s : list ascii) :
  single_spaced s = true → single_spaced (strip s) = true.
Proof.
  destruct (strip_infix s) as (k1 & k2 & Hs). rewrite Hs at 1.
  by intros (_ & (? & _)%single_spaced_app & _)%single_spaced_app.
Qed.

(** The lines of [splitlines] hold no line boundary. *)
Lemma splitlines_go_one_line (n : nat) :
  ∀ cur s, length s ≤ n → one_line cur →
           Forall one_line (splitlines_go cur s).
Proof.
  induction n as [| n IH]; intros cur s Hn Hcur.
  - destruct s; [| simpl in Hn; lia]. simpl.
    destruct cur; [constructor |].
    constructor; [by apply Forall_reverse | constructor].
  - destruct s as [| c s]; simpl.
    + destruct cur; [constructor |].
      constructor; [by apply Forall_reverse | constructor].
    + simpl in Hn. destruct (is_linebreak c) eqn:Hc.
      * destruct s as [| c' s].
        -- constructor; [by apply Forall_reverse | constructor].
        -- simpl in Hn.
           destruct (_ && _); (constructor; [by apply Forall_reverse |]);
             apply IH; simpl; try lia; constructor.
      * apply IH; [lia |]. by constructor.
Qed.

(** The pieces of [split("  ")] hold no two spaces in a row. *)
Lemma split2_go_single_spaced (n : nat) :
  ∀ cur s, length s ≤ n →
    single_spaced (reverse cur ++ take 1 s) = true →
    Forall (λ piece, single_spaced piece = true) (split2_go cur s).
Proof.
  induction n as [| n IH]; intros cur s Hn Hcur.
  - destruct s; [| simpl in Hn; lia]. simpl in *.
    rewrite app_nil_r in Hcur. by constructor.
  - destruct s as [| c s]; simpl in *.
    + rewrite app_nil_r in Hcur. by constructor.
    + destruct s as [| c' s].
      * rewrite reverse_cons. by constructor.
      * destruct (_ && _) eqn:Hcc.
        -- apply single_spaced_app in Hcur as (? & _). constructor; [done |].
           apply IH; [simpl in *; lia |]. rewrite reverse_nil. simpl.
           destruct s; done.
        -- apply IH; [simpl in *; lia |]. rewrite reverse_cons. simpl.
           rewrite <- (assoc_L (++)). simpl.
           apply single_spaced_app in Hcur as (Hcur1 & _ & Hno).
           apply single_spaced_app. split_and!; [done | | done].
           simpl. rewrite andb_true_r, negb_true_iff.
           apply andb_false_iff in Hcc.
           rewrite andb_false_iff, !bool_decide_eq_false.
           destruct Hcc as [Hcc | Hcc]; [left | right]; intros ->;
             by vm_compute in Hcc.
Qed.

Lemma split2_go_Forall (P : ascii → Prop) (n : nat) :
  ∀ cur s, length s ≤ n → Forall P cur → Forall P s →
           Forall (Forall P) (split2_go cur s).
Proof.
  induction n as [| n IH]; intros cur s Hn Hcur Hs.
  - destruct s; [| simpl in Hn; lia]. simpl.
    constructor; [by apply Forall_reverse | constructor].
  - destruct s as [| c s]; simpl.
    + constructor; [by apply Forall_reverse | constructor].
    + apply Forall_cons in Hs as [Hc Hs]. destruct s as [| c' s].
      * constructor; [| constructor]. apply Forall_reverse. by constructor.
      * apply Forall_cons in Hs as [Hc' Hs]. destruct (_ && _).
        -- constructor; [by apply Forall_reverse |].
           apply IH; [simpl in *; lia | constructor | done].
        -- apply IH; [simpl in *; lia | by constructor | by constructor].
Qed.

Lemma trimmed_not_blank (chunk : list ascii) :
  trimmed chunk → head chunk ≠ Some blank ∧ last chunk ≠ Some blank.
Proof.
  intros [Hh Hl]. split; intros H.
  - by specialize (Hh _ H).
  - by specialize (Hl _ H).
Qed.

Lemma join_clean (chunks : list (list ascii)) :
  Forall clean_chunk chunks → chunks ≠ [] →
  clean_chunk (join [blank] chunks).
Proof.
  induction chunks as [| p ps IH]; [done |]. intros [Hp Hps]%Forall_cons _.
  destruct ps as [| p' ps]; [done |].
  specialize (IH Hps ltac:(done)).
  change (join [blank] (p :: p' :: ps))
    with (p ++ [blank] ++ join [blank] (p' :: ps)).
  set (rest := join [blank] (p' :: ps)) in *.
  destruct Hp as (Hne & Htrim & Hss & Hline).
  destruct IH as (Hne' & Htrim' & Hss' & Hline').
  destruct (trimmed_not_blank _ Htrim) as [_ Hlast].
  destruct (trimmed_not_blank _ Htrim') as [Hhead' _].
  split_and!.
  - by destruct p.
  - split; intros c.
    + destruct p; [done |]. apply Htrim.
    + rewrite !last_app. destruct (last rest) eqn:Hr.
      * intros [= <-]. by apply Htrim'.
      * by destruct rest using rev_ind; [| rewrite last_snoc in Hr].
  - apply single_spaced_app. split_and!; [done | | by intros [? _]].
    apply (single_spaced_app [blank]). split_and!; [done | done |].
    by intros [_ ?].
  - apply Forall_app. split; [done |]. by constructor.
Qed.

Lemma clean_text_chunks (text : string) :
  Forall clean_chunk
    (filter (λ chunk, chunk ≠ [])
       ((strip <$> splitlines (ls text))
          ≫= λ line, strip <$> split_double_space line)).
Proof.
  apply Forall_forall. intros chunk [Hne Hin]%list_elem_of_filter.
  apply list_elem_of_bind in Hin as (line & Hchunk & Hline).
  apply list_elem_of_fmap in Hchunk as (piece & -> & Hpiece).
  apply list_elem_of_fmap in Hline as (raw & -> & Hraw).
  assert (Hraw1 : one_line raw).
  { pose proof (splitlines_go_one_line (length (ls text)) [] (ls text)
                  ltac:(done) ltac:(constructor)) as H.
    rewrite Forall_forall in H. by apply H. }
  assert (Hpiece1 : one_line piece).
  { pose proof (split2_go_Forall (λ c, is_linebreak c = false)
                  (length (strip raw)) [] (strip raw) ltac:(done)
                  ltac:(constructor) (strip_Forall _ _ Hraw1)) as H.
    rewrite Forall_forall in H. by apply H. }
  assert (Hpiece2 : single_spaced piece = true).
  { pose proof (split2_go_single_spaced (length (strip raw)) [] (strip raw)
                  ltac:(done)) as H.
    rewrite Forall_forall in H. apply H; [| done].
    rewrite reverse_nil. simpl. by destruct (strip raw). }
  split_and!; [done | apply strip_trimmed | by apply strip_single_spaced |].
  by apply strip_Forall.
Qed.

(** The cleaned text is one line, has no two spaces in a row and no
    white space at either end. *)
Lemma clean_text_normalised (text : string) :
  let cleaned := ls (clean_text text) in
  one_line cleaned ∧ single_spaced cleaned = true ∧ trimmed cleaned.
Proof.
  unfold clean_text. cbv zeta. rewrite ls_sl.
  pose proof (clean_text_chunks text) as Hchunks.
  destruct (filter _ _) as [| p ps] eqn:Hf.
  - simpl. split_and!; [constructor | done | by split].
  - change (ls " ") with [blank].
    destruct (join_clean (p :: ps) Hchunks ltac:(done))
      as (_ & ? & ? & ?). done.
Qed.

Lemma ls_str_take (n : nat) (s : string) : ls (str_take n s) = take n (ls s).
Proof. unfold str_take. apply ls_sl. Qed.

Lemma browser_navigate_body_text (w : world)
  (url extract_text extract_links : pyval) (r : pydict) (v : pyval) :
  browser_navigate_body w url extract_text extract_links = Ret r →
  r !! "text" = Some v →
  ∃ page, v = PStr (str_take text_limit (clean_text (soup_text page))).
Proof.
  unfold browser_navigate_body, mbind, outcome_bind, bind.
  generalize text_limit links_limit. intros n m.
  destruct (requests_get w url) as [resp |]; [| done].
  destruct (raise_for_status w resp); [| done].
  destruct (BeautifulSoup w (content resp)) as [page |]; [| done].
  destruct (truthy extract_text), (truthy extract_links);
    try destruct (mapM _ _) as [links |]; intros [= <-];
    simplify_map_eq; intros; simplify_eq; by eexists.
Qed.

(** X16. The text that [browser_navigate] returns is one line without two
    spaces in a row; it starts with no white space, and ends with none
    unless it was cut at 5000 characters. *)
Theorem browser_navigate_text_normalised (w : world) (params r : pydict)
  (text : string) :
  browser_navigate w params = Ret r →
  r !! "text" = Some (PStr text) →
  one_line (ls text)
  ∧ single_spaced (ls text) = true
  ∧ (∀ c, head (ls text) = Some c → is_space c = false)
  ∧ (String.length text < 5000 →
     ∀ c, last (ls text) = Some c → is_space c = false).
Proof.
  change 5000 with text_limit.
  intros Hrun Htext. unfold browser_navigate in Hrun.
  destruct (params !! "url") as [url |] eqn:Hu;
    [rewrite (getitem_Some _ _ _ Hu) in Hrun
    | by rewrite (getitem_None _ _ Hu) in Hrun].
  simpl in Hrun.
  destruct (browser_navigate_body w url _ _) as [r' | e] eqn:Hbody;
    simpl in Hrun; injection Hrun as <-;
    [| by rewrite failure_lookup_other in Htext].
  destruct (browser_navigate_body_text _ _ _ _ _ _ Hbody Htext)
    as (page & [= ->]).
  destruct (clean_text_normalised (soup_text page)) as (Hline & Hss & Htrim).
  cbv zeta in *. rewrite <- length_ls, !ls_str_take.
  generalize dependent (ls (clean_text (soup_text page))).
  generalize text_limit. intros n cleaned Hline Hss [Hhead Hlast].
  split_and!.
  - by apply Forall_take.
  - by apply single_spaced_take.
  - intros c Hc. apply Hhead. destruct n, cleaned; done.
  - intros Hlt c Hc. apply Hlast.
    rewrite take_ge in Hc; [done |]. rewrite length_take in Hlt. lia.
Qed.

Lemma browser_navigate_text_normalised_witness :
  browser_navigate (sample_world run_prints messy_page)
    {["url" := PStr "http://example.org/"]} = Ret messy_result
  ∧ messy_result !! "text" = Some (PStr "Hola mundo fin")
  ∧ (one_line (ls "Hola mundo fin")
     ∧ single_spaced (ls "Hola mundo fin") = true
     ∧ (∀ c, head (ls "Hola mundo fin") = Some c → is_space c = false)
     ∧ (String.length "Hola mundo fin" < 5000 →
        ∀ c, last (ls "Hola mundo fin") = Some c → is_space c = false)).
Proof.
  assert (Hrun : browser_navigate (sample_world run_prints messy_page)
                   {["url" := PStr "http://example.org/"]}
                 = Ret messy_result) by reflexivity.
  split; [exact Hrun |]. split; [reflexivity |].
  exact (browser_navigate_text_normalised
           (sample_world run_prints messy_page)
           {["url" := PStr "http://example.org/"]} messy_result
           "Hola mundo fin" Hrun eq_refl).
Defined.

End BrowserTextFacts.

Section FileToolFacts.
Import Py Tools ToolProperties.
Local Open Scope list_scope.

(** X13. file_read with an integer [max_lines]: a positive one keeps that
    many lines, a negative one keeps none, and 0 keeps the whole file. *)
Theorem file_read_max_lines (w : world) (params : pydict)
  (path : pyval) (n size : Z) (lines : list string) :
  params !! "path" = Some path →
  params !! "max_lines" = Some (PInt n) →
  path_exists w path = Ret true →
  read_lines w path (get_default params "encoding" (PStr "utf-8"))
  = Ret lines →
  getsize w path = Ret size →
  file_read w params
  = Ret (<["file_size" := PInt size]>
           (<["content" :=
                PStr (concat_str (if n =? 0 then lines
                                  else take (Z.to_nat n) lines))]>
              {["success" := PBool true]})).
Proof.
  intros Hp Hn Hex Hread Hsize. unfold file_read.
  rewrite (getitem_Some _ _ _ Hp). simpl.
  replace (get_default params "max_lines" PNone) with (PInt n)
    by (unfold get_default; by rewrite Hn).
  unfold file_read_body. rewrite Hex. simpl. rewrite Hread. simpl.
  destruct (n =? 0); simpl; by rewrite Hsize.
Qed.

Lemma mapM_Ret_inv {A B} (f : A → outcome B) (l : list A) (k : list B) :
  mapM f l = Ret k → Forall2 (λ x y, f x = Ret y) l k.
Proof.
  revert k. induction l as [| x l IH]; intros k; simpl.
  - intros [= <-]. constructor.
  - intros H. apply bind_ret_inv in H as (y & Hy & H).
    apply bind_ret_inv in H as (k' & Hk' & [= <-]).
    constructor; [done | by apply IH].
Qed.

Lemma visible_not_hidden (show_hidden : pyval) (names : list string) :
  truthy show_hidden = false →
  Forall (λ n, starts_with_dot n = false) (visible show_hidden names).
Proof.
  intros Hs. apply Forall_forall. intros n [Hn _]%list_elem_of_filter.
  destruct (starts_with_dot n); [| done]. by destruct Hn.
Qed.

Lemma walked_file_name (w : world) (root filename : string) (f : pyval) :
  walked_file w root filename = Ret f →
  ∃ d, f = PDict d ∧ d !! "name" = Some (PStr filename).
Proof.
  unfold walked_file. intros H.
  apply bind_ret_inv in H as (p & _ & H).
  apply bind_ret_inv in H as (st & _ & [= <-]). by eexists.
Qed.

Lemma listed_item_name (w : world) (dir_path : pyval) (item : string)
  (f : pyval) :
  listed_item w dir_path item = Ret f →
  ∃ d, f = PDict d ∧ d !! "name" = Some (PStr item).
Proof.
  unfold listed_item. intros H.
  apply bind_ret_inv in H as (p & _ & H).
  apply bind_ret_inv in H as (st & _ & [= <-]). by eexists.
Qed.

Lemma shown_entries (f : string → outcome pyval)
  (names : list string) (files : list pyval) :
  (∀ n x, f n = Ret x → ∃ d, x = PDict d ∧ d !! "name" = Some (PStr n)) →
  Forall (λ n, starts_with_dot n = false) names →
  mapM f names = Ret files → Forall shown_entry files.
Proof.
  intros Hf Hnames Hmap. apply mapM_Ret_inv in Hmap.
  induction Hmap as [| n x names files Hx _ IH]; [constructor |].
  apply Forall_cons in Hnames as [Hn Hnames].
  constructor; [| by apply IH].
  destruct (Hf _ _ Hx) as (d & -> & Hd). by exists d, n.
Qed.

Lemma file_list_body_files (w : world) (dir_path recursive show_hidden : pyval)
  (r : pydict) :
  file_list_body w dir_path recursive show_hidden = Ret r →
  r !! "success" = Some (PBool true) →
  ∃ files, r !! "files" = Some (PList files)
           ∧ r !! "total_count" = Some (PInt (Z.of_nat (length files)))
           ∧ (truthy show_hidden = false → Forall shown_entry files).
Proof.
  unfold file_list_body. intros H Hsucc.
  apply bind_ret_inv in H as (found & _ & H).
  destruct (negb found).
  { injection H as <-. by rewrite failure_lookup_success in Hsucc. }
  apply bind_ret_inv in H as (files & Hfiles & [= <-]).
  exists files. split_and!; [done | done |]. intros Hhid.
  destruct (truthy recursive).
  - apply bind_ret_inv in Hfiles as (dirs & _ & H).
    apply bind_ret_inv in H as (per_dir & Hper & [= <-]).
    apply mapM_Ret_inv in Hper. apply Forall_concat. clear Hsucc.
    induction Hper as [| d fs dirs per_dir Hd _ IH]; [constructor |].
    constructor; [| done].
    eapply shown_entries; [| by apply visible_not_hidden | exact Hd].
    intros n x. apply walked_file_name.
  - apply bind_ret_inv in Hfiles as (items & _ & H).
    eapply shown_entries; [| by apply visible_not_hidden | exact H].
    intros n x. apply listed_item_name.
Qed.

(** X14. A successful file_list counts the entries it lists and, unless
    [show_hidden] is set, lists no name that starts with a dot. *)
Theorem file_list_hides_dot_files (w : world) (params r : pydict) :
  file_list w params = Ret r →
  r !! "success" = Some (PBool true) →
  ∃ files, r !! "files" = Some (PList files)
           ∧ r !! "total_count" = Some (PInt (Z.of_nat (length files)))
           ∧ (truthy (get_default params "show_hidden" (PBool false)) = false
              → Forall shown_entry files).
Proof.
  intros Hrun Hsucc. unfold file_list in Hrun.
  destruct (params !! "path") as [dir |] eqn:Hp;
    [rewrite (getitem_Some _ _ _ Hp) in Hrun
    | by rewrite (getitem_None _ _ Hp) in Hrun].
  simpl in Hrun.
  destruct (file_list_body w dir _ _) as [r' | e] eqn:Hbody;
    simpl in Hrun; injection Hrun as <-;
    [| by rewrite failure_lookup_success in Hsucc].
  by eapply file_list_body_files.
Qed.

Lemma file_list_hides_dot_files_witness :
  file_list (disk_world [] [".git"; "notes.txt"] PNone)
    {["path" := PStr "/tmp"]} = Ret sample_listing
  ∧ sample_listing !! "success" = Some (PBool true)
  ∧ ∃ files, sample_listing !! "files" = Some (PList files)
      ∧ sample_listing !! "total_count"
        = Some (PInt (Z.of_nat (length files)))
      ∧ (truthy (get_default ({["path" := PStr "/tmp"]} : pydict)
                   "show_hidden" (PBool false)) = false
         → Forall shown_entry files).
Proof.
  assert (Hrun : file_list (disk_world [] [".git"; "notes.txt"] PNone)
                   {["path" := PStr "/tmp"]} = Ret sample_listing)
    by reflexivity.
  split; [exact Hrun |]. split; [reflexivity |].
  exact (file_list_hides_dot_files
           (disk_world [] [".git"; "notes.txt"] PNone)
           {["path" := PStr "/tmp"]} sample_listing Hrun eq_refl).
Defined.

Lemma file_read_max_lines_witness :
  ({["path" := PStr "/tmp/a"; "max_lines" := PInt 2]} : pydict) !! "path"
  = Some (PStr "/tmp/a")
  ∧ ({["path" := PStr "/tmp/a"; "max_lines" := PInt 2]} : pydict)
      !! "max_lines" = Some (PInt 2)
  ∧ path_exists (disk_world ["uno "; "dos "; "tres "] [] PNone)
      (PStr "/tmp/a") = Ret true
  ∧ read_lines (disk_world ["uno "; "dos "; "tres "] [] PNone)
      (PStr "/tmp/a")
      (get_default
         ({["path" := PStr "/tmp/a"; "max_lines" := PInt 2]} : pydict)
         "encoding" (PStr "utf-8"))
    = Ret ["uno "; "dos "; "tres "]
  ∧ getsize (disk_world ["uno "; "dos "; "tres "] [] PNone) (PStr "/tmp/a")
    = Ret 13
  ∧ file_read (disk_world ["uno "; "dos "; "tres "] [] PNone)
      {["path" := PStr "/tmp/a"; "max_lines" := PInt 2]}
    = Ret (<["file_size" := PInt 13]>
             (<["content" := PStr "uno dos "]> {["success" := PBool true]})).
Proof.
  split_and!; [reflexivity.. |].
  exact (file_read_max_lines (disk_world ["uno "; "dos "; "tres "] [] PNone)
           {["path" := PStr "/tmp/a"; "max_lines" := PInt 2]}
           (PStr "/tmp/a") 2 13 ["uno "; "dos "; "tres "]
           eq_refl eq_refl eq_refl eq_refl eq_refl).
Defined.

(** With [max_lines] 0 the whole file comes back. *)
Example file_read_zero_lines :
  file_read (disk_world ["uno "; "dos "; "tres "] [] PNone)
    {["path" := PStr "/tmp/a"; "max_lines" := PInt 0]}
  = Ret (<["file_size" := PInt 13]>
           (<["content" := PStr "uno dos tres "]>
              {["success" := PBool true]})).
Proof. reflexivity. Qed.

End FileToolFacts.

Section WebToolFacts.
Import Py Tools ToolProperties.
Local Open Scope list_scope.

Lemma related_entry_length (item : pyval) (entries : list pyval) :
  related_entry item = Ret entries → (length entries ≤ 1)%nat.
Proof.
  unfold related_entry. destruct item; try (intros [= <-]; simpl; lia).
  destruct (_ !! "Text"); [| intros [= <-]; simpl; lia].
  intros H. apply bind_ret_inv in H as (t & _ & [= <-]). done.
Qed.

Lemma related_entries_length (items : list pyval) (related : list (list pyval)) :
  mapM related_entry items = Ret related →
  (length (concat related) ≤ length items)%nat.
Proof.
  intros H%mapM_Ret_inv.
  induction H as [| x y l k Hxy _ IH]; simpl; [done |].
  rewrite length_app. apply related_entry_length in Hxy. lia.
Qed.

Lemma slice_to_length (xs shown : list pyval) (k : Z) :
  0 ≤ k → slice_to xs (PInt k) = Ret shown →
  shown = take (Z.to_nat k) xs.
Proof.
  intros Hk. unfold slice_to.
  destruct (0 <=? k) eqn:Hle; [by intros [= <-] | lia].
Qed.

Lemma sliced_items_length (v : pyval) (items : list pyval) (k : Z) :
  0 ≤ k → sliced_items v (PInt k) = Ret items →
  (length items ≤ Z.to_nat k)%nat.
Proof.
  intros Hk. unfold sliced_items.
  destruct v; try done; intros ->%slice_to_length; try done;
    rewrite ?length_take; lia.
Qed.

Lemma web_search_body_bounds (w : world) (query : pyval) (k : Z) (r : pydict) :
  0 ≤ k →
  web_search_body w query (PInt k) = Ret r →
  ∃ results,
    r !! "results" = Some (PList (take (Z.to_nat k) results))
    ∧ r !! "total_results" = Some (PInt (Z.of_nat (length results)))
    ∧ (length results ≤ Z.to_nat k + 1)%nat.
Proof.
  intros Hk H. unfold web_search_body in H.
  apply bind_ret_inv in H as (q & _ & H).
  apply bind_ret_inv in H as (resp & _ & H).
  apply bind_ret_inv in H as (? & _ & H).
  apply bind_ret_inv in H as (data & _ & H).
  apply bind_ret_inv in H as (abstract & _ & H).
  apply bind_ret_inv in H as (first & Hfirst & H).
  apply bind_ret_inv in H as (topics & _ & H).
  apply bind_ret_inv in H as (items & Hitems & H).
  apply bind_ret_inv in H as (related & Hrelated & H).
  apply bind_ret_inv in H as (shown & Hshown & [= <-]).
  cbv zeta in Hshown. apply slice_to_length in Hshown as ->; [| done].
  eexists. split_and!; [done | done |].
  rewrite length_app.
  apply related_entries_length in Hrelated.
  apply sliced_items_length in Hitems; [| done].
  assert (length first ≤ 1)%nat; [| lia].
  destruct (truthy abstract); [| by injection Hfirst as <-; simpl; lia].
  apply bind_ret_inv in Hfirst as (? & _ & H).
  apply bind_ret_inv in H as (? & _ & H).
  apply bind_ret_inv in H as (? & _ & [= <-]). done.
Qed.

(** X15. web_search with a limit [k] returns at most [k] results;
    [total_results] counts the results before the cut and can be one more
    than the limit, for the abstract. *)
Theorem web_search_result_bounds (w : world) (params r : pydict) (k : Z) :
  get_default params "max_results" (PInt 10) = PInt k → 0 ≤ k →
  web_search w params = Ret r →
  r !! "success" = Some (PBool true) →
  ∃ (shown : list pyval) (total : Z),
    r !! "results" = Some (PList shown)
    ∧ r !! "total_results" = Some (PInt total)
    ∧ Z.of_nat (length shown) ≤ k
    ∧ Z.of_nat (length shown) ≤ total ≤ k + 1.
Proof.
  intros Hmax Hk Hrun Hsucc. unfold web_search in Hrun.
  destruct (params !! "query") as [query |] eqn:Hq;
    [rewrite (getitem_Some _ _ _ Hq) in Hrun
    | by rewrite (getitem_None _ _ Hq) in Hrun].
  simpl in Hrun. rewrite Hmax in Hrun.
  destruct (web_search_body w query _) as [r' | e] eqn:Hbody;
    simpl in Hrun; injection Hrun as <-;
    [| by rewrite failure_lookup_success in Hsucc].
  destruct (web_search_body_bounds _ _ _ _ Hk Hbody)
    as (results & Hshown & Htotal & Hlen).
  eexists _, _. split_and!; [done | done | | |];
    rewrite ?length_take; lia.
Qed.

Lemma web_search_result_bounds_witness :
  get_default ({["query" := PStr "rocq"; "max_results" := PInt 2]} : pydict)
    "max_results" (PInt 10) = PInt 2
  ∧ 0 ≤ 2
  ∧ web_search (disk_world [] [] sample_answer)
      {["query" := PStr "rocq"; "max_results" := PInt 2]}
    = Ret sample_search_result
  ∧ sample_search_result !! "success" = Some (PBool true)
  ∧ ∃ (shown : list pyval) (total : Z),
      sample_search_result !! "results" = Some (PList shown)
      ∧ sample_search_result !! "total_results" = Some (PInt total)
      ∧ Z.of_nat (length shown) ≤ 2
      ∧ Z.of_nat (length shown) ≤ total ≤ 2 + 1.
Proof.
  assert (H0 : 0 ≤ 2) by lia.
  assert (Hrun : web_search (disk_world [] [] sample_answer)
                   {["query" := PStr "rocq"; "max_results" := PInt 2]}
                 = Ret sample_search_result) by reflexivity.
  split; [reflexivity |]. split; [exact H0 |]. split; [exact Hrun |].
  split; [reflexivity |].
  exact (web_search_result_bounds (disk_world [] [] sample_answer)
           {["query" := PStr "rocq"; "max_results" := PInt 2]}
           sample_search_result 2 eq_refl H0 Hrun eq_refl).
Defined.

(** On that answer the count is one more than the limit. *)
Example web_search_total_exceeds_limit :
  sample_search_result !! "total_results" = Some (PInt 3).
Proof. reflexivity. Qed.

End WebToolFacts.

Section JsonToolFacts.
Import Py Tools ToolProperties.
Local Open Scope list_scope.

Lemma json_parse_body_data (w : world) (json_string pretty_print : pyval)
  (r : pydict) :
  json_parse_body w json_string pretty_print = Ret r →
  ∃ data, json_loads w json_string = Ret data
          ∧ r !! "success" = Some (PBool true)
          ∧ r !! "valid_json" = Some (PBool true)
          ∧ r !! "data" = Some data.
Proof.
  unfold json_parse_body. intros H.
  apply bind_ret_inv in H as (data & Hdata & H). exists data.
  split; [done |]. cbv zeta in H.
  apply bind_ret_inv in H as (result & Hresult & [= <-]).
  assert (result !! "success" = Some (PBool true)
          ∧ result !! "valid_json" = Some (PBool true)
          ∧ result !! "data" = Some data) as (? & ? & ?).
  { destruct (truthy pretty_print).
    - apply bind_ret_inv in Hresult as (formatted & _ & [= <-]). done.
    - by injection Hresult as <-. }
  destruct data; by rewrite ?lookup_insert_ne by done.
Qed.

(** X20. json_parse tells a text that the parser rejects from any other
    failure: [valid_json] is true on success, false with the parser's
    message after [JSONDecodeError], and absent otherwise. *)
Theorem json_parse_reports_validity (w : world) (params : pydict)
  (json_string : pyval) :
  params !! "json_string" = Some json_string →
  ∃ r, json_parse w params = Ret r
    ∧ match json_loads w json_string with
      | Ret data =>
          r !! "success" = Some (PBool true) →
          r !! "valid_json" = Some (PBool true) ∧ r !! "data" = Some data
      | Raise e =>
          r !! "success" = Some (PBool false)
          ∧ if bool_decide (exn_cls e = JSONDecodeError)
            then r !! "valid_json" = Some (PBool false)
                 ∧ r !! "error"
                   = Some (PStr ("JSON parsing error: " ++ exn_str e))
            else r !! "valid_json" = None
                 ∧ r !! "error" = Some (PStr (exn_str e))
      end.
Proof.
  intros Hj. unfold json_parse. rewrite (getitem_Some _ _ _ Hj). simpl.
  destruct (json_parse_body w json_string _) as [r | e] eqn:Hbody.
  - exists r. split; [done |].
    apply json_parse_body_data in Hbody as (data & -> & _ & ? & ?). done.
  - unfold json_parse_body in Hbody.
    destruct (json_loads w json_string) as [data | e'] eqn:Hloads.
    + destruct (exn_cls e); eexists; (split; [done |]); by intros Hs.
    + injection Hbody as ->. case_bool_decide as Hcls.
      * rewrite Hcls. eexists. by split_and!.
      * destruct (exn_cls e); [| | done |]; eexists; by split_and!.
Qed.

Lemma json_parse_reports_validity_witness :
  ({["json_string" := PStr "{"]} : pydict) !! "json_string" = Some (PStr "{")
  ∧ ∃ r, json_parse (sample_world run_prints big_page)
           {["json_string" := PStr "{"]} = Ret r
      ∧ (r !! "success" = Some (PBool false)
         ∧ r !! "valid_json" = Some (PBool false)
         ∧ r !! "error"
           = Some (PStr ("JSON parsing error: " ++ "Expecting value"))).
Proof.
  split; [reflexivity |].
  exact (json_parse_reports_validity (sample_world run_prints big_page)
           {["json_string" := PStr "{"]} (PStr "{") eq_refl).
Defined.

End JsonToolFacts.

(** ** Authentication *)

Section AuthFacts.
Import JS JSEval AuthService.
Local Open Scope list_scope.

Lemma lookup_spread (a b : jsobj) (k : string) :
  spread a b !! k = match b !! k with Some v => Some v | None => a !! k end.
Proof. unfold spread. rewrite lookup_union. by destruct (b !! k), (a !! k). Qed.

(** X21. The [config] of a request: every option of the caller passes
    through; the headers are the caller's when given, and the content
    type with the bearer token of the stored token only otherwise. *)
Theorem request_config_headers (token : option string) (options : jsobj) :
  (∀ k, k ≠ "headers" → request_config token options !! k = options !! k)
  ∧ request_config token options !! "headers"
    = match options !! "headers" with
      | Some headers => Some headers
      | None =>
          Some (JObj
                  (match token with
                   | Some t =>
                       if bool_decide (t = EmptyString)
                       then {["Content-Type" := JStr "application/json"]}
                       else <["Authorization" := JStr ("Bearer " +:+ t)]>
                              {["Content-Type" := JStr "application/json"]}
                   | None => {["Content-Type" := JStr "application/json"]}
                   end))
      end.
Proof.
  unfold request_config. cbv zeta. split.
  - intros k Hk. rewrite lookup_spread.
    destruct (options !! k) eqn:Ho; [done |].
    by rewrite lookup_singleton_ne.
  - rewrite lookup_spread. destruct (options !! "headers") eqn:Ho; [done |].
    rewrite lookup_singleton_eq. do 2 f_equal.
    unfold get. rewrite Ho. simpl. unfold spread.
    rewrite (left_id_L ∅ (∪)).
    destruct token as [t |]; simpl; [| apply (left_id_L _ _)].
    case_bool_decide; simpl.
    + subst. apply (left_id_L _ _).
    + by rewrite insert_union_singleton_l.
Qed.

Lemma less_than_number (rt : runtime) (n time : Z) :
  less_than rt (JNum n) (time # 1000) = bool_decide (n * 1000 < time).
Proof.
  unfold less_than, to_number, Qle_bool. simpl.
  case_bool_decide; [apply negb_true_iff | apply negb_false_iff]; lia.
Qed.

(** X22. [makeRequest] returns the parsed body of a response only when the
    response is ok: a failed request, a body that does not parse and a
    response with an error status all end in a thrown error. *)
Theorem makeRequest_returns_ok_body (rt : runtime) (net : network)
  (st : storage) (endpoint : string) (options : jsobj) (data : jsval) :
  makeRequest rt net st endpoint options = Normal data →
  ∃ response,
    fetch net (baseURL rt +:+ endpoint)
      (request_config (st !! "auth_token") options) = Normal response
    ∧ ok response = true
    ∧ json response = Normal data.
Proof.
  unfold makeRequest. cbv zeta.
  destruct (fetch net _ _) as [response |]; simpl; [| done].
  destruct (json response) as [body |] eqn:Hjson; simpl; [| done].
  destruct (ok response) eqn:Hok; simpl.
  - intros [= ->]. by exists response.
  - by destruct (member body "error").
Qed.

Lemma makeRequest_returns_ok_body_witness :
  makeRequest (sample_runtime JNull)
    (sample_network
       (Normal {| ok := true; status := 200;
                  json := Normal (JObj {["user" := JStr "ana"]}) |}) 0)
    ∅ "/me" ∅ = Normal (JObj {["user" := JStr "ana"]})
  ∧ ∃ response,
      fetch (sample_network
               (Normal {| ok := true; status := 200;
                          json := Normal (JObj {["user" := JStr "ana"]}) |}) 0)
        (baseURL (sample_runtime JNull) +:+ "/me")
        (request_config ((∅ : storage) !! "auth_token") ∅) = Normal response
      ∧ ok response = true
      ∧ json response = Normal (JObj {["user" := JStr "ana"]}).
Proof.
  split; [reflexivity |].
  exact (makeRequest_returns_ok_body (sample_runtime JNull)
           (sample_network
              (Normal {| ok := true; status := 200;
                         json := Normal (JObj {["user" := JStr "ana"]}) |}) 0)
           ∅ "/me" ∅ (JObj {["user" := JStr "ana"]}) eq_refl).
Defined.

(** An error status throws the server's message. *)
Example makeRequest_error_status :
  makeRequest (sample_runtime JNull)
    (sample_network
       (Normal {| ok := false; status := 401;
                  json := Normal (JObj {["error" := JStr "Invalid token"]}) |})
       0)
    ∅ "/me" ∅ = Throw "Invalid token".
Proof. reflexivity. Qed.

(** X23. For a token whose payload decodes to an object, the expiry is read
    from [exp] in seconds; a payload without [exp] is never expired. *)
Theorem isTokenExpired_reads_exp (rt : runtime) (net : network)
  (st : storage) (token decoded : string) (payload : jsobj) :
  st !! "auth_token" = Some token → token ≠ EmptyString →
  atob rt (default JUndefined (JStr <$> split "."%char token !! 1%nat))
  = Normal decoded →
  parse rt decoded = Normal (JObj payload) →
  isTokenExpired rt net st
  = match payload !! "exp" with
    | None | Some JUndefined => false
    | Some (JNum seconds) => bool_decide (seconds * 1000 < now net)
    | Some exp => less_than rt exp (now net # 1000)
    end.
Proof.
  intros Hst Hne Hatob Hparse. unfold isTokenExpired.
  rewrite Hst. simpl. rewrite bool_decide_eq_false_2 by done. simpl.
  rewrite Hatob. simpl. rewrite Hparse. simpl. unfold get.
  destruct (payload !! "exp") as [[] |]; simpl; try done.
  apply less_than_number.
Qed.

Lemma isTokenExpired_reads_exp_witness :
  ({["auth_token" := "a.b.c"]} : storage) !! "auth_token" = Some "a.b.c"
  ∧ "a.b.c" ≠ EmptyString
  ∧ atob (sample_runtime (JObj {["sub" := JStr "ana"]}))
      (default JUndefined (JStr <$> split "."%char "a.b.c" !! 1%nat))
    = Normal "b"
  ∧ parse (sample_runtime (JObj {["sub" := JStr "ana"]})) "b"
    = Normal (JObj {["sub" := JStr "ana"]})
  ∧ isTokenExpired (sample_runtime (JObj {["sub" := JStr "ana"]}))
      (sample_network (Throw "offline") 1700000000000)
      {["auth_token" := "a.b.c"]} = false.
Proof.
  assert (Hne : "a.b.c" ≠ EmptyString) by done.
  split; [reflexivity |]. split; [exact Hne |]. split; [reflexivity |].
  split; [reflexivity |].
  exact (isTokenExpired_reads_exp (sample_runtime (JObj {["sub" := JStr "ana"]}))
           (sample_network (Throw "offline") 1700000000000)
           {["auth_token" := "a.b.c"]} "a.b.c" "b" {["sub" := JStr "ana"]}
           eq_refl Hne eq_refl eq_refl).
Defined.

(** X24. A token is reported as not expired only when it is stored,
    non-empty, and its second segment decodes and parses to a value other
    than [null]. *)
Theorem isTokenExpired_false_needs_payload (rt : runtime) (net : network)
  (st : storage) :
  isTokenExpired rt net st = false →
  ∃ (token decoded : string) (payload : jsval),
    st !! "auth_token" = Some token ∧ token ≠ EmptyString
    ∧ atob rt (default JUndefined (JStr <$> split "."%char token !! 1%nat))
      = Normal decoded
    ∧ parse rt decoded = Normal payload
    ∧ payload ≠ JNull ∧ payload ≠ JUndefined.
Proof.
  unfold isTokenExpired. destruct (st !! "auth_token") as [token |]; [| done].
  simpl. case_bool_decide as Hne; [done |]. simpl.
  destruct (atob rt _) as [decoded |] eqn:Hatob; simpl; [| done].
  destruct (parse rt decoded) as [payload |] eqn:Hparse; simpl; [| done].
  intros H. exists token, decoded, payload.
  split_and!; try done; by intros ->.
Qed.

Lemma isTokenExpired_false_needs_payload_witness :
  isTokenExpired (sample_runtime (JObj {["exp" := JNum 1800000000]}))
    (sample_network (Throw "offline") 1700000000000)
    {["auth_token" := "a.b.c"]} = false
  ∧ ∃ (token decoded : string) (payload : jsval),
      ({["auth_token" := "a.b.c"]} : storage) !! "auth_token" = Some token
      ∧ token ≠ EmptyString
      ∧ atob (sample_runtime (JObj {["exp" := JNum 1800000000]}))
          (default JUndefined (JStr <$> split "."%char token !! 1%nat))
        = Normal decoded
      ∧ parse (sample_runtime (JObj {["exp" := JNum 1800000000]})) decoded
        = Normal payload
      ∧ payload ≠ JNull ∧ payload ≠ JUndefined.
Proof.
  split; [reflexivity |].
  exact (isTokenExpired_false_needs_payload
           (sample_runtime (JObj {["exp" := JNum 1800000000]}))
           (sample_network (Throw "offline") 1700000000000)
           {["auth_token" := "a.b.c"]} eq_refl).
Defined.

(** A token with one segment only is expired. *)
Example isTokenExpired_one_segment :
  isTokenExpired (sample_runtime (JObj ∅))
    (sample_network (Throw "offline") 0) {["auth_token" := "abc"]} = true.
Proof. reflexivity. Qed.

End AuthFacts.

Section AuthContextFacts.
Import JS JSEval AuthService AuthContext.
Local Open Scope list_scope.





End AuthContextFacts.

(** ** Row-level security *)

Section PolicyFacts.
Import Policies.
Local Open Scope list_scope.
Local Open Scope N_scope.

Lemma holds_and (a b : option bool) :
  holds (sql_and a b) = true ↔ holds a = true ∧ holds b = true.
Proof.
  destruct a as [[] |], b as [[] |]; simpl;
    (split; [by intros ? | by intros [? ?]]).
Qed.

Lemma holds_eq (a b : option uuid) :
  holds (sql_eq a b) = true ↔ ∃ x, a = Some x ∧ b = Some x.
Proof.
  destruct a as [x |], b as [y |]; simpl;
    try (split; [done | by intros (? & ? & ?)]).
  case_bool_decide as Hxy; simpl.
  - split; [intros _; exists x; by subst | done].
  - split; [done | intros (z & [= ->] & [= ->]); done].
Qed.

Lemma in_own_conversation_spec (uid : option uuid) (db : database)
  (conversation_id : option uuid) :
  in_own_conversation uid db conversation_id = true
  ↔ ∃ c, c ∈ conversations db ∧ conversation_id = Some (c_id c)
         ∧ uid = Some (c_user_id c).
Proof.
  unfold in_own_conversation. rewrite existsb_exists.
  split; intros (c & Hc & H); exists c.
  - apply list_elem_of_In in Hc. apply holds_and in H as [H1 H2].
    apply holds_eq in H1 as (? & [= <-] & ->).
    apply holds_eq in H2 as (? & [= <-] & ->). done.
  - destruct H as [-> ->]. split; [by apply list_elem_of_In |].
    apply holds_and. split; apply holds_eq; by eexists.
Qed.

Lemma in_own_task_spec (uid : option uuid) (db : database)
  (task_id : option uuid) :
  in_own_task uid db task_id = true
  ↔ ∃ t c, t ∈ tasks db ∧ c ∈ conversations db
           ∧ t_conversation_id t = c_id c
           ∧ task_id = Some (t_id t) ∧ uid = Some (c_user_id c).
Proof.
  unfold in_own_task. rewrite existsb_exists. split.
  - intros (t & Ht & H). apply existsb_exists in H as (c & Hc & H).
    apply andb_true_iff in H as [H1 H2].
    apply holds_eq in H1 as (? & [= <-] & [= H1]).
    apply holds_and in H2 as [H2 H3].
    apply holds_eq in H2 as (? & [= <-] & ->).
    apply holds_eq in H3 as (? & [= <-] & ->).
    exists t, c. by rewrite !list_elem_of_In.
  - intros (t & c & Ht & Hc & Hjoin & -> & ->).
    exists t. split; [by apply list_elem_of_In |].
    apply existsb_exists. exists c. split; [by apply list_elem_of_In |].
    apply andb_true_iff. split.
    + apply holds_eq. exists (c_id c). by rewrite Hjoin.
    + apply holds_and. split; apply holds_eq; by eexists.
Qed.

(** A key that is unique in its table names one row. *)
Lemma unique_key {A} (key : A → uuid) (l : list A) (x y : A) :
  NoDup (key <$> l) → x ∈ l → y ∈ l → key x = key y → x = y.
Proof.
  induction l as [| z l IH]; simpl; [by intros _ ?%elem_of_nil |].
  intros [Hz Hl]%NoDup_cons [-> | Hx]%elem_of_cons [-> | Hy]%elem_of_cons Hk.
  - done.
  - destruct Hz. rewrite Hk. by apply list_elem_of_fmap_2.
  - destruct Hz. rewrite <- Hk. by apply list_elem_of_fmap_2.
  - by apply IH.
Qed.

(** X26. With unique ids of conversations and tasks, no conversation,
    message, task, tool execution or file is visible to two different
    users. *)
Theorem row_visible_to_one_user (db : database) (u1 u2 : uuid) (r : row) :
  NoDup (c_id <$> conversations db) →
  NoDup (t_id <$> tasks db) →
  permitted (Some u1) db SELECT r = true →
  permitted (Some u2) db SELECT r = true →
  u1 = u2.
Proof.
  intros Hconv Htask H1 H2.
  assert (Hin : ∀ cid, in_own_conversation (Some u1) db cid = true →
                       in_own_conversation (Some u2) db cid = true →
                       u1 = u2).
  { intros cid (c1 & Hc1 & -> & [= ->])%in_own_conversation_spec
      (c2 & Hc2 & [= Hid] & [= ->])%in_own_conversation_spec.
    by rewrite (unique_key c_id _ c1 c2 Hconv Hc1 Hc2 Hid). }
  destruct r as [c | m | t | te | f];
    cbv beta iota delta [permitted] in H1, H2; eauto.
  - apply holds_eq in H1 as (x1 & [= Hx1] & [= Hu1]).
    apply holds_eq in H2 as (x2 & [= Hx2] & [= Hu2]). congruence.
  - apply in_own_task_spec in H1 as (t1 & c1 & Ht1 & Hc1 & Hj1 & [= Hid1] & [= ->]).
    apply in_own_task_spec in H2 as (t2 & c2 & Ht2 & Hc2 & Hj2 & [= Hid2] & [= ->]).
    assert (t1 = t2) as -> by (eapply (unique_key t_id); eauto; congruence).
    assert (c1 = c2) as -> by (eapply (unique_key c_id); eauto; congruence).
    done.
Qed.

Lemma row_visible_to_one_user_witness :
  NoDup (c_id <$> conversations sample_database)
  ∧ NoDup (t_id <$> tasks sample_database)
  ∧ permitted (Some 1) sample_database SELECT
      (ToolExecutionRow {| te_task_id := 100 |}) = true
  ∧ permitted (Some 1) sample_database SELECT
      (ToolExecutionRow {| te_task_id := 100 |}) = true
  ∧ 1 = 1.
Proof.
  assert (Hc : NoDup (c_id <$> conversations sample_database)).
  { simpl. repeat (apply NoDup_cons; split;
      [intros Hin; repeat (apply elem_of_cons in Hin as [[=] | Hin]);
       by apply elem_of_nil in Hin |]). apply NoDup_nil_2. }
  assert (Ht : NoDup (t_id <$> tasks sample_database)).
  { simpl. apply NoDup_singleton. }
  split; [exact Hc |]. split; [exact Ht |].
  split; [reflexivity |]. split; [reflexivity |].
  exact (row_visible_to_one_user sample_database 1 1
           (ToolExecutionRow {| te_task_id := 100 |}) Hc Ht eq_refl eq_refl).
Defined.

(** The other user of the sample does not see that tool execution. *)
Example tool_execution_hidden_from_other_user :
  permitted (Some 2) sample_database SELECT
    (ToolExecutionRow {| te_task_id := 100 |}) = false.
Proof. reflexivity. Qed.

Lemma in_own_conversation_null (uid : option uuid) (db : database) :
  in_own_conversation uid db None = false.
Proof.
  destruct (in_own_conversation uid db None) eqn:H; [| done].
  by apply in_own_conversation_spec in H as (c & _ & [=] & _).
Qed.

(** X27. A file that belongs to no conversation can be inserted by the
    user named as its uploader, and by nobody else; once stored, no
    session can select it. *)
Theorem file_without_conversation (uid : option uuid) (db : database)
  (f : file) :
  f_conversation_id f = None →
  (permitted uid db INSERT (FileRow f) = true
   ↔ ∃ u, uid = Some u ∧ f_uploaded_by f = Some u)
  ∧ ∀ reader, permitted reader db SELECT (FileRow f) = false.
Proof.
  intros Hnull. split.
  - cbv beta iota delta [permitted]. rewrite Hnull. rewrite holds_and.
    rewrite bool_decide_eq_true_2 by done. simpl. rewrite holds_eq.
    split.
    + intros [(u & -> & ->) _]. by exists u.
    + intros (u & -> & ->). split; [by exists u | done].
  - intros reader. cbv beta iota delta [permitted]. rewrite Hnull.
    apply in_own_conversation_null.
Qed.

Lemma file_without_conversation_witness :
  f_conversation_id {| f_conversation_id := None; f_uploaded_by := Some 1 |}
  = None
  ∧ ((permitted (Some 1) sample_database INSERT
        (FileRow {| f_conversation_id := None; f_uploaded_by := Some 1 |})
      = true
      ↔ ∃ u, Some 1 = Some u ∧ Some 1 = Some u)
     ∧ ∀ reader,
         permitted reader sample_database SELECT
           (FileRow {| f_conversation_id := None; f_uploaded_by := Some 1 |})
         = false).
Proof.
  split; [reflexivity |].
  exact (file_without_conversation (Some 1) sample_database
           {| f_conversation_id := None; f_uploaded_by := Some 1 |} eq_refl).
Defined.

(** X28. A session without a login passes no policy: it can read and write
    no row of these tables. *)
Theorem anonymous_session_denied (db : database) (cmd : command) (r : row) :
  permitted None db cmd r = false.
Proof.
  assert (Hconv : ∀ cid, in_own_conversation None db cid = false).
  { intros cid. destruct (in_own_conversation None db cid) eqn:H; [| done].
    by apply in_own_conversation_spec in H as (c & _ & _ & [=]). }
  assert (Htask : ∀ tid, in_own_task None db tid = false).
  { intros tid. destruct (in_own_task None db tid) eqn:H; [| done].
    by apply in_own_task_spec in H as (t & c & _ & _ & _ & _ & [=]). }
  destruct r as [c | m | t | te | f], cmd;
    cbv beta iota delta [permitted];
    first [done | apply Hconv | apply Htask | idtac].
  destruct (holds _) eqn:H; [| done].
  apply holds_and in H as [H _]. by apply holds_eq in H as (? & _ & [=]).
Qed.

End PolicyFacts.
